(** * DPVO auto_walking_classification: motion aggregation, stitching,
      classification and evaluation

    A shallow embedding of the four scripts of [auto_walking_classification]:

    - [cal_moving_amount_by_sec.py]   (module [CalMovingAmount]),
    - [evaluate.py]                   (module [Evaluate]),
    - [create_walking_classification_video.py] (module [CreateVideo]),
    - [plot_move_amount_per_min.py]   (module [PlotMoveAmount]).

    Conventions of the embedding.

    - Python [int] is [Z]; a Python [float] is an exact rational [Q]:
      comparisons of finite floats are comparisons of the rationals they
      denote, and sums are taken without rounding.  The aggregator is
      written over an arbitrary carrier with its zero and its addition, so it
      can also be run on binary64 ([PrimFloat]) where rounding matters.
    - [str] is [string], one character per code point below 256.
    - A [dict] keyed by seconds is a [gmap Z _].
    - An exception is a value of [exn]; a function that can raise returns a
      [result].  The warnings and errors that [read_pose_data],
      [extract_start_second_from_filename] and the [main] of the aggregator
      print are lists of events; the other messages of the scripts are left
      out.
    - [float(s)] and [math.sqrt] are the language's: parameters of the
      functions that call them ([FloatOfStr], [SqrtFloat]), with one
      instance each to run concrete files.
    - A file is the list of its lines, a directory the list of its files in
      the order of [os.listdir]; writing a file returns its lines.

    Left out: the drawing itself (matplotlib figures, OpenCV frames), of
    which only the data drawn are kept, and the wording of the evaluation
    report and of the statistics file, of which only the numbers are
    kept. *)

From Stdlib Require Import ZArith QArith Qround String Ascii List Lia Lqa.
From Stdlib Require PrimFloat Uint63 OrderedTypeEx.
From stdpp Require Import base option list sorting gmap.

Open Scope Z_scope.

(** ** Exceptions and results *)

Inductive exn : Type :=
| ZeroDivisionError
| IndexError
| ValueError
| StopIteration
| FileNotFoundError
| SystemExit (code : Z).

Inductive result (A : Type) : Type :=
| Ok (a : A)
| Raise (e : exn).
Arguments Ok {A} a.
Arguments Raise {A} e.

(** [x ← r; k] runs [k] on the value of [r], or passes its exception on. *)
#[global] Instance result_bind : MBind result := fun A B k r =>
  match r with
  | Ok a => k a
  | Raise e => Raise e
  end.

(** ** Python built-ins on numbers and lists *)

(** [int(x)] for a float [x]: truncation toward zero. *)
Definition int_of_float (x : Q) : Z :=
  if Qle_bool 0 x then Qfloor x else Qceiling x.

(** [range(a, b)]. *)
Definition py_range (a b : Z) : list Z :=
  map (fun k : nat => a + Z.of_nat k) (seq 0 (Z.to_nat (b - a))).

(** [l[i]]: a negative index counts from the end; out of range raises
    [IndexError] (here [None]). *)
Definition getitem {A : Type} (l : list A) (i : Z) : option A :=
  let n := Z.of_nat (length l) in
  if 0 <=? i then l !! Z.to_nat i
  else if - n <=? i then l !! Z.to_nat (n + i)
  else None.

(** [max(xs)]: raises [ValueError] on an empty sequence. *)
Definition py_max (xs : list Z) : result Z :=
  match xs with
  | [] => Raise ValueError
  | x :: rest => Ok (foldl Z.max x rest)
  end.

(** ** Python [str] methods used by the scripts *)

Module PyStr.
Open Scope string_scope.

Definition code (c : ascii) : N := N_of_ascii c.

(** [c.isspace()] for a code point below 256. *)
Definition is_space (c : ascii) : bool :=
  let n := code c in
  ((9 <=? n) && (n <=? 13) || (28 <=? n) && (n <=? 32)
   || (n =? 133) || (n =? 160))%N.

(** A decimal digit ([\d] of [re], and what [int] accepts), below 256. *)
Definition is_digit (c : ascii) : bool :=
  let n := code c in ((48 <=? n) && (n <=? 57))%N.

Definition digit_value (c : ascii) : Z := Z.of_N (code c) - 48.

Definition is_empty (s : string) : bool :=
  match s with
  | EmptyString => true
  | String _ _ => false
  end.

Definition snoc (s : string) (c : ascii) : string := s ++ String c "".

Fixpoint lstrip (s : string) : string :=
  match s with
  | EmptyString => EmptyString
  | String c r => if is_space c then lstrip r else s
  end.

Fixpoint rstrip (s : string) : string :=
  match s with
  | EmptyString => EmptyString
  | String c r =>
      let r' := rstrip r in
      if is_space c && is_empty r' then EmptyString else String c r'
  end.

(** [s.strip()]. *)
Definition strip (s : string) : string := rstrip (lstrip s).

(** [s.split()]: the maximal runs of non-space characters; [cur] is the
    run being read. *)
Fixpoint split_whitespace_from (cur : string) (s : string) : list string :=
  match s with
  | EmptyString => if is_empty cur then [] else [cur]
  | String c r =>
      if is_space c
      then (if is_empty cur then split_whitespace_from "" r
            else cur :: split_whitespace_from "" r)
      else split_whitespace_from (snoc cur c) r
  end.

Definition split_whitespace (s : string) : list string :=
  split_whitespace_from "" s.

(** [s.split(sep)] for a one-character separator. *)
Fixpoint split_from (sep : ascii) (cur : string) (s : string) : list string :=
  match s with
  | EmptyString => [cur]
  | String c r =>
      if Ascii.eqb c sep then cur :: split_from sep "" r
      else split_from sep (snoc cur c) r
  end.

Definition split (sep : ascii) (s : string) : list string :=
  split_from sep "" s.

(** [s.endswith(suffix)]. *)
Definition endswith (s suffix : string) : bool :=
  let n := String.length s in
  let m := String.length suffix in
  (m <=? n)%nat && String.eqb (substring (n - m) m s) suffix.

(** [sub in s]. *)
Fixpoint contains (sub s : string) : bool :=
  String.prefix sub s ||
  match s with
  | EmptyString => false
  | String _ r => contains sub r
  end.

(** [s.replace(old, '')] for a non-empty [old]: every occurrence found
    scanning from the left is dropped; [skip] counts the characters of the
    occurrence being dropped. *)
Fixpoint remove_from (old : string) (skip : nat) (s : string) : string :=
  match s with
  | EmptyString => EmptyString
  | String c r =>
      match skip with
      | S k => remove_from old k r
      | O =>
          if String.prefix old s then remove_from old (String.length old - 1) r
          else String c (remove_from old 0 r)
      end
  end.

Definition remove_all (old s : string) : string := remove_from old 0 s.

(** The digits of an [int] literal: decimal digits, single underscores
    allowed between two digits. *)
Fixpoint int_digits (acc : Z) (after_digit : bool) (s : string) : option Z :=
  match s with
  | EmptyString => if after_digit then Some acc else None
  | String c r =>
      if is_digit c then int_digits (10 * acc + digit_value c) true r
      else if Ascii.eqb c "_" && after_digit then
        match r with
        | EmptyString => None
        | String _ _ => int_digits acc false r
        end
      else None
  end.

(** [int(s)] in base ten; [None] is [ValueError]. *)
Definition int (s : string) : option Z :=
  match strip s with
  | String "+" r => int_digits 0 false r
  | String "-" r => Z.opp <$> int_digits 0 false r
  | t => int_digits 0 false t
  end.

(** [os.path.basename(p)] on POSIX: what follows the last slash. *)
Fixpoint basename_from (cur : string) (p : string) : string :=
  match p with
  | EmptyString => cur
  | String c r =>
      if Ascii.eqb c "/" then basename_from "" r
      else basename_from (snoc cur c) r
  end.

Definition basename (p : string) : string := basename_from "" p.

(** [sorted(names)]: by code points, the shorter of two strings first when
    one is a prefix of the other.  Insertion keeps equal names in order. *)
Fixpoint insert_sorted (x : string) (l : list string) : list string :=
  match l with
  | [] => [x]
  | y :: r => if String.leb x y then x :: l else y :: insert_sorted x r
  end.

Fixpoint sorted (l : list string) : list string :=
  match l with
  | [] => []
  | x :: r => insert_sorted x (sorted r)
  end.
End PyStr.

(** ** [re.search(r'(\d+)-(\d+)sec\.txt', s)] *)

Module Regex.
Open Scope string_scope.

(** [\d+]: one or more digits, as many as possible first, giving back one
    digit at a time while what follows does not match ([k] is what
    follows; it receives the digits taken and the rest of the text). *)
Fixpoint digits_then {R : Type} (k : string -> string -> option R)
    (taken : string) (s : string) : option R :=
  match s with
  | EmptyString => None
  | String c r =>
      if PyStr.is_digit c then
        let taken' := PyStr.snoc taken c in
        match digits_then k taken' r with
        | Some m => Some m
        | None => k taken' r
        end
      else None
  end.

(** A match of the whole pattern at the start of [s]: groups 1 and 2. *)
Definition match_here (s : string) : option (string * string) :=
  digits_then
    (fun g1 rest =>
       match rest with
       | String "-" rest' =>
           digits_then
             (fun g2 rest'' =>
                if String.prefix "sec.txt" rest'' then Some (g1, g2) else None)
             "" rest'
       | _ => None
       end)
    "" s.

(** [re.search]: the leftmost position where the pattern matches. *)
Fixpoint search (s : string) : option (string * string) :=
  match match_here s with
  | Some m => Some m
  | None =>
      match s with
      | EmptyString => None
      | String _ r => search r
      end
  end.
End Regex.

(** ** [str(n)] and [f"{x:.6f}"] *)

Module PyFormat.
Open Scope string_scope.

(** The character of a digit [0 <= d <= 9]. *)
Definition digit_char (d : Z) : ascii := ascii_of_N (48 + Z.to_N d).

(** The decimal digits of [n >= 0], the last one first, put in front of
    [acc]; [fuel] bounds the number of digits. *)
Fixpoint digits_from (fuel : nat) (n : Z) (acc : string) : string :=
  match fuel with
  | O => acc
  | S fuel' =>
      let acc' := String (digit_char (n mod 10)) acc in
      if (n / 10 =? 0)%Z then acc' else digits_from fuel' (n / 10) acc'
  end.

(** [str(n)] for [n >= 0]: a number has at most [log2 n + 1] digits. *)
Definition digits (n : Z) : string :=
  digits_from (S (Z.to_nat (Z.log2 n))) n "".

(** [str(n)] for an [int]. *)
Definition str_int (n : Z) : string :=
  if (n <? 0)%Z then String "-" (digits (- n)) else digits n.

Fixpoint zeros (k : nat) : string :=
  match k with
  | O => ""
  | S k' => String "0" (zeros k')
  end.

(** The digits of [n >= 0] padded with zeros on the left to [width]. *)
Definition zero_padded (width : nat) (n : Z) : string :=
  let ds := digits n in
  zeros (width - String.length ds) ++ ds.

(** The nearest integer, a tie going to the even one: the rounding of
    the conversion of a float to decimal digits. *)
Definition round_half_even (x : Q) : Z :=
  let f := Qfloor x in
  match (x - inject_Z f ?= 1 # 2)%Q with
  | Lt => f
  | Gt => f + 1
  | Eq => if Z.even f then f else f + 1
  end.

(** [f"{x:.6f}"]: the sign, then the magnitude rounded to six decimals. *)
Definition format_6f (x : Q) : string :=
  let negative := negb (Qle_bool 0 x) in
  let magnitude := if negative then (- x)%Q else x in
  let scaled := round_half_even (magnitude * 1000000) in
  (if negative then "-" else "")
  ++ digits (scaled / 1000000) ++ "." ++ zero_padded 6 (scaled mod 1000000).
End PyFormat.

(** ** What the scripts print, and [float(s)] *)

(** The warnings and errors the modelled functions print; the text of each
    is fixed by its constructor and arguments. *)
Inductive event : Type :=
| WarnInsufficientColumns (line_num : Z)
| WarnInvalidNumeric (line_num : Z)
| ErrorFileNotFound
| ErrorReadingFile
| WarnNoStartSecond (filename : string).

(** [float(s)] is the language's own parser: the readers take it as a
    parameter, [None] being its [ValueError]. *)
Class FloatOfStr : Type := float_of_str : string -> option Q.

(** The fixed-point literals [-ddd.ddd] (what [f"{motion:.6f}"] writes, and
    plain integers), surrounding blanks allowed: an instance to run the
    readers on concrete files. *)
Fixpoint decimal_fraction (num scale : Z) (s : string) : option Q :=
  match s with
  | EmptyString => Some (Qred (num # Z.to_pos scale))
  | String c r =>
      if PyStr.is_digit c
      then decimal_fraction (10 * num + PyStr.digit_value c) (10 * scale) r
      else None
  end.

Fixpoint decimal_integer (num : Z) (after_digit : bool) (s : string) : option Q :=
  match s with
  | EmptyString => if after_digit then Some (inject_Z num) else None
  | String c r =>
      if PyStr.is_digit c
      then decimal_integer (10 * num + PyStr.digit_value c) true r
      else if Ascii.eqb c "." && after_digit then decimal_fraction num 1 r
      else None
  end.

Definition decimal_float : FloatOfStr := fun s =>
  match PyStr.strip s with
  | String "-"%char r => Qopp <$> decimal_integer 0 false r
  | t => decimal_integer 0 false t
  end.

(** [float(s)] inside a [try]. *)
Definition to_float {float : FloatOfStr} (s : string) : result Q :=
  match float_of_str s with
  | Some x => Ok x
  | None => Raise ValueError
  end.

(** [values[i]] inside a [try]: the [IndexError] of a missing field. *)
Definition field (values : list string) (i : Z) : result string :=
  match getitem values i with
  | Some v => Ok v
  | None => Raise IndexError
  end.

(** ** Directories of per-second motion files *)

(** A file as [csv.reader] yields it: rows of fields (a blank line is an
    empty row).  A directory lists its files in the order of [os.listdir]. *)
Definition csv : Type := list (list string).
Definition directory : Type := list (string * csv).

(** [csv.reader(f, delimiter=',')] on the lines of a file that has no
    double quote: a line is split at its commas, an empty line is an empty
    row. *)
Definition csv_reader (lines : list string) : csv :=
  map (fun line => if PyStr.is_empty line then [] else PyStr.split "," line)
    lines.

Definition listdir (d : directory) : list string := map fst d.

(** [open(os.path.join(dir, name))] read through [csv.reader]. *)
Fixpoint open_csv (d : directory) (name : string) : result csv :=
  match d with
  | [] => Raise FileNotFoundError
  | (n, rows) :: rest => if String.eqb n name then Ok rows else open_csv rest name
  end.

(** [dict.keys()] and [dict.items()]. *)
Definition keys {A : Type} (m : gmap Z A) : list Z := map fst (map_to_list m).
Definition items {A : Type} (m : gmap Z A) : list (Z * A) := map_to_list m.

(** [mv >= threshold]. *)
Definition ge_float (mv threshold : Q) : bool := Qle_bool threshold mv.

(** * cal_moving_amount_by_sec.py *)

Module CalMovingAmount.

(** The frames of one [second]:
    [range(start_frame, min(end_frame, len(frame_motions)))]. *)
Definition window_frames (len : nat) (fps : Q) (second : Z) : list Z :=
  let start_frame := int_of_float (inject_Z second * fps) in
  let end_frame := int_of_float (inject_Z (second + 1) * fps) in
  py_range start_frame (Z.min end_frame (Z.of_nat len)).


Section Aggregate.
Context {V : Type} (zero : V) (add : V -> V -> V).

(** The inner loop of [aggregate_by_second]:
    [for frame_idx in range(...): motion_sum += frame_motions[frame_idx]]. *)
Fixpoint accumulate (frame_motions : list V) (frames : list Z)
    (motion_sum : V) : result V :=
  match frames with
  | [] => Ok motion_sum
  | frame_idx :: rest =>
      match getitem frame_motions frame_idx with
      | Some m => accumulate frame_motions rest (add motion_sum m)
      | None => Raise IndexError
      end
  end.

(** The body of the outer loop, for each [second] of
    [range(total_seconds)]; the entries are appended in that order. *)
Fixpoint per_second (frame_motions : list V) (fps : Q) (start_second : Z)
    (seconds : list Z) : result (list (Z * V)) :=
  match seconds with
  | [] => Ok []
  | second :: rest =>
      motion_sum ← accumulate frame_motions
        (window_frames (length frame_motions) fps second) zero;
      let absolute_second := start_second + second in
      tl ← per_second frame_motions fps start_second rest;
      Ok ((absolute_second, motion_sum) :: tl)
  end.

(** [aggregate_by_second(frame_motions, fps, start_second)].
    [len(frame_motions) / fps] raises [ZeroDivisionError] when [fps] is
    zero; the function itself does not check the sign of [fps]. *)
Definition aggregate_by_second (frame_motions : list V) (fps : Q)
    (start_second : Z) : result (list (Z * V)) :=
  if Qeq_bool fps 0 then Raise ZeroDivisionError
  else
    let total_seconds :=
      Qceiling (inject_Z (Z.of_nat (length frame_motions)) / fps) in
    per_second frame_motions fps start_second (py_range 0 total_seconds).

(** [sum(xs)]: a left fold from zero. *)
Definition py_sum (xs : list V) : V := foldl add zero xs.

(** The per-second value as the specification words it: the sum of the
    motions whose index lies in [[floor(s*fps), floor((s+1)*fps))], among
    the indices the sequence has; zero when there is none. *)
Definition window_sum_spec (motions : list V) (fps : Q) (s : Z) : V :=
  let lo := Qfloor (inject_Z s * fps) in
  let hi := Qfloor (inject_Z (s + 1) * fps) in
  py_sum
    (map snd
       (filter (fun p : nat * V => lo <= Z.of_nat (fst p) < hi)
          (zip (seq 0 (length motions)) motions))).
End Aggregate.

Section ReadPose.
Context {float : FloatOfStr}.

(** The loop of [read_pose_data] over the lines of the file, numbered from
    [line_num]; [xz_displacements] and [log] are what was appended and
    printed so far.  An exception other than [ValueError] leaves the inner
    [try] and reaches [except Exception], which prints and exits. *)
Fixpoint read_pose_lines (line_num : Z) (lines : list string)
    (xz_displacements : list (Q * Q)) (log : list event)
    : list event * result (list (Q * Q)) :=
  match lines with
  | [] => (log, Ok xz_displacements)
  | line :: rest =>
      let line := PyStr.strip line in
      if PyStr.is_empty line
      then read_pose_lines (line_num + 1) rest xz_displacements log
      else
        let values := PyStr.split_whitespace line in
        if Z.of_nat (length values) <? 2
        then read_pose_lines (line_num + 1) rest xz_displacements
               (log ++ [WarnInsufficientColumns line_num])
        else
          match (v0 ← field values 0; x ← to_float v0;
                 v2 ← field values 2; z ← to_float v2;
                 Ok (x, z)) with
          | Ok xz =>
              read_pose_lines (line_num + 1) rest
                (xz_displacements ++ [xz]) log
          | Raise ValueError =>
              read_pose_lines (line_num + 1) rest xz_displacements
                (log ++ [WarnInvalidNumeric line_num])
          | Raise _ => (log ++ [ErrorReadingFile], Raise (SystemExit 1))
          end
  end.

(** [read_pose_data(file_path)]; [file] is the text of the file, line by
    line, or [None] when there is no such file. *)
Definition read_pose_data (file : option (list string))
    : list event * result (list (Q * Q)) :=
  match file with
  | None => ([ErrorFileNotFound], Raise (SystemExit 1))
  | Some lines => read_pose_lines 1 lines [] []
  end.
End ReadPose.

(** [extract_start_second_from_filename(output_file)]. *)
Definition extract_start_second_from_filename (output_file : string)
    : list event * result Z :=
  let filename := PyStr.basename output_file in
  match Regex.search filename with
  | Some (group1, _) =>
      match PyStr.int group1 with
      | Some start_sec => ([], Ok start_sec)
      | None => ([], Raise ValueError)
      end
  | None => ([WarnNoStartSecond filename], Ok 0)
  end.

(** [math.sqrt] is the library's: a parameter on the rationals, with the
    [ValueError] it raises on a negative argument. *)
Class SqrtFloat : Type := sqrt_float : Q -> Q.

Definition math_sqrt {sqrt : SqrtFloat} (x : Q) : result Q :=
  if Qlt_le_dec x 0 then Raise ValueError else Ok (sqrt_float x).

Section FrameMotion.
Context {sqrt : SqrtFloat}.

(** The loop of [calculate_frame_motion] over [range(1, len(...))]. *)
Fixpoint frame_motion_loop (xz_displacements : list (Q * Q))
    (indices : list Z) (frame_motions : list Q) : result (list Q) :=
  match indices with
  | [] => Ok frame_motions
  | i :: rest =>
      match getitem xz_displacements (i - 1), getitem xz_displacements i with
      | Some (prev_x, prev_z), Some (curr_x, curr_z) =>
          let dx := (curr_x - prev_x)%Q in
          let dz := (curr_z - prev_z)%Q in
          motion ← math_sqrt (dx * dx + dz * dz)%Q;
          frame_motion_loop xz_displacements rest (frame_motions ++ [motion])
      | _, _ => Raise IndexError
      end
  end.

(** [calculate_frame_motion(xz_displacements)]. *)
Definition calculate_frame_motion (xz_displacements : list (Q * Q))
    : result (list Q) :=
  frame_motion_loop xz_displacements
    (py_range 1 (Z.of_nat (length xz_displacements))) [].
End FrameMotion.

(** [save_motion_data(per_second_motions, output_file)]: the lines written
    to the file, the header first.  Creating the directory and opening the
    file are taken to succeed. *)
Definition save_motion_data (per_second_motions : list (Z * Q))
    : list string :=
  "second,motion_amount"%string
  :: map (fun '(second, motion) =>
            (PyFormat.str_int second ++ "," ++ PyFormat.format_6f motion)%string)
       per_second_motions.

(** What [main] prints besides the messages of the functions it calls
    (its progress messages are left out). *)
Inductive main_event : Type :=
| Usage
| ErrorInvalidFps
| ErrorInsufficientPose
| Printed (e : event).

Section Main.
Context {float : FloatOfStr} {sqrt : SqrtFloat}.

(** [main()] with [sys.argv = argv]; [files] gives the lines of the file
    at a path, if there is one.  The result is the path and the lines of
    the file written. *)
Definition main (argv : list string) (files : string -> option (list string))
    : list main_event * result (string * list string) :=
  match argv with
  | [_; input_file; output_file; fps_arg] =>
      match float_of_str fps_arg with
      | None => ([ErrorInvalidFps], Raise (SystemExit 1))
      | Some fps =>
          if Qle_bool fps 0 then ([ErrorInvalidFps], Raise (SystemExit 1))
          else
            let '(log1, start) :=
              extract_start_second_from_filename output_file in
            match start with
            | Raise e => (map Printed log1, Raise e)
            | Ok start_second =>
                let '(log2, poses) := read_pose_data (files input_file) in
                let log := map Printed (log1 ++ log2) in
                match poses with
                | Raise e => (log, Raise e)
                | Ok xy_displacements =>
                    if Z.of_nat (length xy_displacements) <? 2
                    then (log ++ [ErrorInsufficientPose], Raise (SystemExit 1))
                    else
                      (log,
                       frame_motions ← calculate_frame_motion xy_displacements;
                       per_second_motions ←
                         aggregate_by_second 0%Q Qplus frame_motions fps
                           start_second;
                       Ok (output_file, save_motion_data per_second_motions))
                end
            end
      end
  | _ => ([Usage], Raise (SystemExit 1))
  end.
End Main.

End CalMovingAmount.

(** * evaluate.py *)

Module Evaluate.

(** [read_annotation_data(annotation_dir, video_name)]; [file] is the text
    of [<annotation_dir>/<video_name>.txt], or [None] when it does not
    exist.  A value [int] rejects is skipped. *)
Definition read_annotation_data (file : option string) : result (list Z) :=
  match file with
  | None => Raise (SystemExit 1)
  | Some text =>
      let content := PyStr.strip text in
      if negb (PyStr.is_empty content) then
        let values := PyStr.split "," content in
        Ok (omap (fun value => PyStr.int (PyStr.strip value)) values)
      else Raise (SystemExit 1)
  end.

Section ReadMotion.
Context {float : FloatOfStr}.

(** The body of the [try] of a row:
    [sec = int(float(row[0])); motion_amount = float(row[1])]. *)
Definition parse_row (row : list string) : result (Z * Q) :=
  f0 ← field row 0; x ← to_float f0;
  let sec := int_of_float x in
  f1 ← field row 1; motion_amount ← to_float f1;
  Ok (sec, motion_amount).

(** [for row in reader]: a short row is passed over, a row that raises is
    skipped ([except Exception]), any other row is written at its second. *)
Fixpoint read_rows (rows : csv) (sec_to_motion : gmap Z Q) : gmap Z Q :=
  match rows with
  | [] => sec_to_motion
  | row :: rest =>
      if (match row with [] => true | _ => false end)
         || (Z.of_nat (length row) <? 2)
      then read_rows rest sec_to_motion
      else
        match parse_row row with
        | Ok (sec, motion_amount) =>
            read_rows rest (<[sec := motion_amount]> sec_to_motion)
        | Raise _ => read_rows rest sec_to_motion
        end
  end.

(** [start_sec, end_sec = map(int, time_range.split('-'))]: anything but
    two integers is a [ValueError]. *)
Definition parse_time_range (segment_file : string) : result (Z * Z) :=
  let time_range := PyStr.remove_all "sec.txt" segment_file in
  match map PyStr.int (PyStr.split "-" time_range) with
  | [Some start_sec; Some end_sec] => Ok (start_sec, end_sec)
  | _ => Raise ValueError
  end.

(** [for segment_file in sorted(segment_files)]; nothing here is inside a
    [try], so the error of a name or of [next(reader)] ends the call. *)
Fixpoint read_segments (d : directory) (segment_files : list string)
    (sec_to_motion : gmap Z Q) : result (gmap Z Q) :=
  match segment_files with
  | [] => Ok sec_to_motion
  | segment_file :: rest =>
      _ ← parse_time_range segment_file;
      rows ← open_csv d segment_file;
      match rows with
      | [] => Raise StopIteration
      | header :: body =>
          read_segments d rest (read_rows body sec_to_motion)
      end
  end.

Definition is_segment_file (f : string) : bool :=
  PyStr.endswith f ".txt" && PyStr.contains "sec.txt" f.

(** [read_motion_data(motion_per_sec_dir)]. *)
Definition read_motion_data (d : directory) : result (gmap Z Q) :=
  let segment_files := List.filter is_segment_file (listdir d) in
  read_segments d (PyStr.sorted segment_files) ∅.
End ReadMotion.

(** [classify_motion(sec_to_motion, threshold)]: two classes. *)
Definition classify_motion (sec_to_motion : gmap Z Q) (threshold : Q)
    : gmap Z Z :=
  foldl
    (fun sec_to_classification '(sec, motion) =>
       if ge_float motion threshold
       then <[sec := 1]> sec_to_classification
       else <[sec := 0]> sec_to_classification)
    ∅ (items sec_to_motion).

(** The loop of [align_data] over [range(len(annotation_data))]. *)
Fixpoint align_loop (annotation_data : list Z)
    (sec_to_classification : gmap Z Z) (secs : list Z)
    (aligned_annotation aligned_classification : list Z)
    : result (list Z * list Z) :=
  match secs with
  | [] => Ok (aligned_annotation, aligned_classification)
  | sec :: rest =>
      match getitem annotation_data sec with
      | None => Raise IndexError
      | Some a =>
          match sec_to_classification !! sec with
          | Some c =>
              align_loop annotation_data sec_to_classification rest
                (aligned_annotation ++ [a]) (aligned_classification ++ [c])
          | None =>
              align_loop annotation_data sec_to_classification rest
                (aligned_annotation ++ [a]) (aligned_classification ++ [0])
          end
      end
  end.

Definition align_data (annotation_data : list Z)
    (sec_to_classification : gmap Z Z) : result (list Z * list Z) :=
  align_loop annotation_data sec_to_classification
    (py_range 0 (Z.of_nat (length annotation_data))) [] [].

(** The counters of [calculate_confusion_matrix] over [zip(y_true, y_pred)]:
    an [if]/[elif] chain with no [else]. *)
Fixpoint count_pairs (pairs : list (Z * Z)) (tn fp fn tp : Z)
    : Z * Z * Z * Z :=
  match pairs with
  | [] => (tn, fp, fn, tp)
  | (true_val, pred_val) :: rest =>
      if (true_val =? 0) && (pred_val =? 0) then count_pairs rest (tn + 1) fp fn tp
      else if (true_val =? 0) && (pred_val =? 1) then count_pairs rest tn (fp + 1) fn tp
      else if (true_val =? 1) && (pred_val =? 0) then count_pairs rest tn fp (fn + 1) tp
      else if (true_val =? 1) && (pred_val =? 1) then count_pairs rest tn fp fn (tp + 1)
      else count_pairs rest tn fp fn tp
  end.

(** [calculate_confusion_matrix(y_true, y_pred)]: [[tn, fp], [fn, tp]]. *)
Definition calculate_confusion_matrix (y_true y_pred : list Z)
    : (Z * Z) * (Z * Z) :=
  let '(tn, fp, fn, tp) := count_pairs (zip y_true y_pred) 0 0 0 0 in
  ((tn, fp), (fn, tp)).

(** [a / b if b > 0 else 0] on two counts of the matrix. *)
Definition ratio (a b : Z) : Q :=
  if 0 <? b then (inject_Z a / inject_Z b)%Q else 0%Q.

(** [2 * p * r / (p + r) if (p + r) > 0 else 0]. *)
Definition f1_score (p r : Q) : Q :=
  if Qlt_le_dec 0 (p + r) then (2 * p * r / (p + r))%Q else 0%Q.

(** [(s * s_support + m * m_support) / total_support if total_support > 0
    else 0]. *)
Definition weighted (s m : Q) (s_support m_support : Z) : Q :=
  if 0 <? s_support + m_support
  then ((s * inject_Z s_support + m * inject_Z m_support)
        / inject_Z (s_support + m_support))%Q
  else 0%Q.

(** One row of the report. *)
Record class_metrics : Type := {
  precision : Q;
  recall : Q;
  f1 : Q;
  support : Z
}.

(** The dictionary [calculate_metrics] returns. *)
Record metrics : Type := {
  accuracy : Q;
  static : class_metrics;
  motion : class_metrics;
  macro_avg : class_metrics;
  weighted_avg : class_metrics
}.

(** [calculate_metrics(y_true, y_pred)]. *)
Definition calculate_metrics (y_true y_pred : list Z) : metrics :=
  let '((tn, fp), (fn, tp)) := calculate_confusion_matrix y_true y_pred in
  let accuracy := ratio (tp + tn) (tp + tn + fp + fn) in
  let static_precision := ratio tn (tn + fn) in
  let static_recall := ratio tn (tn + fp) in
  let static_f1 := f1_score static_precision static_recall in
  let static_support := tn + fp in
  let motion_precision := ratio tp (tp + fp) in
  let motion_recall := ratio tp (tp + fn) in
  let motion_f1 := f1_score motion_precision motion_recall in
  let motion_support := tp + fn in
  let macro_precision := ((static_precision + motion_precision) / 2)%Q in
  let macro_recall := ((static_recall + motion_recall) / 2)%Q in
  let macro_f1 := ((static_f1 + motion_f1) / 2)%Q in
  let total_support := static_support + motion_support in
  {| accuracy := accuracy;
     static := {| precision := static_precision; recall := static_recall;
                  f1 := static_f1; support := static_support |};
     motion := {| precision := motion_precision; recall := motion_recall;
                  f1 := motion_f1; support := motion_support |};
     macro_avg := {| precision := macro_precision; recall := macro_recall;
                     f1 := macro_f1; support := total_support |};
     weighted_avg :=
       {| precision := weighted static_precision motion_precision
                         static_support motion_support;
          recall := weighted static_recall motion_recall
                      static_support motion_support;
          f1 := weighted static_f1 motion_f1 static_support motion_support;
          support := total_support |} |}.

(** One round of the loop of [main] over the two thresholds, as far as its
    numbers go: the classification, the aligned lists, then the matrix that
    [create_confusion_matrix_plot] returns and the metrics that
    [save_evaluation_report] writes. *)
Definition evaluate_threshold (annotation_data : list Z)
    (sec_to_motion : gmap Z Q) (threshold : Q)
    : result ((Z * Z) * (Z * Z) * metrics) :=
  let sec_to_classification := classify_motion sec_to_motion threshold in
  aligned ← align_data annotation_data sec_to_classification;
  Ok (calculate_confusion_matrix aligned.1 aligned.2,
      calculate_metrics aligned.1 aligned.2).

End Evaluate.

(** * create_walking_classification_video.py *)

Module CreateVideo.

(** [read_motion_data]: the same text as in [evaluate.py]. *)
Definition read_motion_data {float : FloatOfStr} (d : directory)
    : result (gmap Z Q) :=
  Evaluate.read_motion_data d.

(** A label and its colour. *)
Definition label : Type := string * (Z * Z * Z).

(** [classify_motion(sec_to_motion, walking_threshold1, walking_threshold2)]:
    every second of [range(0, max_sec + 1)], a missing one read as [0.0];
    [max] raises on an empty table. *)
Definition classify_motion (sec_to_motion : gmap Z Q)
    (walking_threshold1 walking_threshold2 : Q) : result (gmap Z label) :=
  max_sec ← py_max (keys sec_to_motion);
  Ok (foldl
        (fun sec_to_label s =>
           let mv := default 0%Q (sec_to_motion !! s) in
           if ge_float mv walking_threshold1
           then <[s := ("WALKING"%string, (0, 200, 0))]> sec_to_label
           else if ge_float mv walking_threshold2
           then <[s := ("HOLD"%string, (0, 200, 200))]> sec_to_label
           else <[s := ("STAYING"%string, (0, 0, 200))]> sec_to_label)
        ∅ (py_range 0 (max_sec + 1))).

(** The second of a frame in the loop of [create_classification_video]:
    [sec = int(frame_idx / fps)]. *)
Definition frame_second (fps : Q) (frame_idx : Z) : result Z :=
  if Qeq_bool fps 0 then Raise ZeroDivisionError
  else Ok (int_of_float (inject_Z frame_idx / fps)).




(** The loop of [save_statistics] over the items of the table:
    [minute_to_sum[s // 60] += v] on a [defaultdict(float)]. *)
Definition minute_to_sum (sec_to_motion : gmap Z Q) : gmap Z Q :=
  foldl
    (fun minute_to_sum '(s, v) =>
       <[s / 60 := Qplus (default 0%Q (minute_to_sum !! (s / 60))) v]>
         minute_to_sum)
    ∅ (items sec_to_motion).

(** [np.max] and [np.min] of a list that is not empty. *)
Definition np_max (x : Q) (xs : list Q) : Q :=
  foldl (fun a b => if Qle_bool a b then b else a) x xs.
Definition np_min (x : Q) (xs : list Q) : Q :=
  foldl (fun a b => if Qle_bool b a then b else a) x xs.

(** The numbers [save_statistics] writes: the duration, the number of
    segments, the total, mean, greatest and least motion, and the sum of
    each minute in the order of the minutes. *)
Record statistics : Type := {
  total_duration : Z;
  number_of_segments : Z;
  total_motion : Q;
  average_motion : Q;
  max_motion : Q;
  min_motion : Q;
  per_minute : list (Z * Q)
}.

(** [save_statistics(sec_to_motion, ..., segment_files)], as far as its
    numbers go; [max] raises on an empty table. *)
Definition save_statistics (sec_to_motion : gmap Z Q)
    (segment_files : list string) : result statistics :=
  max_sec ← py_max (keys sec_to_motion);
  let values := map snd (items sec_to_motion) in
  let minutes := minute_to_sum sec_to_motion in
  Ok {| total_duration := max_sec + 1;
        number_of_segments := Z.of_nat (length segment_files);
        total_motion := foldl Qplus 0%Q values;
        average_motion :=
          (foldl Qplus 0 values / inject_Z (Z.of_nat (length values)))%Q;
        max_motion := np_max (default 0%Q (head values)) (tail values);
        min_motion := np_min (default 0%Q (head values)) (tail values);
        per_minute :=
          omap (fun minute => (fun v => (minute, v)) <$> minutes !! minute)
            (merge_sort Z.le (keys minutes)) |}.

End CreateVideo.

(** * plot_move_amount_per_min.py *)

Module PlotMoveAmount.

Section ReadMotion.
Context {float : FloatOfStr}.

(** [for row in reader], here under [except (ValueError, IndexError)]:
    another exception leaves the loop with the rows written so far kept. *)
Fixpoint read_rows (rows : csv) (sec_to_motion : gmap Z Q)
    : gmap Z Q * result unit :=
  match rows with
  | [] => (sec_to_motion, Ok tt)
  | row :: rest =>
      if (match row with [] => true | _ => false end)
         || (Z.of_nat (length row) <? 2)
      then read_rows rest sec_to_motion
      else
        match Evaluate.parse_row row with
        | Ok (sec, motion_amount) =>
            read_rows rest (<[sec := motion_amount]> sec_to_motion)
        | Raise ValueError | Raise IndexError => read_rows rest sec_to_motion
        | Raise e => (sec_to_motion, Raise e)
        end
  end.

(** [for filename in os.listdir(motion_per_sec_dir)], in the order of the
    listing; whatever a file raises is caught, and the next file is read. *)
Fixpoint read_files (d : directory) (filenames : list string)
    (sec_to_motion : gmap Z Q) : gmap Z Q :=
  match filenames with
  | [] => sec_to_motion
  | filename :: rest =>
      if PyStr.endswith filename "sec.txt" then
        match open_csv d filename with
        | Ok (header :: body) =>
            read_files d rest (fst (read_rows body sec_to_motion))
        | Ok [] | Raise _ => read_files d rest sec_to_motion
        end
      else read_files d rest sec_to_motion
  end.

(** [read_motion_data(motion_per_sec_dir)]. *)
Definition read_motion_data (d : directory) : gmap Z Q :=
  read_files d (listdir d) ∅.
End ReadMotion.

(** [classify_motion(sec_to_motion, walking_threshold1, walking_threshold2)]:
    the seconds the table has, and no other. *)
Definition classify_motion (sec_to_motion : gmap Z Q)
    (walking_threshold1 walking_threshold2 : Q) : gmap Z string :=
  foldl
    (fun sec_to_classification '(sec, motion) =>
       if ge_float motion walking_threshold1
       then <[sec := "walk"%string]> sec_to_classification
       else if ge_float motion walking_threshold2
       then <[sec := "hold"%string]> sec_to_classification
       else <[sec := "stay"%string]> sec_to_classification)
    ∅ (items sec_to_motion).

(** The loop [for sec, value in enumerate(values)] of
    [read_annotation_data]: a value [int] rejects leaves its second
    without an entry. *)
Fixpoint read_annotation_values (sec : Z) (values : list string)
    (sec_to_annotation : gmap Z Z) : gmap Z Z :=
  match values with
  | [] => sec_to_annotation
  | value :: rest =>
      match PyStr.int (PyStr.strip value) with
      | Some a =>
          read_annotation_values (sec + 1) rest (<[sec := a]> sec_to_annotation)
      | None => read_annotation_values (sec + 1) rest sec_to_annotation
      end
  end.

(** [read_annotation_data(annotation_dir, video_name)]; [file] is the text
    of the annotation file, or [None] when it does not exist.  A missing or
    empty file gives an empty dictionary. *)
Definition read_annotation_data (file : option string) : gmap Z Z :=
  match file with
  | None => ∅
  | Some text =>
      let content := PyStr.strip text in
      if negb (PyStr.is_empty content)
      then read_annotation_values 0 (PyStr.split "," content) ∅
      else ∅
  end.

(** The two colour dictionaries of [create_minute_plots]; [None] is the
    [KeyError] of a key they do not have. *)
Definition annotation_colors (a : Z) : option string :=
  if a =? 1 then Some "lightblue"%string
  else if a =? 0 then Some "lightcoral"%string
  else None.

Definition classification_colors (c : string) : option string :=
  if String.eqb c "walk" then Some "lightblue"%string
  else if String.eqb c "hold" then Some "lightyellow"%string
  else if String.eqb c "stay" then Some "lightcoral"%string
  else None.

(** The [KeyError] of [create_minute_plots], with the key that is missing. *)
Inductive key_error : Type :=
| AnnotationKeyError (key : Z)
| ClassificationKeyError (key : string).

(** What one plot is drawn from: the sixty bar heights and the sixty
    background colours of each half. *)
Record minute_plot : Type := {
  minute : Z;
  minute_values : list Q;
  annotation_bg_colors : list string;
  classification_bg_colors : list string
}.

(** The loop [for sec in range(60)] of one minute. *)
Fixpoint minute_loop (sec_to_motion : gmap Z Q) (sec_to_annotation : gmap Z Z)
    (sec_to_classification : gmap Z string) (minute : Z) (secs : list Z)
    (minute_values : list Q)
    (annotation_bg_colors classification_bg_colors : list string)
    : key_error + minute_plot :=
  match secs with
  | [] =>
      inr {| minute := minute; minute_values := minute_values;
             annotation_bg_colors := annotation_bg_colors;
             classification_bg_colors := classification_bg_colors |}
  | sec :: rest =>
      let abs_sec := minute * 60 + sec in
      let minute_values :=
        minute_values ++ [default 0%Q (sec_to_motion !! abs_sec)] in
      match
        match sec_to_annotation !! abs_sec with
        | Some a =>
            match annotation_colors a with
            | Some color => inr color
            | None => inl (AnnotationKeyError a)
            end
        | None => inr "white"%string
        end
      with
      | inl e => inl e
      | inr annotation_color =>
          match
            match sec_to_classification !! abs_sec with
            | Some c =>
                match classification_colors c with
                | Some color => inr color
                | None => inl (ClassificationKeyError c)
                end
            | None => inr "white"%string
            end
          with
          | inl e => inl e
          | inr classification_color =>
              minute_loop sec_to_motion sec_to_annotation
                sec_to_classification minute rest minute_values
                (annotation_bg_colors ++ [annotation_color])
                (classification_bg_colors ++ [classification_color])
          end
      end
  end.

(** The loop [for minute in range(total_minutes)]: the plots saved, and the
    [KeyError] that ended the loop if there was one. *)
Fixpoint minutes_loop (sec_to_motion : gmap Z Q) (sec_to_annotation : gmap Z Z)
    (sec_to_classification : gmap Z string) (minutes : list Z)
    : list minute_plot * option key_error :=
  match minutes with
  | [] => ([], None)
  | minute :: rest =>
      match minute_loop sec_to_motion sec_to_annotation sec_to_classification
              minute (py_range 0 60) [] [] [] with
      | inl e => ([], Some e)
      | inr plot =>
          let '(plots, e) :=
            minutes_loop sec_to_motion sec_to_annotation
              sec_to_classification rest in
          (plot :: plots, e)
      end
  end.

(** [create_minute_plots(sec_to_motion, sec_to_annotation,
    sec_to_classification, ...)], as far as its data go: an empty table is
    reported and nothing is plotted. *)
Definition create_minute_plots (sec_to_motion : gmap Z Q)
    (sec_to_annotation : gmap Z Z) (sec_to_classification : gmap Z string)
    : list minute_plot * option key_error :=
  match py_max (keys sec_to_motion) with
  | Raise _ => ([], None)
  | Ok max_sec =>
      let total_minutes := max_sec / 60 + 1 in
      minutes_loop sec_to_motion sec_to_annotation sec_to_classification
        (py_range 0 total_minutes)
  end.

End PlotMoveAmount.

(** * Binary64 run of the aggregator *)

Module Binary64.
Import PrimFloat.


(** The aggregator on binary64 motions.  The frame rate stays a rational:
    at [fps = 2.0] the quotient [len / fps] and the products [second * fps]
    are exact in binary64 too. *)
Definition aggregate_by_second (frame_motions : list float) (fps : Q)
    (start_second : Z) : result (list (Z * float)) :=
  CalMovingAmount.aggregate_by_second PrimFloat.zero PrimFloat.add
    frame_motions fps start_second.

End Binary64.

(** * Notions used in the statements *)

(** A string of decimal digits. *)
Fixpoint all_digits (s : string) : bool :=
  match s with
  | EmptyString => true
  | String c r => PyStr.is_digit c && all_digits r
  end.

(** The pattern in words: somewhere in the name there is
    [<digits>-<digits>sec.txt], both runs of digits non-empty. *)
Definition has_second_range (name : string) : Prop :=
  exists pre d1 d2 post : string,
    name = (pre ++ d1 ++ "-" ++ d2 ++ "sec.txt" ++ post)%string
    /\ d1 <> EmptyString /\ all_digits d1 = true
    /\ d2 <> EmptyString /\ all_digits d2 = true.

(** A run that ends in [sys.exit(1)]. *)
Definition aborted {A : Type} (r : list event * result A) : Prop :=
  exists log, r = (log, Raise (SystemExit 1)).

(** [k] is the greatest key of [m]. *)
Definition is_max_key {A : Type} (m : gmap Z A) (k : Z) : Prop :=
  is_Some (m !! k) /\ forall j, is_Some (m !! j) -> j <= k.

(** The [if]/[elif]/[else] chain both three-class classifiers apply to a
    motion value. *)
Definition three_class {L : Type} (walking hold staying : L)
    (mv th1 th2 : Q) : L :=
  if ge_float mv th1 then walking
  else if ge_float mv th2 then hold
  else staying.

(** The three labels of the video classifier, with their colours. *)
Definition WALKING : CreateVideo.label := ("WALKING"%string, (0, 200, 0)).
Definition HOLD : CreateVideo.label := ("HOLD"%string, (0, 200, 200)).
Definition STAYING : CreateVideo.label := ("STAYING"%string, (0, 0, 200)).

(** The order of [sorted] on file names. *)
Definition name_le (a b : string) : Prop := String.leb a b = true.

(** The table of one file: its rows after the header, written into an
    empty dictionary. *)
Definition segment_table {float : FloatOfStr} (rows : csv) : gmap Z Q :=
  Evaluate.read_rows (tail rows) ∅.

(** The segment files of a directory, in the order of the listing. *)
Definition segments (d : directory) : list (string * csv) :=
  List.filter (fun p => Evaluate.is_segment_file (fst p)) d.

(** The table a listed name contributes. *)
Definition table_of {float : FloatOfStr} (d : directory) (f : string)
    : gmap Z Q :=
  match open_csv d f with
  | Ok rows => segment_table rows
  | Raise _ => ∅
  end.

(** A label of the two classes. *)
Definition binary (a : Z) : Prop := a = 0 \/ a = 1.

#[global] Instance binary_dec (a : Z) : Decision (binary a).
Proof. unfold binary. apply _. Defined.

(** Two files that both have a row for second 10; the listing gives the
    later one first. *)
Definition overlapping_directory : directory :=
  [ ("10-20sec.txt"%string,
     [ ["second"; "motion_amount"]; ["10"; "1.500000"]; ["11"; "0.250000"] ]%string);
    ("0-10sec.txt"%string,
     [ ["second"; "motion_amount"]; ["9"; "0.500000"]; ["10"; "3.000000"] ]%string) ].

(** A directory with one file whose name ends in [sec.txt] and has no
    second range. *)
Definition notes_directory : directory :=
  [ ("notes_sec.txt"%string,
     [ ["second"; "motion_amount"]; ["3"; "1.500000"] ]%string) ].

(** * Properties *)

(** ** Ranges and indexing *)

Lemma py_range_nil (a b : Z) : b <= a -> py_range a b = [].
Proof.
  intros H. unfold py_range.
  replace (Z.to_nat (b - a)) with 0%nat by lia. reflexivity.
Qed.

Lemma py_range_cons (a b : Z) :
  a < b -> py_range a b = a :: py_range (a + 1) b.
Proof.
  intros H. unfold py_range.
  replace (Z.to_nat (b - a)) with (S (Z.to_nat (b - (a + 1)))) by lia.
  cbn [seq map]. f_equal; [lia |].
  rewrite <- seq_shift, map_map.
  apply map_ext. intros k. lia.
Qed.


Lemma elem_of_py_range (a b k : Z) : k ∈ py_range a b <-> a <= k < b.
Proof.
  unfold py_range. rewrite list_elem_of_fmap. split.
  - intros (i & -> & Hi). apply elem_of_seq in Hi. lia.
  - intros Hk. exists (Z.to_nat (k - a)). split; [lia |].
    apply elem_of_seq. lia.
Qed.

Lemma length_py_range (a b : Z) : length (py_range a b) = Z.to_nat (b - a).
Proof. unfold py_range. now rewrite length_map, length_seq. Qed.

Lemma lookup_py_range (a b : Z) (i : nat) :
  (i < Z.to_nat (b - a))%nat -> py_range a b !! i = Some (a + Z.of_nat i).
Proof.
  intros Hi. unfold py_range.
  rewrite list_lookup_fmap, lookup_seq_lt by done. reflexivity.
Qed.

Lemma getitem_of_nat {A : Type} (l : list A) (i : nat) :
  getitem l (Z.of_nat i) = l !! i.
Proof.
  unfold getitem.
  destruct (Z.leb_spec 0 (Z.of_nat i)); [| lia].
  now rewrite Nat2Z.id.
Qed.

(** ** The aggregator *)

Section AggregateFacts.
Context {V : Type} (zero : V) (add : V -> V -> V).
Import CalMovingAmount.

(** The inner loop over the frames [a, a + n) of the sequence reads the
    slice and never raises. *)
Lemma accumulate_slice (l : list V) (n a : nat) (acc : V) :
  (a + n <= length l)%nat ->
  accumulate add l (py_range (Z.of_nat a) (Z.of_nat (a + n))) acc
  = Ok (foldl add acc (take n (drop a l))).
Proof.
  revert a acc. induction n as [| n IH]; intros a acc Hlen.
  - rewrite py_range_nil by lia. reflexivity.
  - rewrite py_range_cons by lia. cbn [accumulate].
    rewrite getitem_of_nat.
    destruct (lookup_lt_is_Some_2 l a) as [x Hx]; [lia |].
    rewrite Hx.
    replace (Z.of_nat a + 1) with (Z.of_nat (S a)) by lia.
    replace (a + S n)%nat with (S a + n)%nat by lia.
    rewrite IH by lia.
    rewrite (drop_S l x a Hx). reflexivity.
Qed.

(** On the indexed sequence from [k], keeping the indices of [[lo, hi)]
    keeps a slice: first when the window starts at or before [k]. *)
Lemma window_filter_from (l : list V) (k : nat) (lo hi : Z) :
  lo <= Z.of_nat k ->
  map snd
    (filter (fun p : nat * V => lo <= Z.of_nat (fst p) < hi)
       (zip (seq k (length l)) l))
  = take (Z.to_nat hi - k) l.
Proof.
  revert k. induction l as [| x l IH]; intros k Hk.
  - now rewrite take_nil.
  - cbn [length seq zip zip_with]. rewrite filter_cons. cbn [fst].
    case_decide as Hin.
    + cbn [map snd]. rewrite IH by lia.
      replace (Z.to_nat hi - k)%nat with (S (Z.to_nat hi - S k)) by lia.
      reflexivity.
    + rewrite IH by lia.
      replace (Z.to_nat hi - S k)%nat with 0%nat by lia.
      replace (Z.to_nat hi - k)%nat with 0%nat by lia.
      reflexivity.
Qed.

Lemma window_filter (l : list V) (k : nat) (lo hi : Z) :
  Z.of_nat k <= lo ->
  map snd
    (filter (fun p : nat * V => lo <= Z.of_nat (fst p) < hi)
       (zip (seq k (length l)) l))
  = take (Z.to_nat hi - Z.to_nat lo) (drop (Z.to_nat lo - k) l).
Proof.
  revert k. induction l as [| x l IH]; intros k Hk.
  - now rewrite drop_nil, take_nil.
  - destruct (decide (Z.of_nat k = lo)) as [<- | Hne].
    + rewrite window_filter_from by lia.
      rewrite Nat2Z.id, Nat.sub_diag. reflexivity.
    + cbn [length seq zip zip_with]. rewrite filter_cons. cbn [fst].
      case_decide as Hin; [lia |].
      rewrite IH by lia.
      replace (Z.to_nat lo - k)%nat with (S (Z.to_nat lo - S k)) by lia.
      reflexivity.
Qed.

Lemma int_of_float_nonneg (x : Q) : (0 <= x)%Q -> int_of_float x = Qfloor x.
Proof.
  intros H. unfold int_of_float.
  apply Qle_bool_iff in H. now rewrite H.
Qed.

Lemma second_times_fps_nonneg (fps : Q) (s : Z) :
  (0 < fps)%Q -> 0 <= s -> (0 <= inject_Z s * fps)%Q.
Proof.
  intros Hfps Hs. apply Qmult_le_0_compat; [| now apply Qlt_le_weak].
  change 0%Q with (inject_Z 0). now rewrite <- Zle_Qle.
Qed.

Lemma floor_second_nonneg (fps : Q) (s : Z) :
  (0 < fps)%Q -> 0 <= s -> 0 <= Qfloor (inject_Z s * fps).
Proof.
  intros Hfps Hs.
  change 0 with (Qfloor (inject_Z 0)).
  apply Qfloor_resp_le. now apply second_times_fps_nonneg.
Qed.

Lemma floor_second_mono (fps : Q) (s t : Z) :
  (0 < fps)%Q -> s <= t ->
  Qfloor (inject_Z s * fps) <= Qfloor (inject_Z t * fps).
Proof.
  intros Hfps Hst. apply Qfloor_resp_le.
  apply Qmult_le_compat_r; [| now apply Qlt_le_weak].
  now rewrite <- Zle_Qle.
Qed.

(** The value the code computes for one second is the sum the
    specification describes. *)
Lemma accumulate_window (l : list V) (fps : Q) (s : Z) :
  (0 < fps)%Q -> 0 <= s ->
  accumulate add l (window_frames (length l) fps s) zero
  = Ok (window_sum_spec zero add l fps s).
Proof.
  intros Hfps Hs. unfold window_frames.
  rewrite !int_of_float_nonneg by (apply second_times_fps_nonneg; [done | lia]).
  unfold window_sum_spec, py_sum.
  pose proof (floor_second_nonneg fps s Hfps Hs) as Hlo.
  pose proof (floor_second_mono fps s (s + 1) Hfps ltac:(lia)) as Hhi.
  set (lo := Qfloor (inject_Z s * fps)) in *.
  set (hi := Qfloor (inject_Z (s + 1) * fps)) in *.
  rewrite window_filter by (simpl; lia).
  rewrite Nat.sub_0_r.
  destruct (Z_lt_le_dec lo (Z.of_nat (length l))) as [Hin | Hout].
  - replace lo with (Z.of_nat (Z.to_nat lo)) at 1 by lia.
    set (n := (Z.to_nat (Z.min hi (Z.of_nat (length l))) - Z.to_nat lo)%nat).
    replace (Z.min hi (Z.of_nat (length l)))
      with (Z.of_nat (Z.to_nat lo + n)) by lia.
    rewrite accumulate_slice by lia.
    do 2 f_equal.
    destruct (Z_le_gt_dec hi (Z.of_nat (length l))) as [Hle | Hgt].
    + f_equal. lia.
    + rewrite !take_ge; [done | rewrite length_drop; lia ..].
  - rewrite py_range_nil by lia. cbn [accumulate].
    rewrite drop_ge by lia. now rewrite take_nil.
Qed.

Lemma per_second_spec (l : list V) (fps : Q) (start_second : Z)
    (seconds : list Z) :
  (0 < fps)%Q -> Forall (fun s => 0 <= s) seconds ->
  per_second zero add l fps start_second seconds
  = Ok (map (fun s => (start_second + s, window_sum_spec zero add l fps s))
          seconds).
Proof.
  intros Hfps Hall. induction Hall as [| s seconds Hs _ IH].
  - reflexivity.
  - cbn [per_second]. rewrite accumulate_window by done.
    cbn. rewrite IH. reflexivity.
Qed.

Lemma py_range_nonneg (n : Z) : Forall (fun s => 0 <= s) (py_range 0 n).
Proof.
  apply Forall_forall. intros s Hs.
  apply elem_of_py_range in Hs. lia.
Qed.

Lemma aggregate_by_second_map (l : list V) (fps : Q) (start_second : Z) :
  (0 < fps)%Q ->
  aggregate_by_second zero add l fps start_second
  = Ok (map (fun s => (start_second + s, window_sum_spec zero add l fps s))
          (py_range 0 (Qceiling (inject_Z (Z.of_nat (length l)) / fps)))).
Proof.
  intros Hfps. unfold aggregate_by_second.
  destruct (Qeq_bool fps 0) eqn:Hz.
  - apply Qeq_bool_eq in Hz. rewrite Hz in Hfps. now apply Qlt_irrefl in Hfps.
  - apply per_second_spec; [done | apply py_range_nonneg].
Qed.
End AggregateFacts.

Section AggregateEntries.
Context {V : Type} (zero : V) (add : V -> V -> V).
Import CalMovingAmount.



End AggregateEntries.



(** ** Conservation of the total motion, in exact arithmetic *)

Section Conservation.
Import CalMovingAmount.





Lemma foldl_Qplus_acc (a : Q) (xs : list Q) :
  (foldl Qplus a xs == a + foldl Qplus 0 xs)%Q.
Proof.
  revert a. induction xs as [| x xs IH]; intros a; cbn [foldl].
  - ring.
  - rewrite (IH (a + x)%Q), (IH (0 + x)%Q). ring.
Qed.


End Conservation.








(** ** The start second of an output file name *)

Section StartSecond.
Import PyStr.
Open Scope string_scope.



Lemma append_cons (c : ascii) (s t : string) :
  String c s ++ t = String c (s ++ t).
Proof. reflexivity. Qed.

Lemma append_assoc (s t u : string) : (s ++ t) ++ u = s ++ (t ++ u).
Proof.
  induction s as [| c s IH]; [reflexivity |].
  now rewrite !append_cons, IH.
Qed.





Lemma prefix_append (p t : string) : String.prefix p (p ++ t) = true.
Proof.
  induction p as [| c p IH]; [now destruct t |].
  rewrite append_cons. cbn [String.prefix].
  destruct (ascii_dec c c); [exact IH | done].
Qed.

Lemma prefix_inv (p s : string) :
  String.prefix p s = true -> exists t, s = p ++ t.
Proof.
  revert s. induction p as [| c p IH]; intros s Hp; [now exists s |].
  destruct s as [| c' s]; [discriminate Hp |]. cbn [String.prefix] in Hp.
  destruct (ascii_dec c c') as [<- | _]; [| discriminate Hp].
  destruct (IH s Hp) as [t ->]. now exists t.
Qed.

(** What [\d+] hands to the rest of the pattern: the text splits into a
    non-empty run of digits, added to what was taken, and the rest. *)
Lemma digits_then_sound {R : Type} (k : string -> string -> option R)
    (s taken : string) (m : R) :
  Regex.digits_then k taken s = Some m ->
  exists ds rest,
    s = ds ++ rest /\ ds <> "" /\ all_digits ds = true
    /\ k (taken ++ ds) rest = Some m.
Proof.
  revert taken. induction s as [| c s IH]; intros taken; cbn; [done |].
  destruct (is_digit c) eqn:Hc; [| done].
  destruct (Regex.digits_then k (snoc taken c) s) as [m' |] eqn:Hmore.
  - intros [= ->]. apply IH in Hmore as (ds & rest & -> & _ & Hds & Hk).
    exists (String c ds), rest. split; [done |]. split; [done |]. split.
    + cbn. now rewrite Hc, Hds.
    + unfold snoc in Hk. now rewrite append_assoc in Hk.
  - intros Hk. exists (String c ""), s. split; [done |]. split; [done |].
    split; [| exact Hk]. cbn. now rewrite Hc.
Qed.

(** And [\d+] finds a match whenever some non-empty run of digits lets the
    rest of the pattern match. *)
Lemma digits_then_complete {R : Type} (k : string -> string -> option R)
    (ds rest taken : string) :
  ds <> "" -> all_digits ds = true ->
  is_Some (k (taken ++ ds) rest) ->
  is_Some (Regex.digits_then k taken (ds ++ rest)).
Proof.
  revert taken. induction ds as [| c ds IH]; intros taken Hne Hds Hk; [done |].
  cbn in Hds. apply andb_prop in Hds as [Hc Hds].
  rewrite append_cons. cbn [Regex.digits_then]. rewrite Hc.
  destruct ds as [| c' ds].
  - destruct (Regex.digits_then k (snoc taken c) ("" ++ rest)); [done |].
    exact Hk.
  - destruct (IH (snoc taken c)) as [m Hm]; [done | done | |].
    + unfold snoc. now rewrite append_assoc.
    + now rewrite Hm.
Qed.

Lemma match_here_sound (s g1 g2 : string) :
  Regex.match_here s = Some (g1, g2) ->
  exists post,
    s = g1 ++ "-" ++ g2 ++ "sec.txt" ++ post
    /\ g1 <> "" /\ all_digits g1 = true
    /\ g2 <> "" /\ all_digits g2 = true.
Proof.
  unfold Regex.match_here. intros H.
  apply digits_then_sound in H as (d1 & rest & -> & Hne1 & Hds1 & Hk).
  change ("" ++ d1) with d1 in Hk.
  destruct rest as [| c rest]; [done |].
  destruct (Ascii.eqb_spec c "-") as [-> | Hc].
  - apply digits_then_sound in Hk as (d2 & rest2 & -> & Hne2 & Hds2 & Hk).
    change ("" ++ d2) with d2 in Hk.
    destruct (String.prefix "sec.txt" rest2) eqn:Hp; [| done].
    injection Hk as <- <-. apply prefix_inv in Hp as [post ->].
    now exists post.
  - destruct c as [[] [] [] [] [] [] [] []]; done.
Qed.

Lemma match_here_complete (d1 d2 post : string) :
  d1 <> "" -> all_digits d1 = true -> d2 <> "" -> all_digits d2 = true ->
  is_Some (Regex.match_here (d1 ++ "-" ++ d2 ++ "sec.txt" ++ post)).
Proof.
  intros Hne1 Hds1 Hne2 Hds2. unfold Regex.match_here.
  apply digits_then_complete; [done | done |].
  change ("-" ++ ?t) with (String "-" t).
  apply digits_then_complete; [done | done |].
  now rewrite prefix_append.
Qed.

Lemma search_sound (s g1 g2 : string) :
  Regex.search s = Some (g1, g2) ->
  has_second_range s /\ g1 <> "" /\ all_digits g1 = true.
Proof.
  assert (Hhere : forall pre t,
            Regex.match_here t = Some (g1, g2) ->
            has_second_range (pre ++ t) /\ g1 <> "" /\ all_digits g1 = true).
  { intros pre t (post & -> & Hne1 & Hds1 & Hne2 & Hds2)%match_here_sound.
    split; [| done]. now exists pre, g1, g2, post. }
  assert (Hshift : forall c t, has_second_range t -> has_second_range (String c t)).
  { intros c t (pre & d1 & d2 & post & -> & Hrest).
    now exists (String c pre), d1, d2, post. }
  induction s as [| c s IH]; cbn [Regex.search].
  - destruct (Regex.match_here "") as [m |] eqn:Hm; [| done].
    intros [= ->]. exact (Hhere "" "" Hm).
  - destruct (Regex.match_here (String c s)) as [m |] eqn:Hm.
    + intros [= ->]. exact (Hhere "" (String c s) Hm).
    + intros Hs. destruct (IH Hs) as [Hrange Hg1]. split; [| exact Hg1].
      now apply Hshift.
Qed.

Lemma search_complete (s : string) :
  has_second_range s -> is_Some (Regex.search s).
Proof.
  intros (pre & d1 & d2 & post & -> & Hne1 & Hds1 & Hne2 & Hds2).
  pose proof (match_here_complete d1 d2 post Hne1 Hds1 Hne2 Hds2) as [m Hm].
  induction pre as [| c pre IH].
  - change ("" ++ ?t) with t.
    destruct (d1 ++ "-" ++ d2 ++ "sec.txt" ++ post) as [| c t] eqn:Ht;
      cbn [Regex.search]; now rewrite Hm.
  - rewrite append_cons. cbn [Regex.search].
    match goal with
    | |- is_Some (match ?here with _ => _ end) => destruct here
    end; [eexists; reflexivity | exact IH].
Qed.

(** [re.search] finds the pattern exactly in the names that have it. *)
Lemma search_none_iff (s : string) :
  Regex.search s = None <-> ~ has_second_range s.
Proof.
  split.
  - intros Hnone [m Hm]%search_complete. congruence.
  - intros Hno. destruct (Regex.search s) as [[g1 g2] |] eqn:Hs; [| done].
    now apply search_sound in Hs as [Hrange _].
Qed.
End StartSecond.


(** With a name that has no range, the table of [main] is keyed from 0:
    the seconds [0, 1, ...] of the segment, whatever its place in the
    recording. *)
Lemma start_second_default_keys {V : Type} (zero : V) (add : V -> V -> V)
    (output_file : string) (frame_motions : list V) (fps : Q) :
  ~ has_second_range (PyStr.basename output_file) ->
  (0 < fps)%Q ->
  exists start_second table,
    snd (CalMovingAmount.extract_start_second_from_filename output_file)
    = Ok start_second
    /\ CalMovingAmount.aggregate_by_second zero add frame_motions fps
         start_second = Ok table
    /\ map fst table
       = py_range 0
           (Qceiling (inject_Z (Z.of_nat (length frame_motions)) / fps)).
Proof.
  intros Hno Hfps. apply search_none_iff in Hno.
  exists 0. eexists. split; [| split].
  - unfold CalMovingAmount.extract_start_second_from_filename.
    now rewrite Hno.
  - now apply aggregate_by_second_map.
  - rewrite map_map. cbn [fst]. rewrite <- (map_id (py_range _ _)) at 2.
    apply map_ext. intros s. lia.
Qed.

(** Two runs of C10: a name with a range, and a name without. *)
Example extract_start_second_runs :
  CalMovingAmount.extract_start_second_from_filename "out/15-29sec.txt"
  = ([], Ok 15)
  /\ CalMovingAmount.extract_start_second_from_filename "out/motion.txt"
     = ([WarnNoStartSecond "motion.txt"], Ok 0).
Proof. split; reflexivity. Qed.

(** ** Reading the pose file *)

Section ReadPoseFacts.
Context {float : FloatOfStr}.
Import CalMovingAmount.

(** A record of exactly two fields whose first field is a number: the
    length test lets it through, [values[2]] raises [IndexError], and the
    outer handler exits. *)
Lemma read_pose_lines_two_fields (line a b : string) (x : Q)
    (rest : list string) (line_num : Z) (xz : list (Q * Q))
    (log : list event) :
  PyStr.split_whitespace (PyStr.strip line) = [a; b] ->
  float_of_str a = Some x ->
  read_pose_lines line_num (line :: rest) xz log
  = (log ++ [ErrorReadingFile], Raise (SystemExit 1)).
Proof.
  intros Hsplit Ha. cbn [read_pose_lines].
  destruct (PyStr.strip line) as [| c s] eqn:Hstrip; [discriminate Hsplit |].
  cbn [PyStr.is_empty]. rewrite Hsplit.
  change (Z.of_nat (length [a; b]) <? 2) with false.
  change (field [a; b] 0) with (Ok a).
  change (field [a; b] 2) with (@Raise string IndexError).
  unfold to_float, mbind, result_bind. cbv beta iota.
  rewrite Ha. reflexivity.
Qed.

(** The other records: one field, or a field 0 or 2 that is not a number,
    is a warning and the next line; three fields or more with numbers at 0
    and 2 is a position. *)
Lemma read_pose_lines_one_field (line a : string) (rest : list string)
    (line_num : Z) (xz : list (Q * Q)) (log : list event) :
  PyStr.split_whitespace (PyStr.strip line) = [a] ->
  read_pose_lines line_num (line :: rest) xz log
  = read_pose_lines (line_num + 1) rest xz
      (log ++ [WarnInsufficientColumns line_num]).
Proof.
  intros Hsplit. cbn [read_pose_lines].
  destruct (PyStr.strip line) as [| c s] eqn:Hstrip; [discriminate Hsplit |].
  cbn [PyStr.is_empty]. now rewrite Hsplit.
Qed.

Lemma read_pose_lines_fields (line : string) (values : list string)
    (rest : list string) (line_num : Z) (xz : list (Q * Q))
    (log : list event) :
  PyStr.split_whitespace (PyStr.strip line) = values ->
  (2 <= length values)%nat ->
  read_pose_lines line_num (line :: rest) xz log
  = match (v0 ← field values 0; x ← to_float v0;
           v2 ← field values 2; z ← to_float v2;
           Ok (x, z)) with
    | Ok xz' => read_pose_lines (line_num + 1) rest (xz ++ [xz']) log
    | Raise ValueError =>
        read_pose_lines (line_num + 1) rest xz
          (log ++ [WarnInvalidNumeric line_num])
    | Raise _ => (log ++ [ErrorReadingFile], Raise (SystemExit 1))
    end.
Proof.
  intros Hsplit Hlen. cbn [read_pose_lines].
  destruct (PyStr.strip line) as [| c s] eqn:Hstrip;
    [subst values; cbn in Hlen; lia |].
  cbn [PyStr.is_empty]. rewrite Hsplit.
  destruct (Z.ltb_spec (Z.of_nat (length values)) 2); [lia | reflexivity].
Qed.

Lemma read_pose_lines_position (line v0 v1 v2 : string) (more : list string)
    (x z : Q) (rest : list string) (line_num : Z) (xz : list (Q * Q))
    (log : list event) :
  PyStr.split_whitespace (PyStr.strip line) = v0 :: v1 :: v2 :: more ->
  float_of_str v0 = Some x -> float_of_str v2 = Some z ->
  read_pose_lines line_num (line :: rest) xz log
  = read_pose_lines (line_num + 1) rest (xz ++ [(x, z)]) log.
Proof.
  intros Hsplit H0 H2.
  rewrite (read_pose_lines_fields line _ rest line_num xz log Hsplit)
    by (cbn; lia).
  change (field (v0 :: v1 :: v2 :: more) 0) with (Ok v0).
  change (field (v0 :: v1 :: v2 :: more) 2) with (Ok v2).
  unfold to_float, mbind, result_bind. cbv beta iota.
  now rewrite H0, H2.
Qed.

Lemma read_pose_lines_not_numeric (line v0 v1 v2 : string)
    (more : list string) (rest : list string) (line_num : Z)
    (xz : list (Q * Q)) (log : list event) :
  PyStr.split_whitespace (PyStr.strip line) = v0 :: v1 :: v2 :: more ->
  float_of_str v0 = None \/ float_of_str v2 = None ->
  read_pose_lines line_num (line :: rest) xz log
  = read_pose_lines (line_num + 1) rest xz
      (log ++ [WarnInvalidNumeric line_num]).
Proof.
  intros Hsplit Hbad.
  rewrite (read_pose_lines_fields line _ rest line_num xz log Hsplit)
    by (cbn; lia).
  change (field (v0 :: v1 :: v2 :: more) 0) with (Ok v0).
  change (field (v0 :: v1 :: v2 :: more) 2) with (Ok v2).
  unfold to_float, mbind, result_bind. cbv beta iota.
  destruct (float_of_str v0) as [x |] eqn:H0; [| reflexivity].
  destruct Hbad as [Hbad | Hbad]; [discriminate Hbad |].
  now rewrite Hbad.
Qed.

(** Whatever precedes it, such a record ends the read. *)
Lemma read_pose_lines_abort (line a b : string) (x : Q)
    (pre rest : list string) :
  PyStr.split_whitespace (PyStr.strip line) = [a; b] ->
  float_of_str a = Some x ->
  forall (line_num : Z) (xz : list (Q * Q)) (log : list event),
    aborted (read_pose_lines line_num (pre ++ line :: rest) xz log).
Proof.
  intros Hsplit Ha. induction pre as [| l pre IH]; intros line_num xz log.
  - eexists. now apply (read_pose_lines_two_fields line a b x).
  - cbn [app read_pose_lines].
    destruct (PyStr.is_empty (PyStr.strip l)); [apply IH |].
    destruct (Z.of_nat (length (PyStr.split_whitespace (PyStr.strip l))) <? 2);
      [apply IH |].
    match goal with
    | |- aborted (match ?r with _ => _ end) => destruct r as [xz' | e]
    end; [apply IH |].
    destruct e; first [apply IH | now eexists].
Qed.
End ReadPoseFacts.

(** C4.  A pose record of two fields whose first field is a number is not
    skipped: wherever it stands in the file, [read_pose_data] prints an
    error and exits with status 1, and no position sequence is returned. *)
Theorem read_pose_data_two_field_record_exits {float : FloatOfStr}
    (pre rest : list string) (line a b : string) (x : Q) :
  PyStr.split_whitespace (PyStr.strip line) = [a; b] ->
  float_of_str a = Some x ->
  exists log,
    CalMovingAmount.read_pose_data (Some (pre ++ line :: rest))
    = (log, Raise (SystemExit 1)).
Proof.
  intros Hsplit Ha. unfold CalMovingAmount.read_pose_data.
  exact (read_pose_lines_abort line a b x pre rest Hsplit Ha 1 [] []).
Qed.

Lemma read_pose_data_two_field_record_exits_witness :
  exists log,
    CalMovingAmount.read_pose_data (float := decimal_float)
      (Some (["0.0 0.0 0.0"%string; "x"%string]
             ++ "1.0 2.0"%string :: ["2.0 0.0 2.0"%string]))
    = (log, Raise (SystemExit 1)).
Proof.
  exact (read_pose_data_two_field_record_exits (float := decimal_float)
           ["0.0 0.0 0.0"; "x"]%string ["2.0 0.0 2.0"%string] "1.0 2.0"
           "1.0" "2.0" 1%Q eq_refl eq_refl).
Defined.

(** A run of C4: the first record is read, the one-field
    record is skipped with a warning, the two-field record ends the run. *)
Example read_pose_data_two_field_run :
  CalMovingAmount.read_pose_data (float := decimal_float)
    (Some ["0.0 0.0 0.0"; "x"; "1.0 2.0"; "2.0 0.0 2.0"]%string)
  = ([WarnInsufficientColumns 2; ErrorReadingFile], Raise (SystemExit 1)).
Proof. vm_compute. reflexivity. Qed.

(** ** Loops that write a dictionary *)

Section DictLoops.
Context {A B : Type}.

(** Writing [g s] at every [s] of a list. *)
Lemma foldl_insert_keys (g : Z -> B) (step : gmap Z B -> Z -> gmap Z B)
    (l : list Z) (acc : gmap Z B) (k : Z) :
  (forall out s, step out s = <[s := g s]> out) ->
  foldl step acc l !! k = if decide (k ∈ l) then Some (g k) else acc !! k.
Proof.
  intros Hstep. revert acc. induction l as [| s l IH]; intros acc.
  - now rewrite decide_False by apply not_elem_of_nil.
  - cbn [foldl]. rewrite IH, Hstep.
    destruct (decide (k ∈ l)) as [Hin | Hout].
    + rewrite decide_True by now right. reflexivity.
    + destruct (decide (k = s)) as [-> | Hne].
      * rewrite decide_True by now left. apply lookup_insert_eq.
      * rewrite decide_False by (rewrite elem_of_cons; tauto).
        now apply lookup_insert_ne.
Qed.

(** Writing [g v] at [sec] for every item [(sec, v)] of a dictionary. *)
Lemma foldl_insert_items (g : A -> B)
    (step : gmap Z B -> Z * A -> gmap Z B) (l : list (Z * A))
    (acc : gmap Z B) (k : Z) :
  (forall out sec v, step out (sec, v) = <[sec := g v]> out) ->
  NoDup (map fst l) ->
  foldl step acc l !! k
  = match (list_to_map l : gmap Z A) !! k with
    | Some v => Some (g v)
    | None => acc !! k
    end.
Proof.
  intros Hstep. revert acc.
  induction l as [| [sec v] l IH]; intros acc Hnodup.
  - reflexivity.
  - cbn [map fst] in Hnodup. apply NoDup_cons in Hnodup as [Hfresh Hnodup].
    cbn [foldl list_to_map foldr uncurry]. rewrite IH, Hstep by done.
    destruct (decide (k = sec)) as [-> | Hne].
    + rewrite (not_elem_of_list_to_map_1 l sec) by exact Hfresh.
      now rewrite !lookup_insert_eq.
    + rewrite !lookup_insert_ne by done. reflexivity.
Qed.

Lemma foldl_insert_dict_items (g : A -> B)
    (step : gmap Z B -> Z * A -> gmap Z B) (m : gmap Z A) (k : Z) :
  (forall out sec v, step out (sec, v) = <[sec := g v]> out) ->
  foldl step ∅ (items m) !! k = g <$> m !! k.
Proof.
  intros Hstep. unfold items.
  rewrite (foldl_insert_items g step) by
    (done || apply NoDup_fst_map_to_list).
  rewrite list_to_map_to_list, lookup_empty.
  now destruct (m !! k).
Qed.
End DictLoops.

Lemma foldl_max_bounds (x : Z) (l : list Z) :
  foldl Z.max x l ∈ x :: l /\ forall j, j ∈ x :: l -> j <= foldl Z.max x l.
Proof.
  revert x. induction l as [| y l IH]; intros x; cbn [foldl].
  - split; [now left |]. intros j ->%list_elem_of_singleton. lia.
  - destruct (IH (Z.max x y)) as [Hin Hle]. split.
    + apply elem_of_cons in Hin as [-> | Hin].
      * destruct (Z.max_spec x y) as [[_ ->] | [_ ->]];
          [right; left | left]; reflexivity.
      * now do 2 right.
    + intros j Hj.
      assert (j <= Z.max x y \/ j ∈ l) as [Hj' | Hj'].
      { rewrite !elem_of_cons in Hj. destruct Hj as [-> | [-> | Hj]];
          [left; lia | left; lia | now right]. }
      * etransitivity; [exact Hj' |]. apply Hle. now left.
      * apply Hle. now right.
Qed.

Lemma elem_of_keys {A : Type} (m : gmap Z A) (k : Z) :
  k ∈ keys m <-> is_Some (m !! k).
Proof.
  unfold keys. change (map fst ?l) with (fst <$> l).
  rewrite list_elem_of_fmap. split.
  - intros ([j v] & -> & Hin). apply elem_of_map_to_list in Hin. now exists v.
  - intros [v Hv]. exists (k, v). split; [done |].
    now apply elem_of_map_to_list.
Qed.

(** [max(sec_to_motion.keys())] returns the greatest key of a table that
    has one. *)
Lemma py_max_keys {A : Type} (m : gmap Z A) :
  m <> ∅ -> exists k, py_max (keys m) = Ok k /\ is_max_key m k.
Proof.
  intros Hne. destruct (keys m) as [| x l] eqn:Hkeys.
  - exfalso. apply Hne, map_to_list_empty_iff.
    unfold keys in Hkeys. now apply map_eq_nil in Hkeys.
  - exists (foldl Z.max x l). split; [reflexivity |].
    destruct (foldl_max_bounds x l) as [Hin Hle].
    rewrite <- Hkeys in Hin, Hle. split.
    + now apply elem_of_keys.
    + intros j Hj. now apply Hle, elem_of_keys.
Qed.


(** ** The three-class rule *)

Lemma ge_float_true (mv th : Q) : (th <= mv)%Q -> ge_float mv th = true.
Proof. intros H. now apply Qle_bool_iff. Qed.

Lemma ge_float_false (mv th : Q) : (mv < th)%Q -> ge_float mv th = false.
Proof.
  intros H. unfold ge_float. destruct (Qle_bool th mv) eqn:Hle; [| done].
  apply Qle_bool_iff in Hle. lra.
Qed.

Lemma three_class_rule {L : Type} (walking hold staying : L) (mv th1 th2 : Q) :
  (th2 < th1)%Q ->
  ((mv == th1 \/ th1 < mv)%Q ->
     three_class walking hold staying mv th1 th2 = walking)
  /\ ((mv == th2 \/ (th2 < mv /\ mv < th1))%Q ->
        three_class walking hold staying mv th1 th2 = hold)
  /\ ((mv < th2)%Q ->
        three_class walking hold staying mv th1 th2 = staying).
Proof.
  intros Hth. unfold three_class. split; [| split].
  - intros H. rewrite ge_float_true; [done |]. destruct H; lra.
  - intros H. rewrite ge_float_false, ge_float_true; [done | |];
      destruct H; lra.
  - intros H. rewrite !ge_float_false; [done | |]; lra.
Qed.

(** The label table of the video classifier: every second from 0 to the
    greatest key, each with the label of its motion value, 0.0 for a second
    the table does not have. *)
Lemma video_classify_motion_lookup (m : gmap Z Q) (th1 th2 : Q) :
  m <> ∅ ->
  exists max_sec sec_to_label,
    is_max_key m max_sec
    /\ CreateVideo.classify_motion m th1 th2 = Ok sec_to_label
    /\ forall s,
         sec_to_label !! s
         = if decide (0 <= s <= max_sec)
           then Some (three_class WALKING HOLD STAYING
                        (default 0%Q (m !! s)) th1 th2)
           else None.
Proof.
  intros Hne. destruct (py_max_keys m Hne) as (max_sec & Hmax & Hkey).
  exists max_sec. eexists. split; [exact Hkey |].
  unfold CreateVideo.classify_motion. rewrite Hmax. split; [reflexivity |].
  intros s.
  rewrite (foldl_insert_keys
             (fun s => three_class WALKING HOLD STAYING
                         (default 0%Q (m !! s)) th1 th2)).
  - rewrite lookup_empty.
    destruct (decide (0 <= s <= max_sec)) as [Hin | Hout].
    + rewrite decide_True; [done |]. apply elem_of_py_range. lia.
    + rewrite decide_False; [done |]. rewrite elem_of_py_range. lia.
  - intros out s'. unfold three_class. cbv beta zeta.
    now destruct (ge_float (default 0%Q (m !! s')) th1),
                 (ge_float (default 0%Q (m !! s')) th2).
Qed.

(** The table of the plot classifier: the seconds of the motion table,
    each with the label of its motion value. *)
Lemma plot_classify_motion_lookup (m : gmap Z Q) (th1 th2 : Q) (s : Z) :
  PlotMoveAmount.classify_motion m th1 th2 !! s
  = (fun mv => three_class "walk"%string "hold"%string "stay"%string
                 mv th1 th2) <$> m !! s.
Proof.
  unfold PlotMoveAmount.classify_motion.
  apply (foldl_insert_dict_items
           (fun mv => three_class "walk"%string "hold"%string "stay"%string
                        mv th1 th2)).
  intros out sec v. unfold three_class.
  now destruct (ge_float v th1), (ge_float v th2).
Qed.

(** C1.  With [TH1 > TH2], both three-class classifiers put a boundary
    value in the higher class.  The plot classifier labels each second of
    the table by its motion value; the video classifier labels each second
    from 0 to the greatest key by its motion value, read as 0.0 when the
    second is missing.  In both, a value equal to or above [TH1] is
    WALKING, a value equal to [TH2] or strictly between the thresholds is
    HOLD, and a value strictly below [TH2] is STAYING.  (That [TH2] is not
    negative plays no part.) *)
Theorem three_class_boundaries (sec_to_motion : gmap Z Q) (th1 th2 : Q) :
  (th2 < th1)%Q ->
  (forall s mv,
     sec_to_motion !! s = Some mv ->
     let label := PlotMoveAmount.classify_motion sec_to_motion th1 th2 !! s in
     ((mv == th1 \/ th1 < mv)%Q -> label = Some "walk"%string)
     /\ ((mv == th2 \/ (th2 < mv /\ mv < th1))%Q -> label = Some "hold"%string)
     /\ ((mv < th2)%Q -> label = Some "stay"%string))
  /\ (sec_to_motion <> ∅ ->
      exists max_sec sec_to_label,
        is_max_key sec_to_motion max_sec
        /\ CreateVideo.classify_motion sec_to_motion th1 th2 = Ok sec_to_label
        /\ forall s, 0 <= s <= max_sec ->
             let mv := default 0%Q (sec_to_motion !! s) in
             let label := sec_to_label !! s in
             ((mv == th1 \/ th1 < mv)%Q -> label = Some WALKING)
             /\ ((mv == th2 \/ (th2 < mv /\ mv < th1))%Q -> label = Some HOLD)
             /\ ((mv < th2)%Q -> label = Some STAYING)).
Proof.
  intros Hth. split.
  - intros s mv Hs label. subst label.
    rewrite plot_classify_motion_lookup, Hs. cbn [fmap option_fmap option_map].
    destruct (three_class_rule "walk"%string "hold"%string "stay"%string
                mv th1 th2 Hth) as (Hw & Hh & Hs').
    repeat split; intros H; f_equal; auto.
  - intros Hne.
    destruct (video_classify_motion_lookup sec_to_motion th1 th2 Hne)
      as (max_sec & sec_to_label & Hmax & Hrun & Hlookup).
    exists max_sec, sec_to_label. split; [done |]. split; [done |].
    intros s Hs mv label. subst label.
    rewrite Hlookup, decide_True by done. fold mv.
    destruct (three_class_rule WALKING HOLD STAYING mv th1 th2 Hth)
      as (Hw & Hh & Hs').
    repeat split; intros H; f_equal; auto.
Qed.

Lemma three_class_boundaries_witness :
  let sec_to_motion : gmap Z Q :=
    <[0 := (1 # 2)%Q]> (<[1 := 1%Q]> (<[3 := 2%Q]> ∅)) in
  PlotMoveAmount.classify_motion sec_to_motion 2 1 !! 3 = Some "walk"%string
  /\ PlotMoveAmount.classify_motion sec_to_motion 2 1 !! 1 = Some "hold"%string.
Proof.
  intros sec_to_motion.
  destruct (three_class_boundaries sec_to_motion 2 1 eq_refl) as [Hplot _].
  split.
  - apply (Hplot 3 2%Q eq_refl). left. reflexivity.
  - apply (Hplot 1 1%Q eq_refl). left. reflexivity.
Defined.

(** C3, as stated, fails twice on the table [{0: 1.0, 2: 1.0}], whose
    second 1 is missing.  The plot classifier leaves second 1 without a
    label; and with [TH1 = 1 > TH2 = 0] the video classifier labels it
    HOLD, not STAYING, since [0.0 >= TH2]. *)
Lemma classify_missing_second_counterexample :
  let sec_to_motion : gmap Z Q := <[0 := 1%Q]> (<[2 := 1%Q]> ∅) in
  is_Some (sec_to_motion !! 2)
  /\ sec_to_motion !! 1 = None
  /\ PlotMoveAmount.classify_motion sec_to_motion 2 1 !! 1 = None
  /\ exists sec_to_label,
       CreateVideo.classify_motion sec_to_motion 1 0 = Ok sec_to_label
       /\ sec_to_label !! 1 = Some HOLD
       /\ sec_to_label !! 1 <> Some STAYING.
Proof.
  intros sec_to_motion. split; [now exists 1%Q |]. split; [reflexivity |].
  split; [vm_compute; reflexivity |].
  eexists. split; [reflexivity |].
  split; [vm_compute; reflexivity | vm_compute; discriminate].
Qed.

(** C3, amended.  For a non-empty motion table the video classifier
    labels every second from 0 to the greatest key; a second the table does
    not have is labelled as motion 0.0, which is STAYING when both
    thresholds are positive (and HOLD when [TH2 <= 0 < TH1]).  The plot
    classifier labels the seconds of the table and no other. *)
Theorem classify_motion_coverage (sec_to_motion : gmap Z Q) (th1 th2 : Q) :
  sec_to_motion <> ∅ ->
  (exists max_sec sec_to_label,
     is_max_key sec_to_motion max_sec
     /\ CreateVideo.classify_motion sec_to_motion th1 th2 = Ok sec_to_label
     /\ (forall s, 0 <= s <= max_sec <-> is_Some (sec_to_label !! s))
     /\ (forall s, 0 <= s <= max_sec -> sec_to_motion !! s = None ->
           sec_to_label !! s
           = Some (three_class WALKING HOLD STAYING 0%Q th1 th2)
           /\ ((0 < th1)%Q -> (0 < th2)%Q -> sec_to_label !! s = Some STAYING)
           /\ ((0 < th1)%Q -> (th2 <= 0)%Q -> sec_to_label !! s = Some HOLD)))
  /\ (forall s,
        is_Some (PlotMoveAmount.classify_motion sec_to_motion th1 th2 !! s)
        <-> is_Some (sec_to_motion !! s)).
Proof.
  intros Hne. split.
  - destruct (video_classify_motion_lookup sec_to_motion th1 th2 Hne)
      as (max_sec & sec_to_label & Hmax & Hrun & Hlookup).
    exists max_sec, sec_to_label. split; [done |]. split; [done |]. split.
    + intros s. rewrite Hlookup.
      destruct (decide (0 <= s <= max_sec)) as [Hin | Hout].
      * split; [now eexists | done].
      * split; [done | now intros [? ?]].
    + intros s Hs Hmissing. rewrite Hlookup, decide_True, Hmissing by done.
      cbn [default]. split; [reflexivity |]. unfold three_class. split.
      * intros H1 H2. now rewrite !ge_float_false.
      * intros H1 H2. now rewrite ge_float_false, ge_float_true.
  - intros s. rewrite plot_classify_motion_lookup.
    destruct (sec_to_motion !! s); cbn; split; intros [? ?]; done || now eexists.
Qed.

Lemma classify_motion_coverage_witness :
  let sec_to_motion : gmap Z Q := <[0 := 1%Q]> (<[2 := 1%Q]> ∅) in
  is_Some (PlotMoveAmount.classify_motion sec_to_motion 2 1 !! 1)
  <-> is_Some (sec_to_motion !! 1).
Proof.
  intros sec_to_motion.
  refine (proj2 (classify_motion_coverage sec_to_motion 2 1 _) 1).
  intros Hempty.
  assert (sec_to_motion !! 0 = (∅ : gmap Z Q) !! 0) as Hlookup
    by now rewrite Hempty.
  discriminate Hlookup.
Defined.

(** ** Sorting file names *)

Lemma name_le_cases (a b : string) :
  name_le a b <-> a = b \/ OrderedTypeEx.String_as_OT.lt a b.
Proof.
  unfold name_le, String.leb.
  destruct (String.compare a b) eqn:Hcmp.
  - apply OrderedTypeEx.String_as_OT.cmp_eq in Hcmp. tauto.
  - apply OrderedTypeEx.String_as_OT.cmp_lt in Hcmp. tauto.
  - split; [discriminate |]. intros [-> | Hlt].
    + assert (String.compare b b = Eq) as Heq
        by now apply OrderedTypeEx.String_as_OT.cmp_eq.
      congruence.
    + apply OrderedTypeEx.String_as_OT.cmp_lt in Hlt.
      unfold OrderedTypeEx.String_as_OT.cmp in Hlt. congruence.
Qed.

#[global] Instance name_le_trans : Transitive name_le.
Proof.
  intros a b c Hab Hbc. apply name_le_cases in Hab, Hbc. apply name_le_cases.
  destruct Hab as [-> | Hab]; [done |].
  destruct Hbc as [<- | Hbc]; [now right |].
  right. eapply OrderedTypeEx.String_as_OT.lt_trans; eassumption.
Qed.

#[global] Instance name_le_antisym : AntiSymm (=) name_le.
Proof. intros a b Hab Hba. now apply String.leb_antisym. Qed.

Lemma insert_sorted_perm (x : string) (l : list string) :
  PyStr.insert_sorted x l ≡ₚ x :: l.
Proof.
  induction l as [| y l IH]; cbn [PyStr.insert_sorted]; [done |].
  destruct (String.leb x y); [done |].
  rewrite IH. apply perm_swap.
Qed.

Lemma sorted_perm (l : list string) : PyStr.sorted l ≡ₚ l.
Proof.
  induction l as [| x l IH]; cbn [PyStr.sorted]; [done |].
  now rewrite insert_sorted_perm, IH.
Qed.

Lemma insert_sorted_strongly (x : string) (l : list string) :
  StronglySorted name_le l -> StronglySorted name_le (PyStr.insert_sorted x l).
Proof.
  induction l as [| y l IH]; cbn [PyStr.insert_sorted]; intros Hl.
  - repeat constructor.
  - apply StronglySorted_cons in Hl as [Hy Hl].
    destruct (String.leb x y) eqn:Hxy.
    + apply StronglySorted_cons. split; [| now apply StronglySorted_cons].
      constructor; [exact Hxy |].
      eapply Forall_impl; [exact Hy |]. intros z Hz. now transitivity y.
    + apply StronglySorted_cons. split; [| now apply IH].
      rewrite insert_sorted_perm. constructor; [| exact Hy].
      destruct (String.leb_total x y) as [H | H]; [congruence | exact H].
Qed.

Lemma sorted_strongly (l : list string) :
  StronglySorted name_le (PyStr.sorted l).
Proof.
  induction l as [| x l IH]; cbn [PyStr.sorted]; [constructor |].
  now apply insert_sorted_strongly.
Qed.

(** Two listings of the same names sort to the same list. *)
Lemma sorted_listing_order (l l' : list string) :
  l ≡ₚ l' -> PyStr.sorted l = PyStr.sorted l'.
Proof.
  intros Hperm. apply (StronglySorted_unique name_le);
    [apply sorted_strongly .. |].
  now rewrite !sorted_perm.
Qed.

(** ** Stitching the segment files *)

Section Stitch.
Context {float : FloatOfStr}.

(** Reading rows into a dictionary overrides it with the rows' table. *)
Lemma read_rows_union (rows : csv) (acc : gmap Z Q) :
  Evaluate.read_rows rows acc = Evaluate.read_rows rows ∅ ∪ acc.
Proof.
  revert acc. induction rows as [| row rows IH]; intros acc;
    cbn [Evaluate.read_rows].
  - now rewrite (left_id_L ∅ (∪)).
  - destruct (_ || _); [apply IH |].
    destruct (Evaluate.parse_row row) as [[sec motion_amount] | e];
      [| apply IH].
    rewrite IH, (IH (<[sec := motion_amount]> ∅)).
    rewrite insert_empty, insert_union_singleton_l.
    now rewrite (assoc_L (∪)).
Qed.

Lemma open_csv_listed (d : directory) (f : string) (rows : csv) :
  NoDup (listdir d) -> (f, rows) ∈ d -> open_csv d f = Ok rows.
Proof.
  induction d as [| [n r] d IH]; intros Hnodup Hin.
  - now apply elem_of_nil in Hin.
  - cbn [listdir map fst] in Hnodup.
    apply NoDup_cons in Hnodup as [Hfresh Hnodup].
    cbn [open_csv]. apply elem_of_cons in Hin as [[= -> ->] | Hin].
    + now rewrite String.eqb_refl.
    + destruct (String.eqb_spec n f) as [-> | Hne]; [| now apply IH].
      exfalso. apply Hfresh. unfold listdir.
      change (map fst d) with (fst <$> d).
      apply list_elem_of_fmap. now exists (f, rows).
Qed.

Lemma listed_file (d : directory) (f : string) :
  f ∈ listdir d -> exists rows, (f, rows) ∈ d.
Proof.
  unfold listdir. change (map fst d) with (fst <$> d).
  intros ([n rows] & -> & Hin)%list_elem_of_fmap. now exists rows.
Qed.

Lemma segments_names (d : directory) :
  map fst (segments d) = List.filter Evaluate.is_segment_file (listdir d).
Proof.
  unfold segments, listdir. induction d as [| [n r] d IH]; [done |].
  cbn [List.filter map fst].
  destruct (Evaluate.is_segment_file n); cbn [map fst]; now rewrite IH.
Qed.

Lemma elem_of_segments (d : directory) (f : string) (rows : csv) :
  (f, rows) ∈ segments d
  <-> (f, rows) ∈ d /\ Evaluate.is_segment_file f = true.
Proof.
  unfold segments. rewrite !list_elem_of_In, filter_In. reflexivity.
Qed.

(** When every name parses and every file has a header, the loop over
    the files returns, each file overriding what was read before it. *)
Lemma read_segments_ok (d : directory) (files : list string) :
  (forall f, f ∈ files ->
     (exists r, Evaluate.parse_time_range f = Ok r)
     /\ exists header body, open_csv d f = Ok (header :: body)) ->
  forall acc,
    Evaluate.read_segments d files acc
    = Ok (foldl (fun acc f => table_of d f ∪ acc) acc files).
Proof.
  induction files as [| f files IH]; intros Hok acc; [reflexivity |].
  destruct (Hok f ltac:(now left)) as [[r Hr] (header & body & Hopen)].
  cbn [Evaluate.read_segments foldl]. rewrite Hr.
  unfold mbind, result_bind. cbv beta iota. rewrite Hopen.
  rewrite IH by (intros f' Hf'; apply Hok; now right).
  replace (table_of d f) with (segment_table (header :: body))
    by (unfold table_of; now rewrite Hopen).
  unfold segment_table. cbn [tail].
  now rewrite <- read_rows_union.
Qed.

Lemma foldl_union_untouched (tbl : string -> gmap Z Q) (files : list string)
    (acc : gmap Z Q) (k : Z) :
  (forall h, h ∈ files -> tbl h !! k = None) ->
  foldl (fun acc f => tbl f ∪ acc) acc files !! k = acc !! k.
Proof.
  revert acc. induction files as [| f files IH]; intros acc Hnone;
    [reflexivity |].
  cbn [foldl]. rewrite IH by (intros h Hh; apply Hnone; now right).
  apply lookup_union_r, Hnone. now left.
Qed.

(** The value at a key is that of the last file that has the key. *)
Lemma foldl_union_last (tbl : string -> gmap Z Q) (l1 l2 : list string)
    (g : string) (acc : gmap Z Q) (k : Z) (v : Q) :
  tbl g !! k = Some v ->
  (forall h, h ∈ l2 -> tbl h !! k = None) ->
  foldl (fun acc f => tbl f ∪ acc) acc (l1 ++ g :: l2) !! k = Some v.
Proof.
  intros Hg Hlater. rewrite foldl_app. cbn [foldl].
  rewrite foldl_union_untouched by done.
  now apply lookup_union_Some_l.
Qed.

Lemma foldl_union_list (tbl : string -> gmap Z Q) (files : list string) :
  foldl (fun acc f => tbl f ∪ acc) ∅ files = ⋃ (tbl <$> reverse files).
Proof.
  induction files as [| f files IH] using rev_ind; [reflexivity |].
  rewrite foldl_app, reverse_app. cbn. now rewrite IH.
Qed.
End Stitch.

Lemma NoDup_bool_filter {A : Type} (f : A -> bool) (l : list A) :
  NoDup l -> NoDup (List.filter f l).
Proof.
  induction 1 as [| x l Hfresh Hl IH]; cbn [List.filter]; [constructor |].
  destruct (f x); [| exact IH].
  constructor; [| exact IH].
  rewrite list_elem_of_In, filter_In, <- list_elem_of_In. tauto.
Qed.

Section StitchOrder.
Context {float : FloatOfStr}.

Lemma segment_names_sorted (d : directory) (f : string) :
  f ∈ PyStr.sorted (List.filter Evaluate.is_segment_file (listdir d))
  <-> exists rows, (f, rows) ∈ segments d.
Proof.
  rewrite sorted_perm, <- segments_names.
  change (map fst ?l) with (fst <$> l). rewrite list_elem_of_fmap. split.
  - intros ([n rows] & -> & Hin). now exists rows.
  - intros [rows Hin]. now exists (f, rows).
Qed.

Lemma open_csv_segment (d : directory) (f : string) (rows : csv) :
  NoDup (listdir d) -> (f, rows) ∈ segments d -> open_csv d f = Ok rows.
Proof.
  intros Hnodup [Hin _]%elem_of_segments. now apply open_csv_listed.
Qed.

Lemma table_of_segment (d : directory) (f : string) (rows : csv) :
  NoDup (listdir d) -> (f, rows) ∈ segments d ->
  table_of d f = segment_table rows.
Proof.
  intros Hnodup Hin. unfold table_of.
  now rewrite (open_csv_segment d f rows).
Qed.

Lemma segment_tables_of (d : directory) :
  NoDup (listdir d) ->
  map (fun p => segment_table (snd p)) (segments d)
  = table_of d <$> map fst (segments d).
Proof.
  intros Hnodup.
  change (table_of d <$> map fst (segments d))
    with (map (table_of d) (map fst (segments d))).
  rewrite map_map. apply map_ext_in. intros [f rows] Hin. cbn [fst snd].
  symmetry. apply table_of_segment; [done |]. now apply list_elem_of_In.
Qed.

(** When every segment file has a name that parses and a header line, the
    sorted reader returns the fold of the files' tables in sorted order. *)
Lemma read_motion_data_fold (d : directory) :
  NoDup (listdir d) ->
  (forall f rows, (f, rows) ∈ segments d ->
     (exists r, Evaluate.parse_time_range f = Ok r) /\ rows <> []) ->
  Evaluate.read_motion_data d
  = Ok (foldl (fun acc f => table_of d f ∪ acc) ∅
          (PyStr.sorted
             (List.filter Evaluate.is_segment_file (listdir d)))).
Proof.
  intros Hnodup Hok. unfold Evaluate.read_motion_data.
  apply read_segments_ok. intros f [rows Hin]%segment_names_sorted.
  destruct (Hok f rows Hin) as [Hparse Hrows]. split; [exact Hparse |].
  rewrite (open_csv_segment d f rows) by done.
  destruct rows as [| header body]; [done |]. now exists header, body.
Qed.
End StitchOrder.

(** C8.  In [evaluate.py] and [create_walking_classification_video.py],
    when every segment file has a name that parses and a header line,
    [read_motion_data] returns a table in which each second has the value of
    the file that is last in lexicographic order of names among the files
    with a row for that second; and when no two files share a second the
    table is the union of the files' tables. *)
Theorem read_motion_data_later_file_wins {float : FloatOfStr} (d : directory) :
  NoDup (listdir d) ->
  (forall f rows, (f, rows) ∈ segments d ->
     (exists r, Evaluate.parse_time_range f = Ok r) /\ rows <> []) ->
  exists table : gmap Z Q,
    Evaluate.read_motion_data d = Ok table
    /\ CreateVideo.read_motion_data d = Ok table
    /\ (forall g rows k v,
          (g, rows) ∈ segments d ->
          segment_table rows !! k = Some v ->
          (forall h rows', (h, rows') ∈ segments d ->
             is_Some (segment_table rows' !! k) -> name_le h g) ->
          table !! k = Some v)
    /\ (map_disjoint_list (map (fun p => segment_table (snd p)) (segments d)) ->
        table = ⋃ (map (fun p => segment_table (snd p)) (segments d))).
Proof.
  intros Hnodup Hok.
  pose proof (read_motion_data_fold d Hnodup Hok) as Hrun.
  set (names := List.filter Evaluate.is_segment_file (listdir d)) in *.
  eexists. split; [exact Hrun |]. split; [exact Hrun |]. split.
  - intros g rows k v Hg Hv Hlast.
    assert (g ∈ PyStr.sorted names) as Hin
      by (apply segment_names_sorted; now exists rows).
    apply list_elem_of_split in Hin as (l1 & l2 & Hsplit).
    rewrite Hsplit. apply foldl_union_last.
    { now rewrite (table_of_segment d g rows). }
    intros h Hh.
    assert (h ∈ PyStr.sorted names) as [rows' Hh']%segment_names_sorted
      by (rewrite Hsplit, elem_of_app, elem_of_cons; tauto).
    rewrite (table_of_segment d h rows') by done.
    destruct (segment_table rows' !! k) as [v' |] eqn:Hk; [| done].
    exfalso.
    assert (name_le h g) as Hhg by (apply (Hlast h rows'); [done | now exists v']).
    assert (name_le g h) as Hgh.
    { pose proof (sorted_strongly names) as Hsorted. rewrite Hsplit in Hsorted.
      apply StronglySorted_app_1_r, StronglySorted_cons in Hsorted as [Hall _].
      rewrite Forall_forall in Hall. now apply Hall. }
    assert (h = g) as -> by now apply (anti_symm name_le).
    assert (NoDup (PyStr.sorted names)) as Hnd.
    { rewrite sorted_perm. unfold names. now apply NoDup_bool_filter. }
    rewrite Hsplit in Hnd.
    apply NoDup_app in Hnd as (_ & _ & Hnd). now apply NoDup_cons in Hnd as [? _].
  - intros Hdisjoint. rewrite foldl_union_list. symmetry.
    apply map_union_list_Permutation; [| exact Hdisjoint].
    rewrite segment_tables_of, segments_names by done.
    fold names. apply fmap_Permutation.
    now rewrite reverse_Permutation, sorted_perm.
Qed.

Lemma read_motion_data_later_file_wins_witness :
  exists table : gmap Z Q,
    Evaluate.read_motion_data (float := decimal_float) overlapping_directory
    = Ok table
    /\ table !! 10 = Some (3 # 2)%Q.
Proof.
  destruct (read_motion_data_later_file_wins (float := decimal_float)
              overlapping_directory)
    as (table & Hrun & _ & Hwins & _).
  - apply NoDup_cons. split; [| apply NoDup_singleton].
    intros Hin%list_elem_of_singleton. discriminate Hin.
  - intros f rows Hin. vm_compute in Hin.
    apply elem_of_cons in Hin as [[= -> ->] | Hin];
      [| apply list_elem_of_singleton in Hin as [= -> ->]];
      (split; [eexists; vm_compute; reflexivity | discriminate]).
  - exists table. split; [exact Hrun |].
    apply (Hwins "10-20sec.txt"%string
             [ ["second"; "motion_amount"]; ["10"; "1.500000"];
               ["11"; "0.250000"] ]%string).
    + vm_compute. left.
    + vm_compute. reflexivity.
    + intros h rows' Hin _. vm_compute in Hin.
      apply elem_of_cons in Hin as [[= -> ->] | Hin];
        [| apply list_elem_of_singleton in Hin as [= -> ->]];
        vm_compute; reflexivity.
Defined.

(** ** Names that do not give a second range *)

Section BadName.
Context {float : FloatOfStr}.

(** The loop of the sorted reader stops with an exception as soon as a
    name does not parse (if not earlier). *)
Lemma read_segments_bad_name (d : directory) (name : string)
    (files : list string) (acc : gmap Z Q) :
  name ∈ files ->
  Evaluate.parse_time_range name = Raise ValueError ->
  exists e, Evaluate.read_segments d files acc = Raise e.
Proof.
  intros Hin Hbad. revert acc.
  induction files as [| f files IH]; intros acc.
  - now apply elem_of_nil in Hin.
  - cbn [Evaluate.read_segments].
    destruct (Evaluate.parse_time_range f) as [r | e] eqn:Hf;
      [| now exists e].
    unfold mbind, result_bind. cbv beta iota.
    destruct (open_csv d f) as [[| header body] | e];
      [now eexists | | now exists e].
    apply elem_of_cons in Hin as [-> | Hin]; [congruence |].
    now apply IH.
Qed.
End BadName.

(** A name that ends in [sec.txt] passes the filter of the sorted readers. *)
Section EndsWith.
Import PyStr.
Open Scope string_scope.

Lemma substring_whole (s : string) : substring 0 (String.length s) s = s.
Proof.
  induction s as [| c s IH]; [reflexivity |].
  cbn [String.length substring]. now rewrite IH.
Qed.

Lemma substring_append (pre s : string) (m : nat) :
  substring (String.length pre) m (pre ++ s) = substring 0 m s.
Proof. induction pre as [| c pre IH]; [reflexivity | exact IH]. Qed.

Lemma substring_split (s : string) (n : nat) :
  (n <= String.length s)%nat ->
  s = substring 0 n s ++ substring n (String.length s - n) s.
Proof.
  revert s. induction n as [| n IH]; intros s Hn.
  - rewrite Nat.sub_0_r, substring_whole. now destruct s.
  - destruct s as [| c s]; [cbn in Hn; lia |].
    cbn [String.length substring Nat.sub]. rewrite append_cons.
    f_equal. apply IH. cbn in Hn. lia.
Qed.

Lemma length_append (s t : string) :
  String.length (s ++ t) = (String.length s + String.length t)%nat.
Proof.
  induction s as [| c s IH]; [reflexivity |].
  rewrite append_cons. cbn [String.length Nat.add]. now rewrite IH.
Qed.

Lemma endswith_inv (s suffix : string) :
  endswith s suffix = true -> exists pre, s = pre ++ suffix.
Proof.
  unfold endswith. intros [Hlen Heq]%andb_prop.
  apply Nat.leb_le in Hlen. apply String.eqb_eq in Heq.
  exists (substring 0 (String.length s - String.length suffix) s).
  pose proof (substring_split s (String.length s - String.length suffix)
                ltac:(lia)) as Hs.
  replace (String.length s - (String.length s - String.length suffix))%nat
    with (String.length suffix) in Hs by lia.
  now rewrite Heq in Hs.
Qed.

Lemma endswith_append (pre suffix : string) :
  endswith (pre ++ suffix) suffix = true.
Proof.
  unfold endswith. rewrite length_append. apply andb_true_intro. split.
  - apply Nat.leb_le. lia.
  - replace (String.length pre + String.length suffix
             - String.length suffix)%nat
      with (String.length pre) by lia.
    rewrite substring_append, substring_whole. apply String.eqb_refl.
Qed.

Lemma contains_append (pre sub post : string) :
  contains sub (pre ++ sub ++ post) = true.
Proof.
  induction pre as [| c pre IH].
  - change ("" ++ ?t) with t.
    destruct (sub ++ post) as [| c t] eqn:Ht; cbn [contains];
      rewrite <- Ht, prefix_append; reflexivity.
  - rewrite append_cons. cbn [contains]. rewrite IH. apply orb_true_r.
Qed.

Lemma endswith_sec_txt_is_segment_file (name : string) :
  endswith name "sec.txt" = true -> Evaluate.is_segment_file name = true.
Proof.
  intros [pre ->]%endswith_inv. unfold Evaluate.is_segment_file.
  apply andb_true_intro. split.
  - change "sec.txt" with ("sec" ++ ".txt").
    rewrite <- append_assoc. apply endswith_append.
  - exact (contains_append pre "sec.txt" "").
Qed.
End EndsWith.

(** C5.  In [evaluate.py] and [create_walking_classification_video.py] a
    listed file whose name ends in [sec.txt] but is not two integers
    around a dash makes [read_motion_data] raise: nothing is returned,
    whatever the other files are. *)
Theorem read_motion_data_unmatched_name_raises {float : FloatOfStr}
    (d : directory) (name : string) :
  name ∈ listdir d ->
  PyStr.endswith name "sec.txt" = true ->
  Evaluate.parse_time_range name = Raise ValueError ->
  (exists e, Evaluate.read_motion_data d = Raise e)
  /\ (exists e, CreateVideo.read_motion_data d = Raise e).
Proof.
  intros Hin Hseg%endswith_sec_txt_is_segment_file Hbad.
  assert (exists e, Evaluate.read_motion_data d = Raise e) as Hraise.
  { unfold Evaluate.read_motion_data.
    apply (read_segments_bad_name d name); [| exact Hbad].
    rewrite sorted_perm, list_elem_of_In, filter_In, <- list_elem_of_In.
    now split. }
  split; exact Hraise.
Qed.

Lemma read_motion_data_unmatched_name_raises_witness :
  (exists e,
     Evaluate.read_motion_data (float := decimal_float) notes_directory
     = Raise e)
  /\ (exists e,
        CreateVideo.read_motion_data (float := decimal_float) notes_directory
        = Raise e).
Proof.
  apply (read_motion_data_unmatched_name_raises (float := decimal_float)
           notes_directory "notes_sec.txt").
  - vm_compute. left.
  - reflexivity.
  - reflexivity.
Defined.

(** A run of C5: the two sorted readers raise
    [ValueError] at the name; the plot reader loads the row. *)
Example notes_directory_run :
  PyStr.endswith "notes_sec.txt" "sec.txt" = true
  /\ Evaluate.read_motion_data (float := decimal_float) notes_directory
     = Raise ValueError
  /\ CreateVideo.read_motion_data (float := decimal_float) notes_directory
     = Raise ValueError
  /\ PlotMoveAmount.read_motion_data (float := decimal_float) notes_directory
     !! 3 = Some (3 # 2)%Q.
Proof. repeat split; vm_compute; reflexivity. Qed.

(** ** The order of the directory listing *)

Lemma bool_filter_Permutation {A : Type} (f : A -> bool) (l l' : list A) :
  l ≡ₚ l' -> List.filter f l ≡ₚ List.filter f l'.
Proof.
  induction 1 as [| x l l' _ IH | x y l | l l' l'' _ IH1 _ IH2];
    cbn [List.filter].
  - done.
  - destruct (f x); [now constructor | done].
  - destruct (f x), (f y); try done. apply perm_swap.
  - now transitivity (List.filter f l').
Qed.

Section ListingOrder.
Context {float : FloatOfStr}.

Lemma open_csv_unlisted (d : directory) (f : string) :
  f ∉ listdir d -> open_csv d f = Raise FileNotFoundError.
Proof.
  induction d as [| [n rows] d IH]; intros Hout; [reflexivity |].
  cbn [open_csv]. cbn [listdir map fst] in Hout.
  apply not_elem_of_cons in Hout as [Hne Hout].
  destruct (String.eqb_spec n f) as [-> | _]; [done | now apply IH].
Qed.

Lemma open_csv_listing_order (d d' : directory) (f : string) :
  d ≡ₚ d' -> NoDup (listdir d) -> open_csv d f = open_csv d' f.
Proof.
  intros Hperm Hnodup.
  assert (listdir d ≡ₚ listdir d') as Hnames
    by (unfold listdir; now apply Permutation_map).
  assert (NoDup (listdir d')) as Hnodup' by now rewrite <- Hnames.
  destruct (decide (f ∈ listdir d)) as [Hin | Hout].
  - destruct (listed_file d f Hin) as [rows Hrows].
    rewrite (open_csv_listed d f rows), (open_csv_listed d' f rows);
      [done | done | now rewrite <- Hperm | done | done].
  - rewrite !open_csv_unlisted; [done | now rewrite <- Hnames | done].
Qed.

Lemma read_segments_listing_order (d d' : directory) (files : list string)
    (acc : gmap Z Q) :
  (forall f, open_csv d f = open_csv d' f) ->
  Evaluate.read_segments d files acc = Evaluate.read_segments d' files acc.
Proof.
  intros Hopen. revert acc. induction files as [| f files IH]; intros acc;
    [reflexivity |].
  cbn [Evaluate.read_segments]. rewrite Hopen.
  destruct (Evaluate.parse_time_range f); [| reflexivity].
  unfold mbind, result_bind. cbv beta iota.
  destruct (open_csv d' f) as [[| header body] | e]; try reflexivity.
  apply IH.
Qed.

(** The sorted reader returns the same result for every listing order of
    the same directory. *)
Lemma read_motion_data_listing_order (d d' : directory) :
  d ≡ₚ d' -> NoDup (listdir d) ->
  Evaluate.read_motion_data d = Evaluate.read_motion_data d'.
Proof.
  intros Hperm Hnodup. unfold Evaluate.read_motion_data.
  rewrite (sorted_listing_order
             (List.filter Evaluate.is_segment_file (listdir d))
             (List.filter Evaluate.is_segment_file (listdir d'))).
  - apply read_segments_listing_order. intros f.
    now apply open_csv_listing_order.
  - apply bool_filter_Permutation. unfold listdir.
    now apply Permutation_map.
Qed.
End ListingOrder.

(** C9.  [plot_move_amount_per_min.py] reads the files in the order of the
    listing, without sorting: for the two listings of the same two files,
    its table has 3.0 at second 10 when [0-10sec.txt] is listed last and 1.5
    when [10-20sec.txt] is; the reader of [evaluate.py], which sorts, returns
    the same table for both. *)
Theorem plot_read_motion_data_depends_on_listing :
  overlapping_directory ≡ₚ reverse overlapping_directory
  /\ PlotMoveAmount.read_motion_data (float := decimal_float)
       overlapping_directory !! 10 = Some 3%Q
  /\ PlotMoveAmount.read_motion_data (float := decimal_float)
       (reverse overlapping_directory) !! 10 = Some (3 # 2)%Q
  /\ Evaluate.read_motion_data (float := decimal_float) overlapping_directory
     = Evaluate.read_motion_data (float := decimal_float)
         (reverse overlapping_directory).
Proof.
  assert (overlapping_directory ≡ₚ reverse overlapping_directory) as Hperm
    by (symmetry; apply reverse_Permutation).
  split; [exact Hperm |].
  split; [vm_compute; reflexivity |].
  split; [vm_compute; reflexivity |].
  apply read_motion_data_listing_order; [exact Hperm |].
  apply NoDup_cons. split; [| apply NoDup_singleton].
  intros Hin%list_elem_of_singleton. discriminate Hin.
Qed.

(** ** Alignment and the confusion matrix *)

Lemma evaluate_classify_motion_lookup (m : gmap Z Q) (threshold : Q) (s : Z) :
  Evaluate.classify_motion m threshold !! s
  = (fun motion => if ge_float motion threshold then 1 else 0) <$> m !! s.
Proof.
  unfold Evaluate.classify_motion.
  apply (foldl_insert_dict_items
           (fun motion => if ge_float motion threshold then 1 else 0)).
  intros out sec v. now destruct (ge_float v threshold).
Qed.

Lemma evaluate_classify_motion_binary (m : gmap Z Q) (threshold : Q) (s : Z) :
  binary (default 0 (Evaluate.classify_motion m threshold !! s)).
Proof.
  rewrite evaluate_classify_motion_lookup.
  destruct (m !! s) as [v |]; cbn; [| now left].
  destruct (ge_float v threshold); [now right | now left].
Qed.

Lemma py_range_0 (n : nat) : py_range 0 (Z.of_nat n) = map Z.of_nat (seq 0 n).
Proof.
  unfold py_range. replace (Z.to_nat (Z.of_nat n - 0)) with n by lia.
  apply map_ext. intros k. lia.
Qed.

(** The loop of [align_data] copies the annotation and never raises. *)
Lemma align_loop_spec (annotation_data : list Z) (cls : gmap Z Z)
    (n k : nat) (aa ac : list Z) :
  (k + n <= length annotation_data)%nat ->
  Evaluate.align_loop annotation_data cls (map Z.of_nat (seq k n)) aa ac
  = Ok (aa ++ take n (drop k annotation_data),
        ac ++ map (fun i : nat => default 0 (cls !! Z.of_nat i)) (seq k n)).
Proof.
  revert k aa ac. induction n as [| n IH]; intros k aa ac Hlen.
  - cbn. now rewrite !app_nil_r.
  - cbn [seq map Evaluate.align_loop]. rewrite getitem_of_nat.
    destruct (lookup_lt_is_Some_2 annotation_data k) as [a Ha]; [lia |].
    rewrite Ha, (drop_S annotation_data a k Ha). cbn [take].
    destruct (cls !! Z.of_nat k) as [c |]; rewrite IH by lia; cbn [default];
      now rewrite <- !app_assoc.
Qed.

Lemma align_data_spec (annotation_data : list Z) (cls : gmap Z Z) :
  Evaluate.align_data annotation_data cls
  = Ok (annotation_data,
        map (fun i : nat => default 0 (cls !! Z.of_nat i))
          (seq 0 (length annotation_data))).
Proof.
  unfold Evaluate.align_data. rewrite py_range_0, align_loop_spec by lia.
  rewrite drop_0, take_ge by done. reflexivity.
Qed.

(** The four counters grow by one for each pair of two binary labels, and
    by nothing for any other pair. *)
Lemma count_pairs_total (pairs : list (Z * Z)) (tn fp fn tp : Z) :
  let '(tn', fp', fn', tp') := Evaluate.count_pairs pairs tn fp fn tp in
  tn' + fp' + fn' + tp'
  = tn + fp + fn + tp
    + Z.of_nat
        (length (filter (fun p : Z * Z => binary (fst p) /\ binary (snd p))
                   pairs)).
Proof.
  revert tn fp fn tp.
  induction pairs as [| [t p] pairs IH]; intros tn fp fn tp.
  - cbn. lia.
  - cbn [Evaluate.count_pairs]. rewrite filter_cons. cbn [fst snd].
    destruct (Z.eqb_spec t 0) as [Ht0 | Ht0], (Z.eqb_spec p 0) as [Hp0 | Hp0],
      (Z.eqb_spec t 1) as [Ht1 | Ht1], (Z.eqb_spec p 1) as [Hp1 | Hp1];
      try (exfalso; lia); cbn [andb];
      match goal with
      | |- context [Evaluate.count_pairs pairs ?a ?b ?c ?d] =>
          specialize (IH a b c d);
          destruct (Evaluate.count_pairs pairs a b c d) as [[[? ?] ?] ?]
      end;
      case_decide as Hbin; unfold binary in Hbin; cbn [length]; lia.
Qed.

Lemma filter_all {A : Type} (P : A -> Prop) `{forall x, Decision (P x)}
    (l : list A) :
  Forall P l -> filter P l = l.
Proof.
  induction 1 as [| x l Hx _ IH]; [done |].
  now rewrite filter_cons, decide_True, IH.
Qed.

(** C6, as stated, fails on an annotation file that holds a label other
    than 0 and 1: the file [0,2,1] is read as three labels, alignment gives
    three pairs, and the pair of label 2 is counted in no cell. *)
Lemma confusion_matrix_total_counterexample :
  let sec_to_motion : gmap Z Q :=
    <[0 := 2%Q]> (<[1 := 0%Q]> (<[2 := 2%Q]> ∅)) in
  Evaluate.read_annotation_data (Some "0,2,1"%string) = Ok [0; 2; 1]
  /\ Evaluate.align_data [0; 2; 1] (Evaluate.classify_motion sec_to_motion 1)
     = Ok ([0; 2; 1], [1; 0; 1])
  /\ Evaluate.calculate_confusion_matrix [0; 2; 1] [1; 0; 1] = ((0, 1), (0, 1))
  /\ 0 + 1 + 0 + 1 <> Z.of_nat (length (zip [0; 2; 1] [1; 0; 1])).
Proof.
  intros sec_to_motion.
  split; [vm_compute; reflexivity |].
  split; [vm_compute; reflexivity |].
  split; [vm_compute; reflexivity |].
  vm_compute. discriminate.
Qed.

(** C6, amended.  For every ground-truth list whose labels are all 0 or 1,
    alignment against the two-class table of any motion table returns as
    many predictions as there are labels, and the four counts of the
    confusion matrix add up to the number of aligned pairs. *)
Theorem confusion_matrix_total (annotation_data : list Z)
    (sec_to_motion : gmap Z Q) (threshold : Q) :
  Forall binary annotation_data ->
  exists y_true y_pred : list Z,
    Evaluate.align_data annotation_data
      (Evaluate.classify_motion sec_to_motion threshold)
    = Ok (y_true, y_pred)
    /\ length y_true = length annotation_data
    /\ length y_pred = length annotation_data
    /\ let '((tn, fp), (fn, tp)) :=
         Evaluate.calculate_confusion_matrix y_true y_pred in
       tn + fp + fn + tp = Z.of_nat (length (zip y_true y_pred)).
Proof.
  intros Hbinary. eexists _, _. split; [apply align_data_spec |].
  split; [reflexivity |].
  split; [now rewrite length_map, length_seq |].
  unfold Evaluate.calculate_confusion_matrix.
  set (y_pred := map _ (seq 0 (length annotation_data))).
  pose proof (count_pairs_total (zip annotation_data y_pred) 0 0 0 0) as Htotal.
  destruct (Evaluate.count_pairs (zip annotation_data y_pred) 0 0 0 0)
    as [[[tn fp] fn] tp].
  rewrite Htotal, filter_all; [lia |].
  apply Forall_forall. intros [t p] Hin. cbn [fst snd]. split.
  - apply elem_of_zip_l in Hin. rewrite Forall_forall in Hbinary. now apply Hbinary.
  - apply elem_of_zip_r in Hin. unfold y_pred in Hin.
    change (map ?f ?l) with (f <$> l) in Hin.
    apply list_elem_of_fmap in Hin as (i & -> & _).
    apply evaluate_classify_motion_binary.
Qed.

Lemma confusion_matrix_total_witness :
  exists y_true y_pred : list Z,
    Evaluate.align_data [1; 1; 0; 0]
      (Evaluate.classify_motion
         (<[0 := 2%Q]> (<[1 := 0%Q]> (<[2 := 0%Q]> (<[3 := 2%Q]> ∅)))) 1)
    = Ok (y_true, y_pred)
    /\ length y_true = 4%nat
    /\ length y_pred = 4%nat
    /\ let '((tn, fp), (fn, tp)) :=
         Evaluate.calculate_confusion_matrix y_true y_pred in
       tn + fp + fn + tp = Z.of_nat (length (zip y_true y_pred)).
Proof.
  apply (confusion_matrix_total [1; 1; 0; 0]).
  repeat constructor; unfold binary; lia.
Defined.

(** ** The scenarios of the specification *)

(** Frame motions [1.0, 2.0] at one frame per second from second 0. *)
Example scenario_aggregate :
  CalMovingAmount.aggregate_by_second 0%Q Qplus [1%Q; 2%Q] 1 0
  = Ok [(0, 1%Q); (1, 2%Q)].
Proof. reflexivity. Qed.

(** Thresholds 2.0 and 1.0 on the table [{0: 0.5, 1: 1.0, 2: 2.0, 3: 3.0}]. *)
Example scenario_classify :
  exists sec_to_label,
    CreateVideo.classify_motion
      (<[0 := (1 # 2)%Q]> (<[1 := 1%Q]> (<[2 := 2%Q]> (<[3 := 3%Q]> ∅))))
      2 1
    = Ok sec_to_label
    /\ map (fun s => sec_to_label !! s) [0; 1; 2; 3]
       = [Some STAYING; Some HOLD; Some WALKING; Some WALKING].
Proof. eexists. split; [reflexivity | vm_compute; reflexivity]. Qed.

(** Annotation [1, 1, 0, 0] against the motions [{0: 2.0, 1: 0.0, 2: 0.0,
    3: 2.0}] at threshold 1.0. *)
Example scenario_evaluate :
  Evaluate.align_data [1; 1; 0; 0]
    (Evaluate.classify_motion
       (<[0 := 2%Q]> (<[1 := 0%Q]> (<[2 := 0%Q]> (<[3 := 2%Q]> ∅)))) 1)
  = Ok ([1; 1; 0; 0], [1; 0; 0; 1])
  /\ Evaluate.calculate_confusion_matrix [1; 1; 0; 0] [1; 0; 0; 1]
     = ((1, 1), (1, 1)).
Proof. split; vm_compute; reflexivity. Qed.

(** * Further properties of the scripts *)

(** ** evaluate.py: alignment, confusion matrix, metrics *)

(** The number of pairs equal to [c]. *)
Definition count_of (c : Z * Z) (pairs : list (Z * Z)) : Z :=
  Z.of_nat (length (filter (fun p : Z * Z => p = c) pairs)).

Lemma count_of_cons (c p : Z * Z) (pairs : list (Z * Z)) :
  count_of c (p :: pairs)
  = (if decide (p = c) then 1 else 0) + count_of c pairs.
Proof.
  unfold count_of. rewrite filter_cons.
  destruct (decide (p = c)); cbn [length]; lia.
Qed.

Lemma count_of_nonneg (c : Z * Z) (pairs : list (Z * Z)) : 0 <= count_of c pairs.
Proof. unfold count_of. lia. Qed.

Lemma quadruple_eq (a b c d a' b' c' d' : Z) :
  a = a' -> b = b' -> c = c' -> d = d' -> (a, b, c, d) = (a', b', c', d').
Proof. congruence. Qed.

Ltac quadruple := apply quadruple_eq; lia.

Lemma count_pairs_cells (pairs : list (Z * Z)) (tn fp fn tp : Z) :
  Evaluate.count_pairs pairs tn fp fn tp
  = (tn + count_of (0, 0) pairs, fp + count_of (0, 1) pairs,
     fn + count_of (1, 0) pairs, tp + count_of (1, 1) pairs).
Proof.
  revert tn fp fn tp.
  induction pairs as [|[t p] rest IH]; intros tn fp fn tp.
  - unfold count_of. rewrite !filter_nil. cbn. quadruple.
  - cbn [Evaluate.count_pairs]. rewrite !count_of_cons.
    destruct (Z.eqb_spec t 0), (Z.eqb_spec t 1), (Z.eqb_spec p 0),
      (Z.eqb_spec p 1); subst; try (exfalso; lia); cbn [andb]; rewrite IH;
      repeat case_decide; try congruence; quadruple.
Qed.

Lemma confusion_matrix_counts (y_true y_pred : list Z) :
  Evaluate.calculate_confusion_matrix y_true y_pred
  = ((count_of (0, 0) (zip y_true y_pred), count_of (0, 1) (zip y_true y_pred)),
     (count_of (1, 0) (zip y_true y_pred), count_of (1, 1) (zip y_true y_pred))).
Proof.
  unfold Evaluate.calculate_confusion_matrix.
  rewrite count_pairs_cells. cbn. reflexivity.
Qed.

Lemma count_of_zip_swap (a b : Z) (ys zs : list Z) :
  count_of (a, b) (zip ys zs) = count_of (b, a) (zip zs ys).
Proof.
  revert zs.
  induction ys as [|y ys IH]; intros [|z zs]; try reflexivity.
  cbn [zip zip_with]. rewrite !count_of_cons, IH.
  repeat case_decide; try reflexivity; exfalso; congruence.
Qed.

Lemma Forall2_map_same {A B : Type} (R : B -> B -> Prop) (f g : A -> B)
    (l : list A) :
  (forall x, R (f x) (g x)) -> Forall2 R (map f l) (map g l).
Proof. intros H. induction l; cbn; constructor; auto. Qed.

(** Fewer predictions of [1] give fewer pairs with a predicted [1] ... *)
Lemma count_of_pred_one_le (t : Z) (yt yl yh : list Z) :
  Forall2 (fun l h => h = 1 -> l = 1) yl yh ->
  count_of (t, 1) (zip yt yh) <= count_of (t, 1) (zip yt yl).
Proof.
  intros H. revert yt.
  induction H as [|l h yl yh Hlh _ IH]; intros [|y yt]; try reflexivity.
  cbn [zip zip_with]. rewrite !count_of_cons. specialize (IH yt).
  repeat case_decide; try lia.
  exfalso. assert (h = 1) as Hh by congruence.
  specialize (Hlh Hh). congruence.
Qed.

(** ... and more pairs with a predicted [0]. *)
Lemma count_of_pred_zero_le (t : Z) (yt yl yh : list Z) :
  Forall2 (fun l h => l = 0 -> h = 0) yl yh ->
  count_of (t, 0) (zip yt yl) <= count_of (t, 0) (zip yt yh).
Proof.
  intros H. revert yt.
  induction H as [|l h yl yh Hlh _ IH]; intros [|y yt]; try reflexivity.
  cbn [zip zip_with]. rewrite !count_of_cons. specialize (IH yt).
  repeat case_decide; try lia.
  exfalso. assert (l = 0) as Hl by congruence.
  specialize (Hlh Hl). congruence.
Qed.

(** With labels [0] and [1] only among the predictions, a row of the matrix
    counts the true labels of its kind. *)
Lemma count_of_row (t : Z) (yt yp : list Z) :
  Forall binary yp -> length yp = length yt ->
  count_of (t, 0) (zip yt yp) + count_of (t, 1) (zip yt yp)
  = Z.of_nat (length (filter (fun y => y = t) yt)).
Proof.
  intros H. revert yt.
  induction H as [|p yp Hp _ IH]; intros [|y yt] Hlen; try discriminate.
  - reflexivity.
  - cbn [zip zip_with]. rewrite !count_of_cons, filter_cons.
    cbn in Hlen. specialize (IH yt ltac:(lia)).
    destruct Hp as [-> | ->]; repeat case_decide; cbn [length];
      try lia; exfalso; congruence.
Qed.

(** X1.  [calculate_confusion_matrix]: each cell is the number of pairs of
    [zip(y_true, y_pred)] with its two labels, so a pair with another label
    and what one list has beyond the other's length are counted nowhere;
    exchanging the two lists transposes the matrix. *)
Theorem confusion_matrix_cells (y_true y_pred : list Z) :
  let pairs := zip y_true y_pred in
  Evaluate.calculate_confusion_matrix y_true y_pred
  = ((count_of (0, 0) pairs, count_of (0, 1) pairs),
     (count_of (1, 0) pairs, count_of (1, 1) pairs))
  /\ Evaluate.calculate_confusion_matrix y_pred y_true
     = ((count_of (0, 0) pairs, count_of (1, 0) pairs),
        (count_of (0, 1) pairs, count_of (1, 1) pairs)).
Proof.
  intros pairs. split.
  - apply confusion_matrix_counts.
  - rewrite confusion_matrix_counts. subst pairs.
    rewrite (count_of_zip_swap 0 0 y_pred y_true),
      (count_of_zip_swap 0 1 y_pred y_true),
      (count_of_zip_swap 1 0 y_pred y_true),
      (count_of_zip_swap 1 1 y_pred y_true).
    reflexivity.
Qed.

(** X2.  [align_data] never raises: it returns the annotation list as it
    is and, for each of its indices, the classification of that second, [0]
    where the table has none; what the table holds at other seconds is not
    looked at. *)
Theorem align_data_pads_with_zero (annotation_data : list Z)
    (sec_to_classification : gmap Z Z) :
  exists y_pred : list Z,
    Evaluate.align_data annotation_data sec_to_classification
    = Ok (annotation_data, y_pred)
    /\ length y_pred = length annotation_data
    /\ forall i : nat, (i < length annotation_data)%nat ->
         y_pred !! i
         = Some (default 0 (sec_to_classification !! Z.of_nat i)).
Proof.
  eexists. split; [apply align_data_spec |]. split.
  - rewrite length_map, length_seq. reflexivity.
  - intros i Hi. change (map ?f ?l) with (f <$> l).
    rewrite list_lookup_fmap, lookup_seq_lt by exact Hi. reflexivity.
Qed.

Lemma ge_float_mono (mv lo hi : Q) :
  (lo <= hi)%Q -> ge_float mv hi = true -> ge_float mv lo = true.
Proof.
  unfold ge_float. rewrite !Qle_bool_iff. intros H1 H2.
  exact (Qle_trans _ _ _ H1 H2).
Qed.

(** The prediction of a second under a lower and a higher threshold. *)
Lemma prediction_mono (m : gmap Z Q) (lo hi : Q) (s : Z) :
  (lo <= hi)%Q ->
  let l := default 0 (Evaluate.classify_motion m lo !! s) in
  let h := default 0 (Evaluate.classify_motion m hi !! s) in
  (h = 1 -> l = 1) /\ (l = 0 -> h = 0).
Proof.
  intros Hle. cbv zeta. rewrite !evaluate_classify_motion_lookup.
  destruct (m !! s) as [mv|]; cbn; [| auto].
  destruct (ge_float mv hi) eqn:Hhi.
  - rewrite (ge_float_mono mv lo hi Hle Hhi). split; [auto | discriminate].
  - destruct (ge_float mv lo); split; auto; discriminate.
Qed.

Lemma evaluate_threshold_spec (annotation_data : list Z) (m : gmap Z Q)
    (threshold : Q) :
  let y_pred :=
    map (fun i : nat =>
           default 0 (Evaluate.classify_motion m threshold !! Z.of_nat i))
      (seq 0 (length annotation_data)) in
  Evaluate.evaluate_threshold annotation_data m threshold
  = Ok (Evaluate.calculate_confusion_matrix annotation_data y_pred,
        Evaluate.calculate_metrics annotation_data y_pred).
Proof.
  unfold Evaluate.evaluate_threshold. rewrite align_data_spec. reflexivity.
Qed.

(** X3.  The two rounds of [evaluate.py]: with the same annotation and
    motion table, the round at the higher threshold has no more true and
    false positives, and no fewer true and false negatives, than the round
    at the lower one; the two rows of the matrix keep their sums. *)
Theorem higher_threshold_fewer_positives (annotation_data : list Z)
    (sec_to_motion : gmap Z Q) (lo hi : Q) :
  (lo <= hi)%Q ->
  exists tn fp fn tp tn' fp' fn' tp' report report',
    Evaluate.evaluate_threshold annotation_data sec_to_motion lo
    = Ok ((tn, fp), (fn, tp), report)
    /\ Evaluate.evaluate_threshold annotation_data sec_to_motion hi
       = Ok ((tn', fp'), (fn', tp'), report')
    /\ tp' <= tp /\ fp' <= fp /\ fn <= fn' /\ tn <= tn'
    /\ tn + fp = tn' + fp' /\ fn + tp = fn' + tp'.
Proof.
  intros Hle.
  rewrite !evaluate_threshold_spec. cbv zeta.
  set (yl := map _ _). set (yh := map _ _).
  rewrite !confusion_matrix_counts.
  do 10 eexists. split; [reflexivity |]. split; [reflexivity |].
  assert (Forall2 (fun l h => h = 1 -> l = 1) yl yh) as H1.
  { apply Forall2_map_same. intros i.
    apply (prediction_mono sec_to_motion lo hi _ Hle). }
  assert (Forall2 (fun l h => l = 0 -> h = 0) yl yh) as H0.
  { apply Forall2_map_same. intros i.
    apply (prediction_mono sec_to_motion lo hi _ Hle). }
  assert (Forall binary yl) as Hbl.
  { apply Forall_forall. intros x Hx. apply list_elem_of_fmap in Hx.
    destruct Hx as (i & -> & _). apply evaluate_classify_motion_binary. }
  assert (Forall binary yh) as Hbh.
  { apply Forall_forall. intros x Hx. apply list_elem_of_fmap in Hx.
    destruct Hx as (i & -> & _). apply evaluate_classify_motion_binary. }
  assert (length yl = length annotation_data) as Hll
    by (subst yl; rewrite length_map, length_seq; reflexivity).
  assert (length yh = length annotation_data) as Hlh
    by (subst yh; rewrite length_map, length_seq; reflexivity).
  pose proof (count_of_pred_one_le 1 annotation_data yl yh H1).
  pose proof (count_of_pred_one_le 0 annotation_data yl yh H1).
  pose proof (count_of_pred_zero_le 1 annotation_data yl yh H0).
  pose proof (count_of_pred_zero_le 0 annotation_data yl yh H0).
  pose proof (count_of_row 0 annotation_data yl Hbl Hll).
  pose proof (count_of_row 0 annotation_data yh Hbh Hlh).
  pose proof (count_of_row 1 annotation_data yl Hbl Hll).
  pose proof (count_of_row 1 annotation_data yh Hbh Hlh).
  lia.
Qed.

Lemma higher_threshold_fewer_positives_witness :
  exists tn fp fn tp tn' fp' fn' tp' report report',
    Evaluate.evaluate_threshold [1; 1; 0; 0]
      (<[0 := 2%Q]> (<[1 := 1%Q]> (<[2 := 1%Q]> (<[3 := 0%Q]> ∅)))) 1
    = Ok ((tn, fp), (fn, tp), report)
    /\ Evaluate.evaluate_threshold [1; 1; 0; 0]
         (<[0 := 2%Q]> (<[1 := 1%Q]> (<[2 := 1%Q]> (<[3 := 0%Q]> ∅)))) 2
       = Ok ((tn', fp'), (fn', tp'), report')
    /\ tp' <= tp /\ fp' <= fp /\ fn <= fn' /\ tn <= tn'
    /\ tn + fp = tn' + fp' /\ fn + tp = fn' + tp'.
Proof.
  apply (higher_threshold_fewer_positives [1; 1; 0; 0]
           (<[0 := 2%Q]> (<[1 := 1%Q]> (<[2 := 1%Q]> (<[3 := 0%Q]> ∅)))) 1 2).
  vm_compute. discriminate.
Defined.

(** X4.  The two-class rounds against the three labels of the plot: with
    [TH2 <= TH1], a second is predicted [1] at [TH1] exactly when its label
    is walk, and predicted [0] at [TH2] exactly when its label is stay; a
    second labelled hold is [0] at [TH1] and [1] at [TH2]. *)
Theorem two_class_rounds_match_three_labels (sec_to_motion : gmap Z Q)
    (th1 th2 : Q) (s : Z) :
  (th2 <= th1)%Q ->
  let label := PlotMoveAmount.classify_motion sec_to_motion th1 th2 !! s in
  let round1 := Evaluate.classify_motion sec_to_motion th1 !! s in
  let round2 := Evaluate.classify_motion sec_to_motion th2 !! s in
  (round1 = Some 1 <-> label = Some "walk"%string)
  /\ (round2 = Some 0 <-> label = Some "stay"%string)
  /\ (round1 = Some 0 /\ round2 = Some 1 <-> label = Some "hold"%string).
Proof.
  intros Hle. cbv zeta.
  rewrite plot_classify_motion_lookup, !evaluate_classify_motion_lookup.
  destruct (sec_to_motion !! s) as [mv|]; cbn.
  - unfold three_class.
    destruct (ge_float mv th1) eqn:H1.
    + rewrite (ge_float_mono mv th2 th1 Hle H1).
      repeat split; intros; try reflexivity; try discriminate.
      destruct H; discriminate.
    + destruct (ge_float mv th2) eqn:H2;
        repeat split; intros; try reflexivity; try discriminate.
      destruct H; discriminate.
  - repeat split; intros; try discriminate. destruct H; discriminate.
Qed.

Lemma two_class_rounds_match_three_labels_witness :
  let sec_to_motion : gmap Z Q :=
    <[0 := (1 # 2)%Q]> (<[1 := 1%Q]> (<[3 := 2%Q]> ∅)) in
  let label := PlotMoveAmount.classify_motion sec_to_motion 2 1 !! 1 in
  let round1 := Evaluate.classify_motion sec_to_motion 2 !! 1 in
  let round2 := Evaluate.classify_motion sec_to_motion 1 !! 1 in
  (round1 = Some 1 <-> label = Some "walk"%string)
  /\ (round2 = Some 0 <-> label = Some "stay"%string)
  /\ (round1 = Some 0 /\ round2 = Some 1 <-> label = Some "hold"%string).
Proof.
  apply (two_class_rounds_match_three_labels
           (<[0 := (1 # 2)%Q]> (<[1 := 1%Q]> (<[3 := 2%Q]> ∅))) 2 1 1).
  vm_compute. discriminate.
Defined.

(** *** The metrics *)

(** A metric between 0 and 1. *)
Definition unit_interval (q : Q) : Prop := (0 <= q /\ q <= 1)%Q.

Definition class_in_unit_interval (c : Evaluate.class_metrics) : Prop :=
  unit_interval (Evaluate.precision c)
  /\ unit_interval (Evaluate.recall c)
  /\ unit_interval (Evaluate.f1 c).

Lemma inject_Z_pos (b : Z) : 0 < b -> (0 < inject_Z b)%Q.
Proof. intros H. change 0%Q with (inject_Z 0). rewrite <- Zlt_Qlt. exact H. Qed.

Lemma inject_Z_nonneg (b : Z) : 0 <= b -> (0 <= inject_Z b)%Q.
Proof. intros H. change 0%Q with (inject_Z 0). rewrite <- Zle_Qle. exact H. Qed.

Lemma ratio_unit (a b : Z) : 0 <= a <= b -> unit_interval (Evaluate.ratio a b).
Proof.
  intros [Ha Hab]. unfold Evaluate.ratio, unit_interval.
  destruct (Z.ltb_spec 0 b) as [Hb | Hb]; [| split; discriminate].
  pose proof (inject_Z_pos b Hb) as Hb'.
  split.
  - apply Qle_shift_div_l; [exact Hb' |].
    rewrite Qmult_0_l. apply inject_Z_nonneg, Ha.
  - apply Qle_shift_div_r; [exact Hb' |].
    rewrite Qmult_1_l. rewrite <- Zle_Qle. exact Hab.
Qed.

Lemma f1_score_unit (p r : Q) :
  unit_interval p -> unit_interval r -> unit_interval (Evaluate.f1_score p r).
Proof.
  intros [Hp0 Hp1] [Hr0 Hr1]. unfold Evaluate.f1_score, unit_interval.
  destruct (Qlt_le_dec 0 (p + r)) as [Hpos | _]; [| split; discriminate].
  split.
  - apply Qle_shift_div_l; [exact Hpos |]. nra.
  - apply Qle_shift_div_r; [exact Hpos |]. nra.
Qed.

Lemma weighted_unit (s m : Q) (ss ms : Z) :
  unit_interval s -> unit_interval m -> 0 <= ss -> 0 <= ms ->
  unit_interval (Evaluate.weighted s m ss ms).
Proof.
  intros [Hs0 Hs1] [Hm0 Hm1] Hss Hms. unfold Evaluate.weighted, unit_interval.
  destruct (Z.ltb_spec 0 (ss + ms)) as [Hb | Hb]; [| split; discriminate].
  pose proof (inject_Z_pos _ Hb) as Hb'.
  pose proof (inject_Z_nonneg _ Hss) as Hss'.
  pose proof (inject_Z_nonneg _ Hms) as Hms'.
  rewrite inject_Z_plus in *.
  split.
  - apply Qle_shift_div_l; [exact Hb' |]. nra.
  - apply Qle_shift_div_r; [exact Hb' |]. nra.
Qed.

Lemma macro_unit (s m : Q) :
  unit_interval s -> unit_interval m -> unit_interval ((s + m) / 2).
Proof.
  intros [Hs0 Hs1] [Hm0 Hm1]. unfold unit_interval. split.
  - apply Qle_shift_div_l; [reflexivity |]. lra.
  - apply Qle_shift_div_r; [reflexivity |]. lra.
Qed.

(** X5.  [calculate_metrics] divides by no zero, and every value it
    returns (accuracy; precision, recall and F1 of both classes and of
    both averages) lies between 0 and 1, for any two lists. *)
Theorem metrics_between_zero_and_one (y_true y_pred : list Z) :
  let m := Evaluate.calculate_metrics y_true y_pred in
  unit_interval (Evaluate.accuracy m)
  /\ class_in_unit_interval (Evaluate.static m)
  /\ class_in_unit_interval (Evaluate.motion m)
  /\ class_in_unit_interval (Evaluate.macro_avg m)
  /\ class_in_unit_interval (Evaluate.weighted_avg m).
Proof.
  unfold Evaluate.calculate_metrics. rewrite confusion_matrix_counts.
  set (pairs := zip y_true y_pred).
  pose proof (count_of_nonneg (0, 0) pairs) as Htn.
  pose proof (count_of_nonneg (0, 1) pairs) as Hfp.
  pose proof (count_of_nonneg (1, 0) pairs) as Hfn.
  pose proof (count_of_nonneg (1, 1) pairs) as Htp.
  set (tn := count_of (0, 0) pairs) in *. set (fp := count_of (0, 1) pairs) in *.
  set (fn := count_of (1, 0) pairs) in *. set (tp := count_of (1, 1) pairs) in *.
  cbv zeta. unfold class_in_unit_interval. cbn.
  assert (unit_interval (Evaluate.ratio tn (tn + fn))) as Hsp
    by (apply ratio_unit; lia).
  assert (unit_interval (Evaluate.ratio tn (tn + fp))) as Hsr
    by (apply ratio_unit; lia).
  assert (unit_interval (Evaluate.ratio tp (tp + fp))) as Hmp
    by (apply ratio_unit; lia).
  assert (unit_interval (Evaluate.ratio tp (tp + fn))) as Hmr
    by (apply ratio_unit; lia).
  pose proof (f1_score_unit _ _ Hsp Hsr) as Hsf.
  pose proof (f1_score_unit _ _ Hmp Hmr) as Hmf.
  repeat split;
    first [ apply ratio_unit; lia
          | apply Hsp | apply Hsr | apply Hmp | apply Hmr | apply Hsf | apply Hmf
          | apply macro_unit; assumption
          | apply weighted_unit; first [assumption | lia] ].
Qed.

Lemma ratio_times (a b : Z) :
  0 <= a <= b -> (Evaluate.ratio a b * inject_Z b == inject_Z a)%Q.
Proof.
  intros [Ha Hab]. unfold Evaluate.ratio.
  destruct (Z.ltb_spec 0 b) as [Hb | Hb].
  - rewrite Qmult_comm. apply Qmult_div_r.
    pose proof (inject_Z_pos b Hb). lra.
  - assert (b = 0) as -> by lia. assert (a = 0) as -> by lia. reflexivity.
Qed.

(** X6.  In [calculate_metrics] the support-weighted recall is the
    accuracy (the divisions taken exactly), and the support of both
    averages is the sum of the two class supports, which is the number of
    pairs with both labels 0 or 1. *)
Theorem weighted_recall_is_accuracy (y_true y_pred : list Z) :
  let m := Evaluate.calculate_metrics y_true y_pred in
  Qeq (Evaluate.recall (Evaluate.weighted_avg m)) (Evaluate.accuracy m)
  /\ Evaluate.support (Evaluate.weighted_avg m)
     = Evaluate.support (Evaluate.static m) + Evaluate.support (Evaluate.motion m)
  /\ Evaluate.support (Evaluate.macro_avg m)
     = Evaluate.support (Evaluate.weighted_avg m)
  /\ Evaluate.support (Evaluate.weighted_avg m)
     = Z.of_nat
         (length (filter (fun p : Z * Z => binary (fst p) /\ binary (snd p))
                    (zip y_true y_pred))).
Proof.
  pose proof (count_pairs_total (zip y_true y_pred) 0 0 0 0) as Htotal.
  rewrite count_pairs_cells in Htotal.
  unfold Evaluate.calculate_metrics. rewrite confusion_matrix_counts.
  set (pairs := zip y_true y_pred) in *.
  pose proof (count_of_nonneg (0, 0) pairs) as Htn.
  pose proof (count_of_nonneg (0, 1) pairs) as Hfp.
  pose proof (count_of_nonneg (1, 0) pairs) as Hfn.
  pose proof (count_of_nonneg (1, 1) pairs) as Htp.
  set (tn := count_of (0, 0) pairs) in *. set (fp := count_of (0, 1) pairs) in *.
  set (fn := count_of (1, 0) pairs) in *. set (tp := count_of (1, 1) pairs) in *.
  cbv zeta. cbn [Evaluate.recall Evaluate.weighted_avg Evaluate.accuracy
                 Evaluate.support Evaluate.static Evaluate.motion
                 Evaluate.macro_avg].
  split; [| split; [reflexivity | split; [reflexivity | lia]]].
  unfold Evaluate.weighted.
  change (Evaluate.ratio (tp + tn) (tp + tn + fp + fn))
    with (if 0 <? tp + tn + fp + fn
          then (inject_Z (tp + tn) / inject_Z (tp + tn + fp + fn))%Q
          else 0%Q).
  replace (tn + fp + (tp + fn)) with (tp + tn + fp + fn) by lia.
  destruct (0 <? tp + tn + fp + fn); [| reflexivity].
  rewrite (ratio_times tn (tn + fp)), (ratio_times tp (tp + fn)) by lia.
  rewrite <- inject_Z_plus.
  replace (tn + tp) with (tp + tn) by lia. reflexivity.
Qed.

(** ** The readers of the per-second files *)

(** What a row gives: its second and its value, when it has two fields or
    more and [float] accepts the first two. *)
Definition row_entry {float : FloatOfStr} (row : list string)
    : option (Z * Q) :=
  match row with
  | f0 :: f1 :: _ =>
      x ← float_of_str f0; motion_amount ← float_of_str f1;
      Some (int_of_float x, motion_amount)
  | _ => None
  end.

Section Rows.
Context {float : FloatOfStr}.

Lemma read_rows_cons (row : list string) (rest : csv) (acc : gmap Z Q) :
  Evaluate.read_rows (row :: rest) acc
  = Evaluate.read_rows rest
      (match row_entry row with
       | Some p => <[p.1 := p.2]> acc
       | None => acc
       end).
Proof.
  destruct row as [|f0 [|f1 more]]; try reflexivity.
  cbn [Evaluate.read_rows orb length].
  replace (Z.of_nat (S (S (length more))) <? 2) with false
    by (symmetry; apply Z.ltb_ge; lia).
  unfold Evaluate.parse_row.
  change (field (f0 :: f1 :: more) 0) with (Ok f0).
  change (field (f0 :: f1 :: more) 1) with (Ok f1).
  unfold to_float, row_entry, mbind, result_bind, option_bind.
  cbv beta iota.
  destruct (float_of_str f0) as [x|]; [| reflexivity].
  destruct (float_of_str f1) as [v|]; reflexivity.
Qed.

Lemma plot_read_rows_cons (row : list string) (rest : csv) (acc : gmap Z Q) :
  PlotMoveAmount.read_rows (row :: rest) acc
  = PlotMoveAmount.read_rows rest
      (match row_entry row with
       | Some p => <[p.1 := p.2]> acc
       | None => acc
       end).
Proof.
  destruct row as [|f0 [|f1 more]]; try reflexivity.
  cbn [PlotMoveAmount.read_rows orb length].
  replace (Z.of_nat (S (S (length more))) <? 2) with false
    by (symmetry; apply Z.ltb_ge; lia).
  unfold Evaluate.parse_row.
  change (field (f0 :: f1 :: more) 0) with (Ok f0).
  change (field (f0 :: f1 :: more) 1) with (Ok f1).
  unfold to_float, row_entry, mbind, result_bind, option_bind.
  cbv beta iota.
  destruct (float_of_str f0) as [x|]; [| reflexivity].
  destruct (float_of_str f1) as [v|]; reflexivity.
Qed.

Lemma plot_read_rows_evaluate (rows : csv) (acc : gmap Z Q) :
  PlotMoveAmount.read_rows rows acc = (Evaluate.read_rows rows acc, Ok tt).
Proof.
  revert acc. induction rows as [|row rest IH]; intros acc; [reflexivity |].
  rewrite plot_read_rows_cons, read_rows_cons. apply IH.
Qed.

Lemma read_rows_lookup (rows : csv) (acc : gmap Z Q) (k : Z) :
  Evaluate.read_rows rows acc !! k
  = match last (filter (fun p : Z * Q => p.1 = k) (omap row_entry rows)) with
    | Some p => Some p.2
    | None => acc !! k
    end.
Proof.
  revert acc. induction rows as [|row rest IH]; intros acc; [reflexivity |].
  rewrite read_rows_cons, IH. cbn [omap list_omap].
  destruct (row_entry row) as [[sec v]|]; [| reflexivity].
  rewrite filter_cons. cbn [fst snd].
  destruct (decide (sec = k)) as [-> | Hne].
  - rewrite last_cons.
    destruct (last _) as [p|]; [reflexivity |].
    cbn. apply lookup_insert_eq.
  - destruct (last _) as [p|]; [reflexivity |].
    apply lookup_insert_ne. exact Hne.
Qed.
End Rows.


Section PlotReader.
Context {float : FloatOfStr}.

Lemma table_of_empty_file (d : directory) (f : string) :
  open_csv d f = Ok [] -> table_of d f = ∅.
Proof. unfold table_of. intros ->. reflexivity. Qed.

(** The plot reader as a fold over the listing. *)
Lemma plot_read_files_fold (d : directory) (files : list string)
    (acc : gmap Z Q) :
  PlotMoveAmount.read_files d files acc
  = foldl (fun acc f => table_of d f ∪ acc) acc
      (List.filter (fun f => PyStr.endswith f "sec.txt") files).
Proof.
  revert acc. induction files as [|f rest IH]; intros acc; [reflexivity |].
  cbn [PlotMoveAmount.read_files List.filter].
  destruct (PyStr.endswith f "sec.txt"); [| apply IH].
  cbn [foldl]. unfold table_of at 2.
  destruct (open_csv d f) as [[|header body] | e]; rewrite IH.
  - unfold segment_table. cbn. now rewrite (left_id ∅ (∪)).
  - rewrite plot_read_rows_evaluate. cbn [fst].
    unfold segment_table. cbn [tail]. now rewrite <- read_rows_union.
  - now rewrite (left_id ∅ (∪)).
Qed.


(** An empty file stops the sorted reader. *)
Lemma read_segments_empty_file (d : directory) (name : string)
    (files : list string) (acc : gmap Z Q) :
  name ∈ files -> open_csv d name = Ok [] ->
  exists e, Evaluate.read_segments d files acc = Raise e.
Proof.
  intros Hin Hopen. revert acc.
  induction files as [|f rest IH]; intros acc; [now apply elem_of_nil in Hin |].
  cbn [Evaluate.read_segments]. unfold mbind, result_bind.
  destruct (Evaluate.parse_time_range f) as [r | e]; [| now exists e].
  apply elem_of_cons in Hin as [<- | Hin].
  - rewrite Hopen. now eexists.
  - destruct (open_csv d f) as [[|header body] | e]; [now eexists | | now exists e].
    apply IH, Hin.
Qed.
End PlotReader.

(** Two segment files with no second in common. *)
Definition disjoint_directory : directory :=
  [ ("2-3sec.txt"%string,
     [ ["second"; "motion_amount"]; ["2"; "0.250000"]; ["3"; "1.000000"] ]%string);
    ("0-1sec.txt"%string,
     [ ["second"; "motion_amount"]; ["0"; "0.500000"]; ["1"; "3.000000"] ]%string) ].



(** X9.  The two sorted readers do not depend on the order in which the
    directory lists its files: two listings of the same files give the same
    result, exception included. *)
Theorem sorted_readers_ignore_listing_order {float : FloatOfStr}
    (d d' : directory) :
  d ≡ₚ d' -> NoDup (listdir d) ->
  Evaluate.read_motion_data d = Evaluate.read_motion_data d'
  /\ CreateVideo.read_motion_data d = CreateVideo.read_motion_data d'.
Proof.
  intros Hperm Hnodup.
  pose proof (read_motion_data_listing_order d d' Hperm Hnodup) as Hsame.
  split; [exact Hsame |].
  unfold CreateVideo.read_motion_data. exact Hsame.
Qed.

Lemma sorted_readers_ignore_listing_order_witness :
  Evaluate.read_motion_data (float := decimal_float) disjoint_directory
  = Evaluate.read_motion_data (float := decimal_float)
      (reverse disjoint_directory)
  /\ CreateVideo.read_motion_data (float := decimal_float) disjoint_directory
     = CreateVideo.read_motion_data (float := decimal_float)
         (reverse disjoint_directory).
Proof.
  apply (sorted_readers_ignore_listing_order (float := decimal_float)
           disjoint_directory (reverse disjoint_directory)).
  - symmetry. apply reverse_Permutation.
  - apply NoDup_cons. split; [| apply NoDup_singleton].
    intros Hin%list_elem_of_singleton. discriminate Hin.
Defined.

(** The directory without the file [name]. *)
Definition without_file (name : string) (d : directory) : directory :=
  List.filter (fun p => negb (String.eqb (fst p) name)) d.

Section EmptyFile.
Context {float : FloatOfStr}.

Lemma open_csv_without_file (d : directory) (name f : string) :
  f <> name -> open_csv (without_file name d) f = open_csv d f.
Proof.
  intros Hne. induction d as [|[n rows] d IH]; [reflexivity |].
  cbn [without_file List.filter fst open_csv].
  destruct (String.eqb_spec n name) as [-> | Hn]; cbn [negb].
  - destruct (String.eqb_spec name f) as [<- | _]; [congruence | exact IH].
  - cbn [open_csv]. destruct (String.eqb n f); [reflexivity | exact IH].
Qed.

Lemma listdir_without_file (d : directory) (name : string) :
  listdir (without_file name d)
  = List.filter (fun f => negb (String.eqb f name)) (listdir d).
Proof.
  induction d as [|[n rows] d IH]; [reflexivity |].
  cbn [without_file List.filter fst listdir map].
  destruct (String.eqb n name); cbn [negb map fst]; now f_equal.
Qed.

Lemma plot_fold_without_file (d : directory) (name : string)
    (files : list string) (acc : gmap Z Q) :
  table_of d name = ∅ ->
  foldl (fun acc f => table_of d f ∪ acc) acc
    (List.filter (fun f => PyStr.endswith f "sec.txt") files)
  = foldl (fun acc f => table_of (without_file name d) f ∪ acc) acc
      (List.filter (fun f => PyStr.endswith f "sec.txt")
         (List.filter (fun f => negb (String.eqb f name)) files)).
Proof.
  intros Hempty. revert acc.
  induction files as [|f rest IH]; intros acc; [reflexivity |].
  cbn [List.filter].
  destruct (String.eqb_spec f name) as [-> | Hne]; cbn [negb List.filter].
  - destruct (PyStr.endswith name "sec.txt"); [| apply IH].
    cbn [foldl]. rewrite Hempty, (left_id ∅ (∪)). apply IH.
  - destruct (PyStr.endswith f "sec.txt"); [| apply IH].
    cbn [foldl]. rewrite IH. unfold table_of at 2 4.
    now rewrite open_csv_without_file.
Qed.
End EmptyFile.

(** X10.  A segment file with no line at all, not even the header: the two
    sorted readers raise and return no table ([next(reader)] is outside any
    [try]); the plot reader returns the table it returns for the directory
    without that file. *)
Theorem empty_file_stops_sorted_readers {float : FloatOfStr}
    (d : directory) (name : string) :
  NoDup (listdir d) ->
  (name, []) ∈ d ->
  Evaluate.is_segment_file name = true ->
  (exists e, Evaluate.read_motion_data d = Raise e)
  /\ (exists e, CreateVideo.read_motion_data d = Raise e)
  /\ PlotMoveAmount.read_motion_data d
     = PlotMoveAmount.read_motion_data (without_file name d).
Proof.
  intros Hnodup Hin Hseg.
  pose proof (open_csv_listed d name [] Hnodup Hin) as Hopen.
  assert (exists e, Evaluate.read_motion_data d = Raise e) as Hraise.
  { unfold Evaluate.read_motion_data.
    apply (read_segments_empty_file d name); [| exact Hopen].
    rewrite sorted_perm. apply list_elem_of_In, filter_In.
    split; [| exact Hseg].
    apply list_elem_of_In, list_elem_of_fmap. now exists (name, []). }
  split; [exact Hraise |]. split; [exact Hraise |].
  unfold PlotMoveAmount.read_motion_data.
  rewrite !plot_read_files_fold, listdir_without_file.
  apply plot_fold_without_file, table_of_empty_file, Hopen.
Qed.

(** A directory with an empty segment file. *)
Definition empty_file_directory : directory :=
  [ ("0-1sec.txt"%string,
     [ ["second"; "motion_amount"]; ["0"; "0.500000"] ]%string);
    ("2-3sec.txt"%string, []) ].

Lemma empty_file_stops_sorted_readers_witness :
  (exists e,
     Evaluate.read_motion_data (float := decimal_float) empty_file_directory
     = Raise e)
  /\ (exists e,
        CreateVideo.read_motion_data (float := decimal_float)
          empty_file_directory = Raise e)
  /\ PlotMoveAmount.read_motion_data (float := decimal_float)
       empty_file_directory
     = PlotMoveAmount.read_motion_data (float := decimal_float)
         (without_file "2-3sec.txt" empty_file_directory).
Proof.
  apply (empty_file_stops_sorted_readers (float := decimal_float)
           empty_file_directory "2-3sec.txt").
  - apply NoDup_cons. split; [| apply NoDup_singleton].
    intros Hin%list_elem_of_singleton. discriminate Hin.
  - right. left.
  - reflexivity.
Defined.

(** ** cal_moving_amount_by_sec.py: frame motions, frame rate, pose lines *)

(** The length of the step from position [p] to position [c]. *)
Definition step_length {sqrt : CalMovingAmount.SqrtFloat} (p c : Q * Q) : Q :=
  CalMovingAmount.sqrt_float
    ((c.1 - p.1) * (c.1 - p.1) + (c.2 - p.2) * (c.2 - p.2))%Q.

Section FrameMotionFacts.
Context {sqrt : CalMovingAmount.SqrtFloat}.

Lemma math_sqrt_sum_of_squares (dx dz : Q) :
  CalMovingAmount.math_sqrt (dx * dx + dz * dz)
  = Ok (CalMovingAmount.sqrt_float (dx * dx + dz * dz)).
Proof.
  unfold CalMovingAmount.math_sqrt.
  destruct (Qlt_le_dec (dx * dx + dz * dz) 0) as [Hneg | _]; [| reflexivity].
  exfalso. nra.
Qed.

Lemma frame_motion_loop_spec (xz : list (Q * Q)) (n k : nat)
    (acc : list Q) :
  (S k + n = length xz)%nat ->
  CalMovingAmount.frame_motion_loop xz (map Z.of_nat (seq (S k) n)) acc
  = Ok (acc ++ zip_with step_length (drop k xz) (drop (S k) xz)).
Proof.
  revert k acc. induction n as [|n IH]; intros k acc Hlen.
  - cbn. rewrite (drop_ge xz (S k)) by lia.
    destruct (drop k xz); cbn; now rewrite app_nil_r.
  - cbn [seq map CalMovingAmount.frame_motion_loop].
    replace (Z.of_nat (S k) - 1) with (Z.of_nat k) by lia.
    rewrite !getitem_of_nat.
    assert (is_Some (xz !! k)) as [[px pz] Hp]
      by (apply lookup_lt_is_Some_2; lia).
    assert (is_Some (xz !! S k)) as [[cx cz] Hc]
      by (apply lookup_lt_is_Some_2; lia).
    rewrite Hp, Hc. cbv zeta. rewrite math_sqrt_sum_of_squares.
    unfold mbind, result_bind. rewrite IH by lia.
    rewrite (drop_S xz (px, pz) k Hp), (drop_S xz (cx, cz) (S k) Hc).
    cbn [zip_with]. rewrite <- app_assoc. reflexivity.
Qed.
End FrameMotionFacts.

Lemma calculate_frame_motion_steps {sqrt : CalMovingAmount.SqrtFloat}
    (xz : list (Q * Q)) :
  CalMovingAmount.calculate_frame_motion xz
  = Ok (zip_with step_length xz (tail xz)).
Proof.
  unfold CalMovingAmount.calculate_frame_motion.
  destruct xz as [|p rest]; [reflexivity |].
  replace (py_range 1 (Z.of_nat (length (p :: rest))))
    with (map Z.of_nat (seq 1 (length rest))).
  - rewrite (frame_motion_loop_spec (p :: rest) (length rest) 0 [])
      by reflexivity.
    reflexivity.
  - unfold py_range. cbn [length].
    replace (Z.to_nat (Z.of_nat (S (length rest)) - 1)) with (length rest)
      by lia.
    rewrite <- (fmap_S_seq 0). change (map ?f ?l) with (f <$> l).
    rewrite <- list_fmap_compose. apply list_fmap_ext.
    intros _ i _. cbn. lia.
Qed.

(** X11.  [calculate_frame_motion] never raises (no index is out of range,
    and [math.sqrt] gets a sum of two squares): it returns the lengths of
    the steps between consecutive positions, in order, one fewer than there
    are positions, and none for an empty or one-element sequence. *)
Theorem frame_motions_of_consecutive_positions
    {sqrt : CalMovingAmount.SqrtFloat} (xz_displacements : list (Q * Q)) :
  let steps :=
    zip_with step_length xz_displacements (tail xz_displacements) in
  CalMovingAmount.calculate_frame_motion xz_displacements = Ok steps
  /\ length steps = (length xz_displacements - 1)%nat
  /\ forall (i : nat) (p c : Q * Q),
       xz_displacements !! i = Some p ->
       xz_displacements !! S i = Some c ->
       steps !! i
       = Some (CalMovingAmount.sqrt_float
                 ((c.1 - p.1) * (c.1 - p.1) + (c.2 - p.2) * (c.2 - p.2))%Q).
Proof.
  intros steps. subst steps. split; [| split].
  - apply calculate_frame_motion_steps.
  - rewrite length_zip_with.
    destruct xz_displacements; cbn [tail length]; lia.
  - intros i p c Hp Hc. apply lookup_zip_with_Some.
    exists p, c. split; [reflexivity |]. split; [exact Hp |].
    destruct xz_displacements as [|q rest]; [discriminate Hp |].
    exact Hc.
Qed.





(** The position a line gives: fields 0 and 2, when the line has three
    fields or more and [float] accepts both. *)
Definition pose_of_line {float : FloatOfStr} (line : string)
    : option (Q * Q) :=
  match PyStr.split_whitespace (PyStr.strip line) with
  | v0 :: _ :: v2 :: _ =>
      x ← float_of_str v0; z ← float_of_str v2; Some (x, z)
  | _ => None
  end.

(** A line of exactly two fields, the first a number: the record on which
    [read_pose_data] exits. *)
Definition half_record {float : FloatOfStr} (line : string) : Prop :=
  exists a b x,
    PyStr.split_whitespace (PyStr.strip line) = [a; b]
    /\ float_of_str a = Some x.

(** The lines that are empty once stripped. *)
Definition blank_lines (lines : list string) : list string :=
  List.filter (fun line => PyStr.is_empty (PyStr.strip line)) lines.

Section PoseLines.
Context {float : FloatOfStr}.

Lemma read_pose_lines_complete (lines : list string) :
  Forall (fun line => ~ half_record line) lines ->
  forall (line_num : Z) (xz : list (Q * Q)) (log : list event),
  exists warnings,
    CalMovingAmount.read_pose_lines line_num lines xz log
    = (log ++ warnings, Ok (xz ++ omap pose_of_line lines))
    /\ (length (omap pose_of_line lines) + length warnings
        + length (blank_lines lines) = length lines)%nat.
Proof.
  induction 1 as [|line rest Hline _ IH]; intros line_num xz log.
  - exists []. cbn. now rewrite !app_nil_r.
  - cbn [CalMovingAmount.read_pose_lines omap list_omap blank_lines List.filter].
    fold (blank_lines rest).
    remember (pose_of_line line) as pose eqn:Hpose. unfold pose_of_line in Hpose.
    destruct (PyStr.is_empty (PyStr.strip line)) eqn:Hblank.
    { destruct (PyStr.strip line); [| discriminate Hblank].
      cbn in Hpose. subst pose.
      destruct (IH (line_num + 1) xz log) as (w & -> & Hcount).
      exists w. split; [reflexivity |]. cbn [length]. lia. }
    destruct (PyStr.split_whitespace (PyStr.strip line))
      as [|a [|b [|c more]]] eqn:Hsplit.
    + subst pose. cbn [length]. change (Z.of_nat 0 <? 2) with true. cbv iota.
      destruct (IH (line_num + 1) xz
                  (log ++ [WarnInsufficientColumns line_num]))
        as (w & -> & Hcount).
      exists (WarnInsufficientColumns line_num :: w).
      rewrite <- app_assoc. split; [reflexivity |]. cbn [length]. lia.
    + subst pose. cbn [length]. change (Z.of_nat 1 <? 2) with true. cbv iota.
      destruct (IH (line_num + 1) xz
                  (log ++ [WarnInsufficientColumns line_num]))
        as (w & -> & Hcount).
      exists (WarnInsufficientColumns line_num :: w).
      rewrite <- app_assoc. split; [reflexivity |]. cbn [length]. lia.
    + subst pose. cbn [length]. change (Z.of_nat 2 <? 2) with false. cbv iota.
      change (field [a; b] 0) with (Ok a).
      unfold to_float, mbind, result_bind. cbv beta iota.
      destruct (float_of_str a) as [x|] eqn:Ha.
      { exfalso. apply Hline. now exists a, b, x. }
      destruct (IH (line_num + 1) xz (log ++ [WarnInvalidNumeric line_num]))
        as (w & -> & Hcount).
      exists (WarnInvalidNumeric line_num :: w).
      rewrite <- app_assoc. split; [reflexivity |]. cbn [length]. lia.
    + replace (Z.of_nat (length (a :: b :: c :: more)) <? 2) with false
        by (symmetry; apply Z.ltb_ge; cbn [length]; lia).
      change (field (a :: b :: c :: more) 0) with (Ok a).
      change (field (a :: b :: c :: more) 2) with (Ok c).
      unfold to_float, mbind, result_bind. cbv beta iota.
      unfold mbind, option_bind in Hpose.
      destruct (float_of_str a) as [x|].
      * destruct (float_of_str c) as [z|]; subst pose.
        -- destruct (IH (line_num + 1) (xz ++ [(x, z)]) log)
             as (w & -> & Hcount).
           exists w. rewrite <- app_assoc. split; [reflexivity |].
           cbn [length]. lia.
        -- destruct (IH (line_num + 1) xz
                       (log ++ [WarnInvalidNumeric line_num]))
             as (w & -> & Hcount).
           exists (WarnInvalidNumeric line_num :: w).
           rewrite <- app_assoc. split; [reflexivity |]. cbn [length]. lia.
      * subst pose.
        destruct (IH (line_num + 1) xz (log ++ [WarnInvalidNumeric line_num]))
          as (w & -> & Hcount).
        exists (WarnInvalidNumeric line_num :: w).
        rewrite <- app_assoc. split; [reflexivity |]. cbn [length]. lia.
Qed.
End PoseLines.

(** X13.  [read_pose_data] on an existing file returns exactly when no line
    is a record of two fields with a numeric first field.  It then returns
    the positions of the lines that have three fields or more with numeric
    fields 0 and 2, in the order of the file, and every other line is
    either blank or answered by one warning. *)
Theorem read_pose_data_returns_positions {float : FloatOfStr}
    (lines : list string) :
  Forall (fun line => ~ half_record line) lines
  <-> exists warnings,
        CalMovingAmount.read_pose_data (Some lines)
        = (warnings, Ok (omap pose_of_line lines))
        /\ (length (omap pose_of_line lines) + length warnings
            + length (blank_lines lines) = length lines)%nat.
Proof.
  split.
  - intros Hlines.
    destruct (read_pose_lines_complete lines Hlines 1 [] [])
      as (warnings & Hrun & Hcount).
    exists warnings. split; [exact Hrun | exact Hcount].
  - intros (warnings & Hrun & _).
    apply Forall_Exists_neg. intros Hex.
    apply Exists_exists in Hex as (line & Hin & a & b & x & Hsplit & Ha).
    apply list_elem_of_split in Hin as (pre & rest & ->).
    destruct (read_pose_lines_abort line a b x pre rest Hsplit Ha 1 [] [])
      as (log & Habort).
    unfold CalMovingAmount.read_pose_data in Hrun.
    rewrite Habort in Hrun. discriminate Hrun.
Qed.

(** ** A file name of the form [<digits>-<digits>sec.txt] *)


Section SegmentName.
Import PyStr.
Open Scope string_scope.

Lemma append_nil_r (s : string) : s ++ "" = s.
Proof. induction s as [|c s IH]; [reflexivity |]. now rewrite append_cons, IH. Qed.











End SegmentName.



(** ** The two readers of the annotation file *)

Lemma read_annotation_values_lookup (values : list string) (sec : Z)
    (acc : gmap Z Z) (k : Z) :
  PlotMoveAmount.read_annotation_values sec values acc !! k
  = if decide (sec <= k < sec + Z.of_nat (length values))
    then match values !! Z.to_nat (k - sec)
               ≫= (fun v => PyStr.int (PyStr.strip v)) with
         | Some a => Some a
         | None => acc !! k
         end
    else acc !! k.
Proof.
  revert sec acc. induction values as [|v rest IH]; intros sec acc.
  - cbn. case_decide; [lia | reflexivity].
  - cbn [PlotMoveAmount.read_annotation_values length].
    destruct (decide (k = sec)) as [-> | Hne].
    + rewrite decide_True by lia. replace (sec - sec) with 0 by lia.
      change ((v :: rest) !! Z.to_nat 0
              ≫= (fun v => PyStr.int (PyStr.strip v)))
        with (PyStr.int (PyStr.strip v)).
      destruct (PyStr.int (PyStr.strip v)) as [a|]; rewrite IH;
        rewrite decide_False by lia; [apply lookup_insert_eq | reflexivity].
    + assert (forall acc',
                acc' !! k = acc !! k ->
                PlotMoveAmount.read_annotation_values (sec + 1) rest acc' !! k
                = if decide (sec <= k < sec + Z.of_nat (S (length rest)))
                  then match (v :: rest) !! Z.to_nat (k - sec)
                             ≫= (fun v => PyStr.int (PyStr.strip v)) with
                       | Some a => Some a
                       | None => acc !! k
                       end
                  else acc !! k) as Hstep.
      { intros acc' Hacc. rewrite IH, Hacc.
        destruct (decide (sec + 1 <= k < sec + 1 + Z.of_nat (length rest))).
        - rewrite decide_True by lia.
          replace (Z.to_nat (k - sec)) with (S (Z.to_nat (k - (sec + 1))))
            by lia.
          reflexivity.
        - rewrite decide_False by lia. reflexivity. }
      destruct (PyStr.int (PyStr.strip v)) as [a|]; apply Hstep;
        [apply lookup_insert_ne; congruence | reflexivity].
Qed.

Lemma omap_by_index {A B : Type} (f : A -> option B) (pre l : list A) :
  omap f l
  = omap (fun i : nat => (pre ++ l) !! i ≫= f) (seq (length pre) (length l)).
Proof.
  revert pre. induction l as [|x l IH]; intros pre; [reflexivity |].
  cbn [omap list_omap length seq].
  rewrite list_lookup_middle by reflexivity. cbn.
  specialize (IH (pre ++ [x])). rewrite <- app_assoc, length_app in IH.
  cbn in IH. rewrite Nat.add_1_r in IH. rewrite <- IH. reflexivity.
Qed.

Lemma length_omap_le {A B : Type} (f : A -> option B) (l : list A) :
  (length (omap f l) <= length l)%nat.
Proof.
  induction l as [|x l IH]; [reflexivity |].
  cbn. destruct (f x); cbn; lia.
Qed.

Lemma omap_full_lookup {A B : Type} (f : A -> option B) (l : list A) :
  length (omap f l) = length l -> forall i, omap f l !! i = l !! i ≫= f.
Proof.
  induction l as [|x l IH]; intros Hlen i; [reflexivity |].
  cbn [omap list_omap] in *. pose proof (length_omap_le f l).
  destruct (f x) as [b|] eqn:Hx; cbn [length] in Hlen; [| lia].
  destruct i as [|i]; cbn; [now rewrite Hx |].
  apply IH. lia.
Qed.

(** X15.  The annotation file read twice: the list of [evaluate.py] is the
    dictionary of [plot_move_amount_per_min.py] with its gaps closed.  The
    dictionary has the value of the i-th comma-separated field at second i,
    and no entry where [int] rejects the field; the list holds the accepted
    values in order.  So the two agree second by second when no field is
    rejected. *)
Theorem annotation_list_closes_the_gaps (text : string) (annotation_data : list Z) :
  Evaluate.read_annotation_data (Some text) = Ok annotation_data ->
  let sec_to_annotation := PlotMoveAmount.read_annotation_data (Some text) in
  let values := PyStr.split "," (PyStr.strip text) in
  (forall i : nat,
     sec_to_annotation !! Z.of_nat i
     = values !! i ≫= (fun v => PyStr.int (PyStr.strip v)))
  /\ (forall k, is_Some (sec_to_annotation !! k) ->
        0 <= k < Z.of_nat (length values))
  /\ annotation_data
     = omap (fun i : nat => sec_to_annotation !! Z.of_nat i)
         (seq 0 (length values))
  /\ (length annotation_data = length values ->
      forall i : nat, annotation_data !! i = sec_to_annotation !! Z.of_nat i).
Proof.
  unfold Evaluate.read_annotation_data, PlotMoveAmount.read_annotation_data.
  destruct (negb (PyStr.is_empty (PyStr.strip text))); [| discriminate].
  intros [= <-]. cbv zeta.
  set (values := PyStr.split "," (PyStr.strip text)).
  set (f := fun v => PyStr.int (PyStr.strip v)).
  assert (forall i : nat,
            PlotMoveAmount.read_annotation_values 0 values ∅ !! Z.of_nat i
            = values !! i ≫= f) as Hdict.
  { intros i. rewrite read_annotation_values_lookup. fold f.
    replace (Z.to_nat (Z.of_nat i - 0)) with i by lia.
    destruct (decide (0 <= Z.of_nat i < 0 + Z.of_nat (length values)))
      as [_ | Hout].
    - destruct (values !! i ≫= f); [reflexivity | apply lookup_empty].
    - rewrite lookup_empty, lookup_ge_None_2 by lia. reflexivity. }
  split; [exact Hdict |]. split; [| split].
  - intros k [a Hk]. rewrite read_annotation_values_lookup in Hk.
    destruct (decide (0 <= k < 0 + Z.of_nat (length values))) as [Hin | _];
      [lia |].
    rewrite lookup_empty in Hk. discriminate Hk.
  - rewrite (omap_by_index f [] values). cbn [length app].
    apply list_omap_ext, Forall_Forall2_diag, Forall_forall.
    intros i _. symmetry. apply Hdict.
  - intros Hlen i. rewrite Hdict. now apply omap_full_lookup.
Qed.

Lemma annotation_list_closes_the_gaps_witness :
  let sec_to_annotation :=
    PlotMoveAmount.read_annotation_data (Some "0,x,1"%string) in
  [0; 1]
  = omap (fun i : nat => sec_to_annotation !! Z.of_nat i) (seq 0 3)
  /\ sec_to_annotation !! 1 = None
  /\ sec_to_annotation !! 2 = Some 1.
Proof.
  destruct (annotation_list_closes_the_gaps "0,x,1" [0; 1] eq_refl)
    as (Hdict & _ & Hlist & _).
  cbv zeta. split; [exact Hlist |].
  split; [exact (Hdict 1%nat) | exact (Hdict 2%nat)].
Defined.

(** ** plot_move_amount_per_min.py: the data of the minute plots *)

(** The background colour of a second in each half of a plot. *)
Definition annotation_bg (sec_to_annotation : gmap Z Z) (s : Z) : string :=
  match sec_to_annotation !! s with
  | Some a => default "white"%string (PlotMoveAmount.annotation_colors a)
  | None => "white"%string
  end.

Definition classification_bg (sec_to_classification : gmap Z string) (s : Z)
    : string :=
  match sec_to_classification !! s with
  | Some c => default "white"%string (PlotMoveAmount.classification_colors c)
  | None => "white"%string
  end.

(** The plot of a minute when no colour is missing. *)
Definition minute_plot_of (m : gmap Z Q) (ann : gmap Z Z)
    (cls : gmap Z string) (minute : Z) : PlotMoveAmount.minute_plot :=
  {| PlotMoveAmount.minute := minute;
     PlotMoveAmount.minute_values :=
       map (fun sec => default 0%Q (m !! (minute * 60 + sec))) (py_range 0 60);
     PlotMoveAmount.annotation_bg_colors :=
       map (fun sec => annotation_bg ann (minute * 60 + sec)) (py_range 0 60);
     PlotMoveAmount.classification_bg_colors :=
       map (fun sec => classification_bg cls (minute * 60 + sec))
         (py_range 0 60) |}.

(** Every annotation of the minute is 0 or 1. *)
Definition minute_annotated_binary (ann : gmap Z Z) (secs : list Z)
    (minute : Z) : Prop :=
  forall sec a, sec ∈ secs -> ann !! (minute * 60 + sec) = Some a -> binary a.

(** Every label of the table has a colour. *)
Definition labels_have_colors (cls : gmap Z string) : Prop :=
  forall s c, cls !! s = Some c ->
    is_Some (PlotMoveAmount.classification_colors c).

Lemma annotation_colors_binary (a : Z) :
  is_Some (PlotMoveAmount.annotation_colors a) <-> binary a.
Proof.
  unfold PlotMoveAmount.annotation_colors, binary.
  destruct (Z.eqb_spec a 1), (Z.eqb_spec a 0); split;
    intros H; try (now eexists); try lia; try tauto.
  destruct H as [? H]; discriminate H.
Qed.

Section MinutePlots.
Context (m : gmap Z Q) (ann : gmap Z Z) (cls : gmap Z string).
Hypothesis Hcls : labels_have_colors cls.

Lemma minute_loop_outcome (minute : Z) (secs : list Z) (vals : list Q)
    (abg cbg : list string) :
  match PlotMoveAmount.minute_loop m ann cls minute secs vals abg cbg with
  | inr p =>
      p = {| PlotMoveAmount.minute := minute;
             PlotMoveAmount.minute_values :=
               vals ++ map (fun sec => default 0%Q (m !! (minute * 60 + sec)))
                         secs;
             PlotMoveAmount.annotation_bg_colors :=
               abg ++ map (fun sec => annotation_bg ann (minute * 60 + sec))
                        secs;
             PlotMoveAmount.classification_bg_colors :=
               cbg ++ map (fun sec => classification_bg cls (minute * 60 + sec))
                        secs |}
      /\ minute_annotated_binary ann secs minute
  | inl e =>
      exists sec a,
        sec ∈ secs /\ ann !! (minute * 60 + sec) = Some a /\ ~ binary a
        /\ e = PlotMoveAmount.AnnotationKeyError a
  end.
Proof.
  revert vals abg cbg. induction secs as [|sec rest IH]; intros vals abg cbg.
  - cbn. rewrite !app_nil_r. split; [reflexivity |].
    intros sec a Hin. now apply elem_of_nil in Hin.
  - cbn [PlotMoveAmount.minute_loop]. cbv zeta.
    assert (exists color,
              match cls !! (minute * 60 + sec) with
              | Some c =>
                  match PlotMoveAmount.classification_colors c with
                  | Some color => inr color
                  | None => inl (PlotMoveAmount.ClassificationKeyError c)
                  end
              | None => inr "white"%string
              end = inr color
              /\ color = classification_bg cls (minute * 60 + sec))
      as (ccolor & -> & ->).
    { unfold classification_bg.
      destruct (cls !! (minute * 60 + sec)) as [c|] eqn:Hc; [| now eexists].
      destruct (Hcls _ _ Hc) as [color ->]. now eexists. }
    destruct (ann !! (minute * 60 + sec)) as [a|] eqn:Ha.
    + destruct (PlotMoveAmount.annotation_colors a) as [color|] eqn:Hcolor.
      * specialize (IH (vals ++ [default 0%Q (m !! (minute * 60 + sec))])
                      (abg ++ [color])
                      (cbg ++ [classification_bg cls (minute * 60 + sec)])).
        destruct (PlotMoveAmount.minute_loop _ _ _ _ rest _ _ _) as [e | p].
        -- destruct IH as (sec' & a' & Hin & Hrest).
           exists sec', a'. split; [now right | exact Hrest].
        -- destruct IH as [-> Hbin]. split.
           ++ cbn [map]. rewrite <- !app_assoc. cbn [app].
              unfold annotation_bg at 2. now rewrite Ha, Hcolor.
           ++ intros sec' a' [-> | Hin]%elem_of_cons Ha'.
              ** rewrite Ha in Ha'. injection Ha' as <-.
                 apply annotation_colors_binary. now exists color.
              ** now apply (Hbin sec').
      * exists sec, a. split; [left |]. split; [exact Ha |]. split; [| reflexivity].
        intros Hbin%annotation_colors_binary. rewrite Hcolor in Hbin.
        destruct Hbin as [? Hbin]. discriminate Hbin.
    + specialize (IH (vals ++ [default 0%Q (m !! (minute * 60 + sec))])
                    (abg ++ ["white"%string])
                    (cbg ++ [classification_bg cls (minute * 60 + sec)])).
      destruct (PlotMoveAmount.minute_loop _ _ _ _ rest _ _ _) as [e | p].
      * destruct IH as (sec' & a' & Hin & Hrest).
        exists sec', a'. split; [now right | exact Hrest].
      * destruct IH as [-> Hbin]. split.
        -- cbn [map]. rewrite <- !app_assoc. cbn [app].
           unfold annotation_bg at 2. now rewrite Ha.
        -- intros sec' a' [-> | Hin]%elem_of_cons Ha'.
           ++ rewrite Ha in Ha'. discriminate Ha'.
           ++ now apply (Hbin sec').
Qed.
End MinutePlots.

Section MinutesLoop.
Context (m : gmap Z Q) (ann : gmap Z Z) (cls : gmap Z string).
Hypothesis Hcls : labels_have_colors cls.

Lemma minutes_loop_outcome (minutes : list Z) :
  let '(plots, e) := PlotMoveAmount.minutes_loop m ann cls minutes in
  plots = map (minute_plot_of m ann cls) (take (length plots) minutes)
  /\ Forall (minute_annotated_binary ann (py_range 0 60))
       (take (length plots) minutes)
  /\ match e with
     | None => length plots = length minutes
     | Some e =>
         exists minute sec a,
           minutes !! length plots = Some minute
           /\ sec ∈ py_range 0 60
           /\ ann !! (minute * 60 + sec) = Some a /\ ~ binary a
           /\ e = PlotMoveAmount.AnnotationKeyError a
     end.
Proof.
  induction minutes as [|minute rest IH].
  - cbn. repeat split. constructor.
  - cbn [PlotMoveAmount.minutes_loop].
    pose proof (minute_loop_outcome m ann cls Hcls minute (py_range 0 60)
                  [] [] []) as Hminute.
    destruct (PlotMoveAmount.minute_loop m ann cls minute (py_range 0 60)
                [] [] []) as [e | p].
    + cbn [length take map]. split; [reflexivity |]. split; [constructor |].
      destruct Hminute as (sec & a & Hin & Ha & Hbin & ->).
      exists minute, sec, a. repeat split; assumption.
    + destruct Hminute as [-> Hbin].
      destruct (PlotMoveAmount.minutes_loop m ann cls rest) as [plots e].
      destruct IH as (Hplots & Hall & He).
      cbn [length take map]. split; [| split].
      * rewrite <- Hplots. reflexivity.
      * constructor; assumption.
      * destruct e as [e|]; [| now rewrite He].
        exact He.
Qed.
End MinutesLoop.

Lemma plot_labels_have_colors (m : gmap Z Q) (th1 th2 : Q) :
  labels_have_colors (PlotMoveAmount.classify_motion m th1 th2).
Proof.
  intros s c. rewrite plot_classify_motion_lookup.
  destruct (m !! s) as [mv|]; [| discriminate]. intros [= <-].
  unfold three_class.
  destruct (ge_float mv th1); [now eexists |].
  destruct (ge_float mv th2); now eexists.
Qed.

Lemma plot_classification_bg (m : gmap Z Q) (th1 th2 : Q) (s : Z) :
  classification_bg (PlotMoveAmount.classify_motion m th1 th2) s
  = match m !! s with
    | Some mv =>
        three_class "lightblue"%string "lightyellow"%string
          "lightcoral"%string mv th1 th2
    | None => "white"%string
    end.
Proof.
  unfold classification_bg. rewrite plot_classify_motion_lookup.
  destruct (m !! s) as [mv|]; [| reflexivity]. cbn. unfold three_class.
  destruct (ge_float mv th1); [reflexivity |].
  destruct (ge_float mv th2); reflexivity.
Qed.

Lemma is_max_key_unique {A : Type} (m : gmap Z A) (j k : Z) :
  is_max_key m j -> is_max_key m k -> j = k.
Proof. intros [Hj Hjmax] [Hk Hkmax]. apply Z.le_antisymm; auto. Qed.

Lemma py_max_is_max_key {A : Type} (m : gmap Z A) (k : Z) :
  is_max_key m k -> py_max (keys m) = Ok k.
Proof.
  intros Hk. destruct (py_max_keys m) as (j & Hrun & Hj).
  - intros ->. destruct Hk as [[x Hx] _]. rewrite lookup_empty in Hx.
    discriminate Hx.
  - now rewrite Hrun, (is_max_key_unique m k j).
Qed.

Lemma second_of_minute (s : Z) : s / 60 * 60 + s mod 60 = s.
Proof. pose proof (Z.div_mod s 60). lia. Qed.

Lemma lookup_minutes (total : Z) (i : Z) :
  0 <= i < total -> py_range 0 total !! Z.to_nat i = Some i.
Proof.
  intros Hi. rewrite lookup_py_range by lia. f_equal. lia.
Qed.

Lemma lookup_map_seconds {B : Type} (g : Z -> B) (s : Z) :
  0 <= s ->
  map g (py_range 0 60) !! Z.to_nat (s mod 60) = Some (g (s mod 60)).
Proof.
  intros Hs. change (map g ?l) with (g <$> l).
  pose proof (Z.mod_pos_bound s 60 ltac:(lia)).
  rewrite list_lookup_fmap, lookup_minutes by lia. reflexivity.
Qed.

(** X16.  [create_minute_plots], called as [main] calls it on a non-empty
    table with the labels of [classify_motion], when every annotation is 0
    or 1: it raises nothing and saves [max_sec // 60 + 1] plots (none when
    the greatest second is negative), each of sixty bars and sixty colours
    per half; second [s] of a plotted minute is bar [s % 60] of plot
    [s // 60], with the motion of [s] (0 where the table has none), the
    colour of its annotation (white without one) and the colour of its
    label (white where the table has no motion). *)
Theorem minute_plots_show_every_second (sec_to_motion : gmap Z Q)
    (sec_to_annotation : gmap Z Z) (th1 th2 : Q) :
  sec_to_motion <> ∅ ->
  (forall s a, sec_to_annotation !! s = Some a -> binary a) ->
  exists max_sec plots,
    is_max_key sec_to_motion max_sec
    /\ PlotMoveAmount.create_minute_plots sec_to_motion sec_to_annotation
         (PlotMoveAmount.classify_motion sec_to_motion th1 th2)
       = (plots, None)
    /\ Z.of_nat (length plots) = Z.max 0 (max_sec / 60 + 1)
    /\ (forall p, p ∈ plots ->
          length (PlotMoveAmount.minute_values p) = 60%nat
          /\ length (PlotMoveAmount.annotation_bg_colors p) = 60%nat
          /\ length (PlotMoveAmount.classification_bg_colors p) = 60%nat)
    /\ forall s, 0 <= s -> s / 60 <= max_sec / 60 ->
         exists p,
           plots !! Z.to_nat (s / 60) = Some p
           /\ PlotMoveAmount.minute p = s / 60
           /\ PlotMoveAmount.minute_values p !! Z.to_nat (s mod 60)
              = Some (default 0%Q (sec_to_motion !! s))
           /\ PlotMoveAmount.annotation_bg_colors p !! Z.to_nat (s mod 60)
              = Some (match sec_to_annotation !! s with
                      | Some a =>
                          if a =? 1 then "lightblue"%string
                          else "lightcoral"%string
                      | None => "white"%string
                      end)
           /\ PlotMoveAmount.classification_bg_colors p !! Z.to_nat (s mod 60)
              = Some (match sec_to_motion !! s with
                      | Some mv =>
                          three_class "lightblue"%string "lightyellow"%string
                            "lightcoral"%string mv th1 th2
                      | None => "white"%string
                      end).
Proof.
  intros Hne Hbinary.
  destruct (py_max_keys sec_to_motion Hne) as (max_sec & Hmax & Hkey).
  set (cls := PlotMoveAmount.classify_motion sec_to_motion th1 th2).
  set (minutes := py_range 0 (max_sec / 60 + 1)).
  pose proof (minutes_loop_outcome sec_to_motion sec_to_annotation cls
                (plot_labels_have_colors sec_to_motion th1 th2) minutes)
    as Hloop.
  unfold PlotMoveAmount.create_minute_plots. rewrite Hmax. cbv zeta.
  fold minutes.
  destruct (PlotMoveAmount.minutes_loop sec_to_motion sec_to_annotation cls
              minutes) as [plots e].
  destruct Hloop as (Hplots & _ & He).
  destruct e as [e|].
  { exfalso. destruct He as (minute & sec & a & _ & _ & Ha & Hbad & _).
    apply Hbad. exact (Hbinary _ _ Ha). }
  rewrite He, firstn_all in Hplots.
  exists max_sec, plots. split; [exact Hkey |]. split; [reflexivity |].
  split; [| split].
  - rewrite He. unfold minutes. rewrite length_py_range. lia.
  - intros p Hp. rewrite Hplots in Hp.
    apply list_elem_of_fmap in Hp as (minute & -> & _).
    cbn. rewrite !length_map, length_py_range. repeat split.
  - intros s Hs Hminute.
    exists (minute_plot_of sec_to_motion sec_to_annotation cls (s / 60)).
    assert (0 <= s / 60) by (apply Z.div_pos; lia).
    split; [| split; [reflexivity |]].
    + rewrite Hplots. change (map ?f ?l) with (f <$> l).
      unfold minutes. rewrite list_lookup_fmap, lookup_minutes by lia.
      reflexivity.
    + cbn [minute_plot_of PlotMoveAmount.minute_values
             PlotMoveAmount.annotation_bg_colors
             PlotMoveAmount.classification_bg_colors].
      rewrite !lookup_map_seconds, !second_of_minute by exact Hs.
      split; [reflexivity |]. split.
      * f_equal. unfold annotation_bg.
        destruct (sec_to_annotation !! s) as [a|] eqn:Ha; [| reflexivity].
        destruct (Hbinary s a Ha) as [-> | ->]; reflexivity.
      * f_equal. apply plot_classification_bg.
Qed.

Lemma minute_plots_show_every_second_witness :
  exists max_sec plots,
    is_max_key (<[0 := 2%Q]> (<[61 := 1%Q]> ∅) : gmap Z Q) max_sec
    /\ PlotMoveAmount.create_minute_plots (<[0 := 2%Q]> (<[61 := 1%Q]> ∅))
         (<[0 := 1]> (<[1 := 0]> ∅))
         (PlotMoveAmount.classify_motion (<[0 := 2%Q]> (<[61 := 1%Q]> ∅)) 2 1)
       = (plots, None)
    /\ Z.of_nat (length plots) = Z.max 0 (max_sec / 60 + 1).
Proof.
  destruct (minute_plots_show_every_second (<[0 := 2%Q]> (<[61 := 1%Q]> ∅))
              (<[0 := 1]> (<[1 := 0]> ∅)) 2 1)
    as (max_sec & plots & Hmax & Hrun & Hlen & _).
  - intros Hempty. apply (f_equal (fun t : gmap Z Q => t !! 0)) in Hempty.
    vm_compute in Hempty. discriminate Hempty.
  - intros s a.
    destruct (decide (s = 0)) as [-> | H0];
      [vm_compute; intros [= <-]; now right |].
    destruct (decide (s = 1)) as [-> | H1];
      [vm_compute; intros [= <-]; now left |].
    rewrite !lookup_insert_ne, lookup_empty by congruence. discriminate.
  - exists max_sec, plots.
    split; [exact Hmax | split; [exact Hrun | exact Hlen]].
Defined.

(** X17.  [create_minute_plots] looks every annotation of a plotted minute
    up in a dictionary with the keys 0 and 1 only: when a second of a
    plotted minute is annotated with another integer, the call ends in a
    [KeyError] for an annotation that is not 0 or 1, and the plot of that
    minute and of the minutes after it are not saved. *)
Theorem minute_plots_key_error (sec_to_motion : gmap Z Q)
    (sec_to_annotation : gmap Z Z) (th1 th2 : Q) (max_sec s a : Z) :
  is_max_key sec_to_motion max_sec ->
  0 <= s -> s / 60 <= max_sec / 60 ->
  sec_to_annotation !! s = Some a -> ~ binary a ->
  exists plots a',
    PlotMoveAmount.create_minute_plots sec_to_motion sec_to_annotation
      (PlotMoveAmount.classify_motion sec_to_motion th1 th2)
    = (plots, Some (PlotMoveAmount.AnnotationKeyError a'))
    /\ ~ binary a'
    /\ Z.of_nat (length plots) <= s / 60.
Proof.
  intros Hmax Hs Hminute Ha Hbad.
  set (cls := PlotMoveAmount.classify_motion sec_to_motion th1 th2).
  set (minutes := py_range 0 (max_sec / 60 + 1)).
  pose proof (minutes_loop_outcome sec_to_motion sec_to_annotation cls
                (plot_labels_have_colors sec_to_motion th1 th2) minutes)
    as Hloop.
  unfold PlotMoveAmount.create_minute_plots.
  rewrite (py_max_is_max_key sec_to_motion max_sec Hmax). cbv zeta.
  fold minutes.
  destruct (PlotMoveAmount.minutes_loop sec_to_motion sec_to_annotation cls
              minutes) as [plots e].
  destruct Hloop as (_ & Hall & He).
  assert (0 <= s / 60) as Hdiv by (apply Z.div_pos; lia).
  assert (Z.of_nat (length plots) <= s / 60) as Hlen.
  { destruct (Z.le_gt_cases (Z.of_nat (length plots)) (s / 60)) as [H | H];
      [exact H | exfalso].
    rewrite Forall_lookup in Hall.
    assert (take (length plots) minutes !! Z.to_nat (s / 60) = Some (s / 60))
      as Hin.
    { rewrite lookup_take_lt by lia. apply lookup_minutes. lia. }
    apply Hbad, (Hall _ _ Hin (s mod 60) a).
    - apply elem_of_py_range. apply Z.mod_pos_bound. lia.
    - now rewrite second_of_minute. }
  destruct e as [e|].
  - destruct He as (minute & sec & a' & _ & _ & _ & Hbad' & ->).
    exists plots, a'. split; [reflexivity |]. split; assumption.
  - exfalso. unfold minutes in He. rewrite length_py_range in He. lia.
Qed.

Lemma minute_plots_key_error_witness :
  exists plots a',
    PlotMoveAmount.create_minute_plots (<[0 := 2%Q]> (<[61 := 1%Q]> ∅))
      (<[0 := 1]> (<[61 := 2]> ∅))
      (PlotMoveAmount.classify_motion (<[0 := 2%Q]> (<[61 := 1%Q]> ∅)) 2 1)
    = (plots, Some (PlotMoveAmount.AnnotationKeyError a'))
    /\ ~ binary a'
    /\ Z.of_nat (length plots) <= 61 / 60.
Proof.
  apply (minute_plots_key_error (<[0 := 2%Q]> (<[61 := 1%Q]> ∅))
           (<[0 := 1]> (<[61 := 2]> ∅)) 2 1 61 61 2).
  - split; [now eexists |].
    intros j [x Hj].
    destruct (decide (j = 0)) as [-> | H0]; [lia |].
    destruct (decide (j = 61)) as [-> | H1]; [lia |].
    rewrite !lookup_insert_ne, lookup_empty in Hj by congruence.
    discriminate Hj.
  - lia.
  - reflexivity.
  - reflexivity.
  - intros [H | H]; discriminate H.
Defined.

(** ** create_walking_classification_video.py: the label of a frame *)

Lemma Qfloor_div_Z (i n : Z) :
  0 < n -> Qfloor (inject_Z i / inject_Z n) = i / n.
Proof.
  intros Hn. destruct n as [|p|p]; try lia.
  unfold Qdiv, Qinv, Qmult, Qfloor, inject_Z. cbn [Qnum Qden].
  rewrite Z.mul_1_r. reflexivity.
Qed.

Lemma Qdiv_nonneg (a b : Q) : (0 <= a)%Q -> (0 < b)%Q -> (0 <= a / b)%Q.
Proof. intros Ha Hb. apply Qle_shift_div_l; [exact Hb | lra]. Qed.

Lemma frame_second_floor (fps : Q) (frame_idx : Z) :
  (0 < fps)%Q -> 0 <= frame_idx ->
  CreateVideo.frame_second fps frame_idx
  = Ok (Qfloor (inject_Z frame_idx / fps))
  /\ 0 <= Qfloor (inject_Z frame_idx / fps).
Proof.
  intros Hfps Hidx. unfold CreateVideo.frame_second.
  assert (0 <= inject_Z frame_idx / fps)%Q as Hq
    by (apply Qdiv_nonneg; [apply inject_Z_nonneg, Hidx | exact Hfps]).
  split.
  - destruct (Qeq_bool fps 0) eqn:Hzero.
    + apply Qeq_bool_iff in Hzero. rewrite Hzero in Hfps. discriminate Hfps.
    + now rewrite int_of_float_nonneg.
  - rewrite <- (Qfloor_Z 0). apply Qfloor_resp_le. exact Hq.
Qed.





Lemma int_of_float_product (s n : Z) :
  int_of_float (inject_Z s * inject_Z n) = s * n.
Proof.
  unfold int_of_float.
  destruct (Qle_bool 0 (inject_Z s * inject_Z n));
    rewrite <- inject_Z_mult; [apply Qfloor_Z | apply Qceiling_Z].
Qed.

Lemma div_is_quotient (i n s : Z) :
  0 < n -> (s * n <= i < (s + 1) * n <-> i / n = s).
Proof.
  intros Hn. split.
  - intros H. symmetry. apply (Z.div_unique i n s (i - s * n)); lia.
  - intros <-. pose proof (Z.mul_div_le i n Hn).
    pose proof (Z.mul_succ_div_gt i n Hn). lia.
Qed.

(** X19.  The second shown on the video against the windows of the
    aggregator.  At a whole frame rate [n > 0] they are the same split of
    the indices: index [i] lies in the window that [aggregate_by_second]
    sums into second [s] exactly when [create_classification_video] shows
    second [s] on frame [i].  At a fractional rate they are not: at 2.5
    frames per second, index 2 is summed into second 1 and shown with
    second 0. *)
Theorem video_second_matches_aggregation_window :
  (forall (n : Z) (len : nat) (i s : Z),
     0 < n -> 0 <= i < Z.of_nat len ->
     (i ∈ CalMovingAmount.window_frames len (inject_Z n) s
      <-> CreateVideo.frame_second (inject_Z n) i = Ok s))
  /\ (2 ∈ CalMovingAmount.window_frames 5 (5 # 2) 1
      /\ CreateVideo.frame_second (5 # 2) 2 = Ok 0).
Proof.
  split.
  - intros n len i s Hn Hi.
    unfold CalMovingAmount.window_frames. rewrite !int_of_float_product.
    rewrite elem_of_py_range.
    destruct (frame_second_floor (inject_Z n) i (inject_Z_pos n Hn))
      as [-> _]; [lia |].
    rewrite Qfloor_div_Z by exact Hn.
    pose proof (div_is_quotient i n s Hn) as Hdiv.
    split.
    + intros H. f_equal. apply Hdiv. lia.
    + intros [= H]. apply Hdiv in H. lia.
  - split; [| reflexivity].
    apply elem_of_py_range. vm_compute.
    split; [intros H; discriminate H | reflexivity].
Qed.

(** ** Writing the per-second file and reading it back *)

(** The number a string of digits denotes, continuing from [acc]. *)
Fixpoint value_of (acc : Z) (s : string) : Z :=
  match s with
  | EmptyString => acc
  | String c r => value_of (10 * acc + PyStr.digit_value c) r
  end.

(** Every character of the string satisfies [p]. *)
Fixpoint string_forall (p : ascii -> bool) (s : string) : bool :=
  match s with
  | EmptyString => true
  | String c r => p c && string_forall p r
  end.

Section Digits.
Import PyStr PyFormat.
Open Scope string_scope.

Lemma digit_char_spec (d : Z) :
  0 <= d <= 9 ->
  is_digit (digit_char d) = true /\ digit_value (digit_char d) = d.
Proof.
  intros Hd.
  assert (d = 0 \/ d = 1 \/ d = 2 \/ d = 3 \/ d = 4 \/ d = 5 \/ d = 6
          \/ d = 7 \/ d = 8 \/ d = 9) as Hcases by lia.
  repeat (destruct Hcases as [-> | Hcases]; [split; reflexivity |]).
  subst d. split; reflexivity.
Qed.

Lemma value_of_app (acc : Z) (s t : string) :
  value_of acc (s ++ t) = value_of (value_of acc s) t.
Proof.
  revert acc. induction s as [|c s IH]; intros acc; [reflexivity |].
  rewrite append_cons. cbn [value_of]. apply IH.
Qed.

Lemma value_of_shift (acc : Z) (s : string) :
  value_of acc s = acc * 10 ^ Z.of_nat (String.length s) + value_of 0 s.
Proof.
  revert acc. induction s as [|c s IH]; intros acc.
  - cbn. lia.
  - cbn [value_of String.length].
    rewrite (IH (10 * acc + digit_value c)), (IH (10 * 0 + digit_value c)).
    rewrite Nat2Z.inj_succ, Z.pow_succ_r by lia. lia.
Qed.

Lemma all_digits_app (s t : string) :
  all_digits (s ++ t) = all_digits s && all_digits t.
Proof.
  induction s as [|c s IH]; [reflexivity |].
  rewrite append_cons. cbn [all_digits]. rewrite IH. apply andb_assoc.
Qed.

Lemma digits_from_acc (fuel : nat) (n : Z) (acc : string) :
  digits_from fuel n acc = digits_from fuel n "" ++ acc.
Proof.
  revert n acc. induction fuel as [|fuel IH]; intros n acc; [reflexivity |].
  cbn [digits_from]. destruct (n / 10 =? 0)%Z; [reflexivity |].
  rewrite (IH (n / 10) (String _ acc)), (IH (n / 10) (String _ "")).
  rewrite append_assoc. reflexivity.
Qed.

Lemma digits_from_step (fuel : nat) (n : Z) :
  digits_from (S fuel) n ""
  = if (n / 10 =? 0)%Z then String (digit_char (n mod 10)) ""
    else digits_from fuel (n / 10) "" ++ String (digit_char (n mod 10)) "".
Proof.
  cbn [digits_from]. destruct (n / 10 =? 0)%Z; [reflexivity |].
  apply digits_from_acc.
Qed.

(** With enough fuel the digits are right. *)
Lemma digits_from_spec (fuel : nat) (n : Z) :
  0 <= n < 10 ^ Z.of_nat (S fuel) ->
  let ds := digits_from (S fuel) n "" in
  all_digits ds = true /\ ds <> "" /\ value_of 0 ds = n.
Proof.
  revert n. induction fuel as [|fuel IH]; intros n Hn ds; subst ds;
    rewrite digits_from_step;
    pose proof (Z.mod_pos_bound n 10 ltac:(lia)) as Hmod;
    destruct (digit_char_spec (n mod 10) ltac:(lia)) as [Hdigit Hvalue];
    pose proof (Z.div_mod n 10 ltac:(lia)) as Hdivmod.
  - assert (n / 10 = 0) as Hsmall
      by (apply Z.div_small; change (10 ^ Z.of_nat 1) with 10 in Hn; lia).
    rewrite Hsmall. cbn. rewrite Hdigit, Hvalue. repeat split; [done | lia].
  - destruct (Z.eqb_spec (n / 10) 0) as [Hsmall | Hbig].
    + cbn. rewrite Hdigit, Hvalue. repeat split; [done | lia].
    + destruct (IH (n / 10)) as (Hall & Hne & Hval).
      { split; [apply Z.div_pos; lia |].
        apply Z.div_lt_upper_bound; [lia |].
        rewrite (Nat2Z.inj_succ (S fuel)), Z.pow_succ_r in Hn by lia. lia. }
      split; [| split].
      * rewrite all_digits_app, Hall. cbn. now rewrite Hdigit.
      * destruct (digits_from (S fuel) (n / 10) ""); [done | discriminate].
      * rewrite value_of_app, Hval. cbn. rewrite Hvalue. lia.
Qed.

Lemma digits_from_length (fuel : nat) (n : Z) (w : nat) :
  0 <= n < 10 ^ Z.of_nat w -> (1 <= w)%nat ->
  (String.length (digits_from (S fuel) n "") <= w)%nat.
Proof.
  revert n w. induction fuel as [|fuel IH]; intros n w Hn Hw;
    rewrite digits_from_step.
  - destruct (n / 10 =? 0)%Z;
      [| change (digits_from 0 (n / 10) "" ++ ?x) with x];
      cbn [String.length]; lia.
  - destruct (Z.eqb_spec (n / 10) 0) as [Hsmall | Hbig];
      [cbn [String.length]; lia |].
    rewrite length_append. cbn [String.length].
    destruct w as [|[|w]]; [lia | |].
    + exfalso. apply Hbig, Z.div_small.
      change (10 ^ Z.of_nat 1) with 10 in Hn. lia.
    + specialize (IH (n / 10) (S w)).
      assert (String.length (digits_from (S fuel) (n / 10) "") <= S w)%nat;
        [| lia].
      apply IH; [| lia].
      split; [apply Z.div_pos; lia |].
      apply Z.div_lt_upper_bound; [lia |].
      rewrite (Nat2Z.inj_succ (S w)), Z.pow_succ_r in Hn by lia. lia.
Qed.

Lemma enough_fuel (n : Z) :
  0 <= n -> n < 10 ^ Z.of_nat (S (Z.to_nat (Z.log2 n))).
Proof.
  intros Hn. rewrite Nat2Z.inj_succ, Z2Nat.id by apply Z.log2_nonneg.
  destruct (Z.eq_dec n 0) as [-> | Hpos]; [reflexivity |].
  pose proof (Z.log2_spec n ltac:(lia)) as [_ Hlt].
  eapply Z.lt_le_trans; [exact Hlt |].
  apply Z.pow_le_mono_l. pose proof (Z.log2_nonneg n). lia.
Qed.

(** [str(n)] for [n >= 0] is a non-empty string of digits that denotes
    [n]. *)
Lemma digits_spec (n : Z) :
  0 <= n ->
  all_digits (digits n) = true /\ digits n <> "" /\ value_of 0 (digits n) = n.
Proof.
  intros Hn. apply digits_from_spec. split; [exact Hn | now apply enough_fuel].
Qed.

Lemma digits_length (n : Z) (w : nat) :
  0 <= n < 10 ^ Z.of_nat w -> (1 <= w)%nat ->
  (String.length (digits n) <= w)%nat.
Proof. apply digits_from_length. Qed.
End Digits.

(** A character of a written number: a digit, the sign or the point. *)
Definition token_char (c : ascii) : bool :=
  PyStr.is_digit c || Ascii.eqb c "-" || Ascii.eqb c ".".

Section Parsing.
Import PyStr PyFormat.
Open Scope string_scope.

Lemma string_forall_app (p : ascii -> bool) (s t : string) :
  string_forall p (s ++ t) = string_forall p s && string_forall p t.
Proof.
  induction s as [|c s IH]; [reflexivity |].
  rewrite append_cons. cbn [string_forall]. rewrite IH. apply andb_assoc.
Qed.

Lemma string_forall_impl (p q : ascii -> bool) (s : string) :
  (forall c, p c = true -> q c = true) ->
  string_forall p s = true -> string_forall q s = true.
Proof.
  intros Hpq. induction s as [|c s IH]; [reflexivity |].
  cbn. intros [Hc Hs]%andb_prop. now rewrite (Hpq c Hc), IH.
Qed.

Lemma all_digits_forall (s : string) :
  all_digits s = string_forall is_digit s.
Proof. induction s as [|c s IH]; [reflexivity |]. cbn. now rewrite IH. Qed.

Lemma token_char_plain (c : ascii) :
  token_char c = true ->
  is_space c = false /\ Ascii.eqb c "," = false.
Proof.
  destruct c as [[] [] [] [] [] [] [] []]; try discriminate; split; reflexivity.
Qed.

Lemma digits_token (s : string) :
  all_digits s = true -> string_forall token_char s = true.
Proof.
  rewrite all_digits_forall. apply string_forall_impl.
  intros c Hc. unfold token_char. now rewrite Hc.
Qed.

Lemma rstrip_token (s : string) :
  string_forall token_char s = true -> rstrip s = s.
Proof.
  induction s as [|c s IH]; cbn; [reflexivity |].
  intros [Hc Hs]%andb_prop.
  destruct (token_char_plain c Hc) as [-> _]. now rewrite IH.
Qed.

Lemma strip_token (s : string) :
  string_forall token_char s = true -> strip s = s.
Proof.
  intros Hs. unfold strip. destruct s as [|c s]; [reflexivity |].
  cbn [lstrip]. pose proof Hs as Hs'. cbn in Hs'.
  apply andb_prop in Hs' as [Hc _].
  destruct (token_char_plain c Hc) as [-> _]. now apply rstrip_token.
Qed.

Lemma split_from_token (cur u rest : string) :
  string_forall token_char u = true ->
  split_from "," cur (u ++ rest) = split_from "," (cur ++ u) rest.
Proof.
  revert cur. induction u as [|c u IH]; intros cur Hu.
  - now rewrite append_nil_r.
  - cbn in Hu. apply andb_prop in Hu as [Hc Hu].
    rewrite append_cons. cbn [split_from].
    destruct (token_char_plain c Hc) as [_ ->].
    rewrite IH by exact Hu. unfold snoc. now rewrite append_assoc.
Qed.

Lemma int_digits_value (ds : string) (acc : Z) (after_digit : bool) :
  all_digits ds = true -> (ds <> "" \/ after_digit = true) ->
  int_digits acc after_digit ds = Some (value_of acc ds).
Proof.
  revert acc after_digit.
  induction ds as [|c ds IH]; intros acc b Hds Hne.
  - destruct Hne as [Hne | ->]; [done | reflexivity].
  - cbn in Hds. apply andb_prop in Hds as [Hc Hds].
    cbn [int_digits value_of]. rewrite Hc. apply IH; [exact Hds | now right].
Qed.

Lemma decimal_fraction_value (ds : string) (num scale : Z) :
  all_digits ds = true ->
  decimal_fraction num scale ds
  = Some (Qred (value_of num ds
                # Z.to_pos (scale * 10 ^ Z.of_nat (String.length ds)))).
Proof.
  revert num scale. induction ds as [|c ds IH]; intros num scale Hds.
  - cbn. now rewrite Z.mul_1_r.
  - cbn in Hds. apply andb_prop in Hds as [Hc Hds].
    cbn [decimal_fraction value_of String.length]. rewrite Hc, IH by exact Hds.
    rewrite Nat2Z.inj_succ, Z.pow_succ_r by lia.
    do 3 f_equal. lia.
Qed.

Lemma decimal_integer_value (ds : string) (num : Z) (after_digit : bool) :
  all_digits ds = true -> (ds <> "" \/ after_digit = true) ->
  decimal_integer num after_digit ds = Some (inject_Z (value_of num ds)).
Proof.
  revert num after_digit.
  induction ds as [|c ds IH]; intros num b Hds Hne.
  - destruct Hne as [Hne | ->]; [done | reflexivity].
  - cbn in Hds. apply andb_prop in Hds as [Hc Hds].
    cbn [decimal_integer value_of]. rewrite Hc.
    apply IH; [exact Hds | now right].
Qed.

Lemma decimal_integer_point (ds r : string) (num : Z) (after_digit : bool) :
  all_digits ds = true -> (ds <> "" \/ after_digit = true) ->
  decimal_integer num after_digit (ds ++ String "." r)
  = decimal_fraction (value_of num ds) 1 r.
Proof.
  revert num after_digit.
  induction ds as [|c ds IH]; intros num b Hds Hne.
  - destruct Hne as [Hne | ->]; [done | reflexivity].
  - cbn in Hds. apply andb_prop in Hds as [Hc Hds].
    rewrite append_cons. cbn [decimal_integer value_of]. rewrite Hc.
    apply IH; [exact Hds | now right].
Qed.

Lemma zeros_spec (k : nat) (acc : Z) :
  all_digits (zeros k) = true /\ String.length (zeros k) = k
  /\ value_of acc (zeros k) = acc * 10 ^ Z.of_nat k.
Proof.
  revert acc. induction k as [|k IH]; intros acc.
  - cbn. repeat split. lia.
  - destruct (IH (10 * acc + 0)) as (Hall & Hlen & Hval).
    cbn [zeros all_digits String.length value_of].
    change (is_digit "0") with true. change (digit_value "0") with 0.
    rewrite Hall, Hlen, Hval, Nat2Z.inj_succ, Z.pow_succ_r by lia.
    repeat split. lia.
Qed.

(** A number below [10 ^ width] padded to [width] digits. *)
Lemma zero_padded_spec (width : nat) (n acc : Z) :
  0 <= n < 10 ^ Z.of_nat width -> (1 <= width)%nat ->
  all_digits (zero_padded width n) = true
  /\ String.length (zero_padded width n) = width
  /\ value_of acc (zero_padded width n) = acc * 10 ^ Z.of_nat width + n.
Proof.
  intros Hn Hw. unfold zero_padded.
  destruct (digits_spec n ltac:(lia)) as (Hall & _ & Hval).
  pose proof (digits_length n width Hn Hw) as Hlen.
  set (ds := digits n) in *.
  destruct (zeros_spec (width - String.length ds) acc) as (Hzall & Hzlen & Hzval).
  split; [| split].
  - now rewrite all_digits_app, Hzall, Hall.
  - rewrite length_append, Hzlen. lia.
  - rewrite value_of_app, Hzval, value_of_shift, Hval.
    rewrite <- Z.mul_assoc, <- Z.pow_add_r by lia.
    do 3 f_equal. lia.
Qed.
End Parsing.

(** The value [f"{x:.6f}"] denotes: [x] rounded to six decimals, the sign
    kept. *)
Definition rounded_6 (x : Q) : Q :=
  let negative := negb (Qle_bool 0 x) in
  let magnitude := if negative then (- x)%Q else x in
  let v := Qred (PyFormat.round_half_even (magnitude * 1000000) # 1000000) in
  if negative then Qopp v else v.

Section Rounding.
Import PyFormat.

Lemma round_half_even_near (y : Q) :
  (inject_Z (round_half_even y) - y <= 1 # 2)%Q
  /\ (y - inject_Z (round_half_even y) <= 1 # 2)%Q.
Proof.
  unfold round_half_even.
  pose proof (Qfloor_le y) as Hlo. pose proof (Qlt_floor y) as Hhi.
  set (f := Qfloor y) in *. rewrite inject_Z_plus in Hhi.
  change (inject_Z 1) with 1%Q in Hhi.
  assert (inject_Z (f + 1) == inject_Z f + 1)%Q as Hsucc
    by (rewrite inject_Z_plus; reflexivity).
  destruct (Qcompare_spec (y - inject_Z f) (1 # 2)) as [Heq | Hlt | Hgt].
  - destruct (Z.even f); [| rewrite Hsucc]; split; lra.
  - split; lra.
  - rewrite Hsucc. split; lra.
Qed.

Lemma round_half_even_nonneg (y : Q) :
  (0 <= y)%Q -> 0 <= round_half_even y.
Proof.
  intros Hy. unfold round_half_even.
  assert (0 <= Qfloor y) as Hf
    by (rewrite <- (Qfloor_Z 0); apply Qfloor_resp_le; exact Hy).
  destruct (y - inject_Z (Qfloor y) ?= 1 # 2)%Q; [destruct (Z.even _) | |];
    lia.
Qed.

Lemma magnitude_nonneg (x : Q) :
  (0 <= (if negb (Qle_bool 0 x) then - x else x))%Q.
Proof.
  destruct (Qle_bool 0 x) eqn:Hsign; cbn [negb].
  - now apply Qle_bool_iff.
  - assert (~ 0 <= x)%Q as Hneg
      by (intros H; apply Qle_bool_iff in H; congruence).
    lra.
Qed.

(** Six decimals are within half a millionth. *)
Lemma rounded_6_near (x : Q) :
  (x - rounded_6 x <= 1 # 2000000)%Q /\ (rounded_6 x - x <= 1 # 2000000)%Q.
Proof.
  unfold rounded_6. cbv zeta.
  set (magnitude := if negb (Qle_bool 0 x) then (- x)%Q else x).
  destruct (round_half_even_near (magnitude * 1000000)) as [Hup Hdown].
  set (scaled := round_half_even (magnitude * 1000000)) in *.
  assert (Qred (scaled # 1000000) == inject_Z scaled / 1000000)%Q as Hv.
  { rewrite Qred_correct, Qmake_Qdiv. reflexivity. }
  assert (inject_Z scaled / 1000000 - magnitude <= 1 # 2000000)%Q as H1.
  { apply (Qmult_le_r _ _ 1000000); [reflexivity |]. field_simplify. lra. }
  assert (magnitude - inject_Z scaled / 1000000 <= 1 # 2000000)%Q as H2.
  { apply (Qmult_le_r _ _ 1000000); [reflexivity |]. field_simplify. lra. }
  subst magnitude.
  destruct (negb (Qle_bool 0 x)); rewrite Hv; split; lra.
Qed.
End Rounding.

Section ReadBack.
Import PyStr PyFormat.
Open Scope string_scope.

Lemma decimal_float_unsigned (c : ascii) (r : string) :
  is_digit c = true -> string_forall token_char r = true ->
  decimal_float (String c r) = decimal_integer 0 false (String c r).
Proof.
  intros Hc Hr. unfold decimal_float.
  rewrite strip_token
    by (cbn; unfold token_char at 1; now rewrite Hc, Hr).
  destruct c as [[] [] [] [] [] [] [] []]; try discriminate Hc; reflexivity.
Qed.

Lemma decimal_float_negative (r : string) :
  string_forall token_char r = true ->
  decimal_float (String "-" r) = Qopp <$> decimal_integer 0 false r.
Proof.
  intros Hr. unfold decimal_float.
  rewrite strip_token by (cbn; exact Hr). reflexivity.
Qed.

Lemma int_of_float_inject_Z (n : Z) : int_of_float (inject_Z n) = n.
Proof.
  unfold int_of_float.
  destruct (Qle_bool 0 (inject_Z n)); [apply Qfloor_Z | apply Qceiling_Z].
Qed.

(** [float(str(n))] is [n]. *)
Lemma decimal_float_str_int (n : Z) :
  string_forall token_char (str_int n) = true
  /\ str_int n <> ""
  /\ decimal_float (str_int n) = Some (inject_Z n).
Proof.
  unfold str_int. destruct (Z.ltb_spec n 0) as [Hneg | Hpos].
  - destruct (digits_spec (- n) ltac:(lia)) as (Hall & Hne & Hval).
    split; [cbn; now apply digits_token |]. split; [discriminate |].
    rewrite decimal_float_negative by now apply digits_token.
    rewrite decimal_integer_value, Hval by (auto; now left).
    cbn. unfold Qopp, inject_Z. cbn. now rewrite Z.opp_involutive.
  - destruct (digits_spec n Hpos) as (Hall & Hne & Hval).
    split; [now apply digits_token |]. split; [exact Hne |].
    destruct (digits n) as [|c r] eqn:Hds; [done |].
    pose proof Hall as Hall'. cbn in Hall'.
    apply andb_prop in Hall' as [Hc Hr].
    rewrite decimal_float_unsigned by (auto; now apply digits_token).
    rewrite decimal_integer_value, Hval by (auto; now left). reflexivity.
Qed.

(** [float(f"{x:.6f}")] is [x] rounded to six decimals. *)
Lemma decimal_float_format_6f (x : Q) :
  string_forall token_char (format_6f x) = true
  /\ decimal_float (format_6f x) = Some (rounded_6 x).
Proof.
  unfold format_6f, rounded_6. cbv zeta.
  pose proof (magnitude_nonneg x) as Hmag.
  set (magnitude := if negb (Qle_bool 0 x) then (- x)%Q else x) in *.
  assert (0 <= round_half_even (magnitude * 1000000)) as Hscaled
    by (apply round_half_even_nonneg; lra).
  set (scaled := round_half_even (magnitude * 1000000)) in *.
  assert (0 <= scaled / 1000000) as Hhi by (apply Z.div_pos; lia).
  pose proof (Z.mod_pos_bound scaled 1000000 ltac:(lia)) as Hlo.
  destruct (digits_spec (scaled / 1000000) Hhi) as (Hall & Hne & Hval).
  destruct (zero_padded_spec 6 (scaled mod 1000000) (scaled / 1000000))
    as (Hfall & Hflen & Hfval); [exact Hlo | lia |].
  set (I := digits (scaled / 1000000)) in *.
  set (F := zero_padded 6 (scaled mod 1000000)) in *.
  assert (string_forall token_char (I ++ "." ++ F) = true) as Htoken.
  { rewrite string_forall_app, (digits_token I Hall).
    change ("." ++ F) with (String "." F). cbn.
    now apply digits_token. }
  assert (decimal_integer 0 false (I ++ "." ++ F)
          = Some (Qred (scaled # 1000000))) as Hparse.
  { change ("." ++ F) with (String "." F).
    rewrite decimal_integer_point by (auto; now left).
    rewrite decimal_fraction_value, Hval, Hfval, Hflen by exact Hfall.
    change (Z.to_pos (1 * 10 ^ Z.of_nat 6)) with 1000000%positive.
    change (10 ^ Z.of_nat 6) with 1000000.
    do 3 f_equal. pose proof (Z.div_mod scaled 1000000 ltac:(lia)). lia. }
  destruct (negb (Qle_bool 0 x)).
  - change ("-" ++ I ++ "." ++ F) with (String "-" (I ++ "." ++ F)).
    split; [cbn; exact Htoken |].
    rewrite decimal_float_negative, Hparse by exact Htoken. reflexivity.
  - change ("" ++ I ++ "." ++ F) with (I ++ "." ++ F).
    split; [exact Htoken |]. rewrite <- Hparse.
    destruct I as [|c r]; [done |].
    cbn in Hall. apply andb_prop in Hall as [Hc Hr].
    rewrite append_cons in *. cbn in Htoken.
    apply andb_prop in Htoken as [_ Htoken].
    now apply decimal_float_unsigned.
Qed.

(** A line of the file, as [csv.reader] and the row loop take it. *)
Lemma saved_row_entry (second : Z) (motion : Q) :
  let line := str_int second ++ "," ++ format_6f motion in
  PyStr.is_empty line = false
  /\ row_entry (float := decimal_float) (PyStr.split "," line)
     = Some (second, rounded_6 motion).
Proof.
  intros line. subst line.
  destruct (decimal_float_str_int second) as (Htoken & Hne & Hsecond).
  destruct (decimal_float_format_6f motion) as (Htoken' & Hmotion).
  split.
  - destruct (str_int second); [done | reflexivity].
  - unfold PyStr.split.
    change ("," ++ format_6f motion) with (String "," (format_6f motion)).
    rewrite split_from_token by exact Htoken.
    cbn [split_from Ascii.eqb Bool.eqb].
    rewrite <- (append_nil_r (format_6f motion)) at 1.
    rewrite split_from_token by exact Htoken'.
    cbn [split_from]. change ("" ++ ?s) with s.
    unfold row_entry.
    change (@float_of_str decimal_float) with decimal_float.
    rewrite Hsecond, Hmotion. cbn. now rewrite int_of_float_inject_Z.
Qed.
End ReadBack.

Lemma saved_rows_entries (per_second_motions : list (Z * Q)) :
  omap (row_entry (float := decimal_float))
    (tail (csv_reader (CalMovingAmount.save_motion_data per_second_motions)))
  = map (fun p => (p.1, rounded_6 p.2)) per_second_motions.
Proof.
  unfold CalMovingAmount.save_motion_data. cbn [csv_reader map tail].
  induction per_second_motions as [|[second motion] rest IH]; [reflexivity |].
  cbn [map omap list_omap fst snd].
  destruct (saved_row_entry second motion) as [-> ->].
  cbn [map] in IH. rewrite IH. reflexivity.
Qed.

Lemma filter_map_second {A : Type} (g : A -> A) (l : list (Z * A)) (k : Z) :
  filter (fun p : Z * A => p.1 = k) (map (fun p => (p.1, g p.2)) l)
  = map (fun p => (p.1, g p.2)) (filter (fun p : Z * A => p.1 = k) l).
Proof.
  induction l as [|p l IH]; [reflexivity |].
  cbn [map]. rewrite !filter_cons. cbn [fst].
  destruct (decide (p.1 = k)); cbn [map]; now rewrite IH.
Qed.

(** X20.  The per-second file written by [save_motion_data] and read back
    by the row loop of the readers, with [float] restricted to the
    fixed-point literals that are written: the table of the file has, at
    each second of the saved list, the motion of the last entry for that
    second rounded to six decimals, and no other second; rounding moves a
    motion by at most half a millionth. *)
Theorem saved_motion_file_reads_back (per_second_motions : list (Z * Q))
    (k : Z) :
  let file :=
    csv_reader (CalMovingAmount.save_motion_data per_second_motions) in
  segment_table (float := decimal_float) file !! k
  = (fun p => rounded_6 p.2)
      <$> last (filter (fun p : Z * Q => p.1 = k) per_second_motions)
  /\ (forall motion : Q,
        (motion - rounded_6 motion <= 1 # 2000000)%Q
        /\ (rounded_6 motion - motion <= 1 # 2000000)%Q).
Proof.
  intros file. split; [| apply rounded_6_near].
  unfold segment_table. subst file.
  rewrite read_rows_lookup, saved_rows_entries, filter_map_second.
  change (map ?f ?l) with (f <$> l). rewrite fmap_last.
  destruct (last _) as [p|]; [reflexivity | apply lookup_empty].
Qed.

(** A run of the aggregator, saved and read back. *)
Example aggregate_save_read_back :
  exists table,
    CalMovingAmount.aggregate_by_second 0%Q Qplus
      [1 # 3; 1 # 3; 1 # 3; 1 # 7]%Q 2 10 = Ok table
    /\ CalMovingAmount.save_motion_data table
       = ["second,motion_amount"; "10,0.666667"; "11,0.476190"]%string
    /\ segment_table (float := decimal_float)
         (csv_reader (CalMovingAmount.save_motion_data table)) !! 11
       = Some (47619 # 100000)%Q.
Proof. eexists. split; [reflexivity |]. split; vm_compute; reflexivity. Qed.

(** ** [main] of cal_moving_amount_by_sec.py *)

(** A square root that is exact on the squares of rationals: an instance
    to run [main] on concrete files. *)
Definition rational_sqrt : CalMovingAmount.SqrtFloat :=
  fun x => Z.sqrt (Qnum x) # Pos.sqrt (Qden x).


Section MainFacts.
Context {float : FloatOfStr} {sqrt : CalMovingAmount.SqrtFloat}.





End MainFacts.



(** A run of [main]: four poses at two frames per second, the output
    named for the seconds 10 to 11. *)
Example main_run_example :
  CalMovingAmount.main (float := decimal_float) (sqrt := rational_sqrt)
    ["prog"; "pose.txt"; "out/10-11sec.txt"; "2"]%string
    (fun _ => Some ["0 0 0"; "3 0 4"; ""; "3 0 4"; "6 0 8"]%string)
  = ([],
     Ok ("out/10-11sec.txt"%string,
         ["second,motion_amount"; "10,5.000000"; "11,5.000000"]%string)).
Proof. vm_compute. reflexivity. Qed.


(** ** create_walking_classification_video.py: the statistics *)

(** The sum of the values of a table, in the order of its items. *)
Definition sum_values (m : gmap Z Q) : Q :=
  foldl Qplus 0%Q (map snd (items m)).

(** The motions of the seconds of a minute, in the order of the items. *)
Definition motions_of_minute (m : gmap Z Q) (minute : Z) : list Q :=
  map snd (filter (fun p : Z * Q => p.1 / 60 = minute) (items m)).

Lemma foldl_Qplus_cons (x : Q) (xs : list Q) :
  (foldl Qplus 0 (x :: xs) == x + foldl Qplus 0 xs)%Q.
Proof. cbn [foldl]. rewrite foldl_Qplus_acc. lra. Qed.

Lemma foldl_Qplus_perm (xs ys : list Q) :
  xs ≡ₚ ys -> (foldl Qplus 0 xs == foldl Qplus 0 ys)%Q.
Proof.
  induction 1 as [|x xs ys _ IH|x y xs|xs ys zs _ IH1 _ IH2].
  - reflexivity.
  - rewrite !foldl_Qplus_cons, IH. reflexivity.
  - rewrite !foldl_Qplus_cons. lra.
  - now rewrite IH1.
Qed.

Lemma sum_values_insert (m : gmap Z Q) (k : Z) (v : Q) :
  (sum_values (<[k := Qplus (default 0 (m !! k)) v]> m)
   == sum_values m + v)%Q.
Proof.
  unfold sum_values, items.
  destruct (m !! k) as [old|] eqn:Hk; cbn [default].
  - rewrite <- (insert_delete_eq m k (old + v)%Q).
    rewrite (foldl_Qplus_perm _ (map snd ((k, (old + v)%Q)
                                           :: map_to_list (delete k m)))).
    2: { apply Permutation_map, map_to_list_insert, lookup_delete_eq. }
    rewrite (foldl_Qplus_perm (map snd (map_to_list m))
               (map snd ((k, old) :: map_to_list (delete k m)))).
    2: { apply Permutation_map.
         rewrite <- (insert_delete_id m k old Hk) at 1.
         apply map_to_list_insert, lookup_delete_eq. }
    cbn [map snd]. rewrite !foldl_Qplus_cons. lra.
  - rewrite (foldl_Qplus_perm _ (map snd ((k, (0 + v)%Q) :: map_to_list m)))
      by (apply Permutation_map, map_to_list_insert, Hk).
    cbn [map snd]. rewrite foldl_Qplus_cons. lra.
Qed.

Definition minute_step (acc : gmap Z Q) (p : Z * Q) : gmap Z Q :=
  <[p.1 / 60 := Qplus (default 0%Q (acc !! (p.1 / 60))) p.2]> acc.

Lemma minute_to_sum_fold (m : gmap Z Q) :
  CreateVideo.minute_to_sum m = foldl minute_step ∅ (items m).
Proof.
  unfold CreateVideo.minute_to_sum. generalize (∅ : gmap Z Q).
  induction (items m) as [|[s v] l IH]; intros acc; [reflexivity |].
  cbn [foldl]. apply IH.
Qed.

Lemma minute_fold_sum (l : list (Z * Q)) (acc : gmap Z Q) :
  (sum_values (foldl minute_step acc l)
   == sum_values acc + foldl Qplus 0 (map snd l))%Q.
Proof.
  revert acc. induction l as [|[s v] l IH]; intros acc.
  - cbn. lra.
  - change (foldl minute_step acc ((s, v) :: l))
      with (foldl minute_step (minute_step acc (s, v)) l).
    cbn [map snd]. rewrite IH. unfold minute_step. cbn [fst snd].
    rewrite sum_values_insert, foldl_Qplus_cons. lra.
Qed.

Lemma minute_fold_lookup (l : list (Z * Q)) (acc : gmap Z Q) (minute : Z) :
  foldl minute_step acc l !! minute
  = match map snd (filter (fun p : Z * Q => p.1 / 60 = minute) l) with
    | [] => acc !! minute
    | vs => Some (foldl Qplus (default 0%Q (acc !! minute)) vs)
    end.
Proof.
  revert acc. induction l as [|[s v] l IH]; intros acc; [reflexivity |].
  cbn [foldl]. rewrite IH, filter_cons. unfold minute_step at 1 2.
  cbn [fst snd].
  destruct (decide (s / 60 = minute)) as [<- | Hne].
  - rewrite lookup_insert_eq. cbn [map snd default foldl].
    destruct (map snd (filter _ l)); reflexivity.
  - rewrite lookup_insert_ne by exact Hne. reflexivity.
Qed.

Lemma omap_items_keys (M : gmap Z Q) (L : list (Z * Q)) :
  (forall k v, (k, v) ∈ L -> M !! k = Some v) ->
  omap (fun k => (fun v => (k, v)) <$> M !! k) (map fst L) = L.
Proof.
  induction L as [|[k v] L IH]; intros H; [reflexivity |].
  cbn [map fst omap list_omap]. rewrite (H k v) by left. cbn.
  rewrite IH; [reflexivity |]. intros k' v' Hin. apply H. now right.
Qed.

Lemma omap_keys_fst (M : gmap Z Q) (ks : list Z) :
  (forall k, k ∈ ks -> is_Some (M !! k)) ->
  map fst (omap (fun k => (fun v => (k, v)) <$> M !! k) ks) = ks.
Proof.
  induction ks as [|k ks IH]; intros H; [reflexivity |].
  cbn [omap list_omap]. destruct (H k ltac:(left)) as [v ->]. cbn.
  rewrite IH; [reflexivity |]. intros k' Hin. apply H. now right.
Qed.

(** The minutes in ascending order, each with its sum. *)
Lemma per_minute_items (M : gmap Z Q) :
  let l := omap (fun k => (fun v => (k, v)) <$> M !! k)
             (merge_sort Z.le (keys M)) in
  l ≡ₚ map_to_list M /\ map fst l = merge_sort Z.le (keys M).
Proof.
  intros l. subst l. split.
  - rewrite merge_sort_Permutation. unfold keys.
    rewrite omap_items_keys; [reflexivity |].
    intros k v. apply elem_of_map_to_list.
  - apply omap_keys_fst. intros k Hk.
    rewrite merge_sort_Permutation in Hk. now apply elem_of_keys.
Qed.

Lemma motions_of_minute_nonempty (m : gmap Z Q) (minute : Z) :
  motions_of_minute m minute <> []
  <-> exists s, is_Some (m !! s) /\ s / 60 = minute.
Proof.
  unfold motions_of_minute, items. split.
  - destruct (filter _ (map_to_list m)) as [|[s v] l] eqn:Hf; [done |].
    intros _. assert ((s, v) ∈ filter (fun p : Z * Q => p.1 / 60 = minute)
                                 (map_to_list m)) as Hin
      by (rewrite Hf; left).
    apply list_elem_of_filter in Hin as [Hmin Hin].
    apply elem_of_map_to_list in Hin. exists s. split; [now exists v | exact Hmin].
  - intros (s & [v Hs] & Hmin).
    assert ((s, v) ∈ filter (fun p : Z * Q => p.1 / 60 = minute)
                       (map_to_list m)) as Hin
      by (apply list_elem_of_filter; split;
          [exact Hmin | now apply elem_of_map_to_list]).
    destruct (filter _ (map_to_list m)); [now apply elem_of_nil in Hin | done].
Qed.

Lemma minute_to_sum_lookup (m : gmap Z Q) (minute : Z) (x : Q) :
  CreateVideo.minute_to_sum m !! minute = Some x
  <-> motions_of_minute m minute <> []
      /\ x = foldl Qplus 0%Q (motions_of_minute m minute).
Proof.
  rewrite minute_to_sum_fold, minute_fold_lookup, lookup_empty.
  fold (motions_of_minute m minute). cbn [default].
  destruct (motions_of_minute m minute) as [|v vs].
  - split; [discriminate | now intros [? _]].
  - split; [intros [= <-]; now split | intros [_ ->]; reflexivity].
Qed.

(** X23.  [save_statistics] on a table that is not empty: the duration it
    reports is the greatest second plus one; it lists the minutes in
    ascending order, a minute being listed exactly when the table has a
    second [s] with [s // 60] equal to it, with the sum of the motions of
    these seconds; and the listed sums add up to the total motion it
    reports, the additions taken exactly. *)
Theorem statistics_minutes_partition_total (sec_to_motion : gmap Z Q)
    (segment_files : list string) :
  sec_to_motion <> ∅ ->
  exists max_sec stats,
    is_max_key sec_to_motion max_sec
    /\ CreateVideo.save_statistics sec_to_motion segment_files = Ok stats
    /\ CreateVideo.total_duration stats = max_sec + 1
    /\ Sorted Z.le (map fst (CreateVideo.per_minute stats))
    /\ (forall minute x,
          (minute, x) ∈ CreateVideo.per_minute stats
          <-> motions_of_minute sec_to_motion minute <> []
              /\ x = foldl Qplus 0%Q (motions_of_minute sec_to_motion minute))
    /\ (forall minute,
          motions_of_minute sec_to_motion minute <> []
          <-> exists s, is_Some (sec_to_motion !! s) /\ s / 60 = minute)
    /\ Qeq (foldl Qplus 0%Q (map snd (CreateVideo.per_minute stats)))
           (CreateVideo.total_motion stats).
Proof.
  intros Hne.
  destruct (py_max_keys sec_to_motion Hne) as (max_sec & Hmax & Hkey).
  unfold CreateVideo.save_statistics. rewrite Hmax.
  unfold mbind, result_bind.
  destruct (per_minute_items (CreateVideo.minute_to_sum sec_to_motion))
    as [Hperm Hfst].
  exists max_sec. eexists. split; [exact Hkey |]. split; [reflexivity |].
  cbn [CreateVideo.total_duration CreateVideo.per_minute
         CreateVideo.total_motion].
  split; [reflexivity |]. split; [| split; [| split]].
  - rewrite Hfst. apply Sorted_merge_sort.
    intros a b. destruct (Z.le_ge_cases a b); [left | right]; lia.
  - intros minute x. rewrite Hperm, elem_of_map_to_list.
    apply minute_to_sum_lookup.
  - apply motions_of_minute_nonempty.
  - rewrite (foldl_Qplus_perm _ _ (Permutation_map snd Hperm)).
    fold (items (CreateVideo.minute_to_sum sec_to_motion)).
    fold (sum_values (CreateVideo.minute_to_sum sec_to_motion)).
    rewrite minute_to_sum_fold, minute_fold_sum.
    unfold sum_values, items. rewrite map_to_list_empty. cbn. lra.
Qed.

Lemma statistics_minutes_partition_total_witness :
  exists max_sec stats,
    is_max_key (<[0 := 1%Q]> (<[61 := 2%Q]> (<[62 := 3%Q]> ∅)) : gmap Z Q)
      max_sec
    /\ CreateVideo.save_statistics
         (<[0 := 1%Q]> (<[61 := 2%Q]> (<[62 := 3%Q]> ∅))) []
       = Ok stats
    /\ CreateVideo.total_duration stats = max_sec + 1
    /\ Qeq (foldl Qplus 0%Q (map snd (CreateVideo.per_minute stats)))
           (CreateVideo.total_motion stats).
Proof.
  destruct (statistics_minutes_partition_total
              (<[0 := 1%Q]> (<[61 := 2%Q]> (<[62 := 3%Q]> ∅))) [])
    as (max_sec & stats & Hmax & Hrun & Hduration & _ & _ & _ & Hsum).
  - intros Hempty. apply (f_equal (fun t : gmap Z Q => t !! 0)) in Hempty.
    vm_compute in Hempty. discriminate Hempty.
  - exists max_sec, stats.
    split; [exact Hmax |]. split; [exact Hrun |].
    split; [exact Hduration | exact Hsum].
Defined.

(** The statistics of a table with seconds in two minutes. *)
Example statistics_run :
  exists stats,
    CreateVideo.save_statistics
      (<[0 := 1%Q]> (<[61 := 2%Q]> (<[62 := 3%Q]> ∅))) ["0-62sec.txt"%string]
    = Ok stats
    /\ CreateVideo.total_duration stats = 63
    /\ map fst (CreateVideo.per_minute stats) = [0; 1]
    /\ Qeq (CreateVideo.total_motion stats) 6
    /\ CreateVideo.save_statistics ∅ [] = Raise ValueError.
Proof.
  eexists. split; [reflexivity |]. vm_compute. repeat split.
Qed.
